(** * Flight search: a shallow embedding of [flight_search.py]

    The program queries a web-search API for flight listings on three
    booking sites, extracts a price from the free text of every hit with
    regular expressions, ranks the hits of one site by price and compares
    the cheapest offers of the three sites.

    Definitions come first.

    - [Py]: the part of the Python run time the program relies on:
      [str] values as lists of Unicode code points, [str.strip],
      [str.upper], [str.lower], [str.format], the backtracking matcher of
      [re], [float(str)] on IEEE binary64 (the standard library's
      [spec_float]), [datetime.strptime] for ["%Y-%m-%d"], the stable
      [list.sort] and [min].
    - [FlightSearch]: the pydantic models with their validators and the
      [FlightSearcher] class, with the network and the current day as
      explicit inputs and a trace of the requests made.
    - [Cli]: the entry point [main], with the command line and the
      environment as inputs and what is printed as output.
    - [Demo]: one run on fixed data.

    The properties follow: [PyFacts] for the run-time layer,
    [FlightSearchFacts] for the program, [Claims] for the statements of
    the specification, and [Extras] for more of what the code does. *)

From Stdlib Require Import Strings.String Strings.Ascii.
From Stdlib Require Import ZArith NArith PArith List Bool Lia.
From Stdlib Require Import Floats.SpecFloat.
From Stdlib Require Import Sorting.Sorted Sorting.Permutation.
Import ListNotations.

Set Implicit Arguments.

(** ** Strings *)

Module Py.

(** A Python [str] is a sequence of Unicode code points. *)
Definition char := N.
Definition str := list char.

(** Source literals are written as UTF-8 text and decoded to code points. *)
Definition cont (b : N) : N := N.land b 63.

Fixpoint utf8_decode (bs : list N) : str :=
  match bs with
  | [] => []
  | b0 :: t0 =>
      if b0 <? 128 then b0 :: utf8_decode t0
      else if b0 <? 224 then
        match t0 with
        | b1 :: t1 => (N.land b0 31 * 64 + cont b1) :: utf8_decode t1
        | _ => []
        end
      else if b0 <? 240 then
        match t0 with
        | b1 :: b2 :: t2 =>
            (N.land b0 15 * 4096 + cont b1 * 64 + cont b2) :: utf8_decode t2
        | _ => []
        end
      else
        match t0 with
        | b1 :: b2 :: b3 :: t3 =>
            (N.land b0 7 * 262144 + cont b1 * 4096 + cont b2 * 64 + cont b3)
              :: utf8_decode t3
        | _ => []
        end
  end%N.

Definition u (s : string) : str :=
  utf8_decode (map N_of_ascii (list_ascii_of_string s)).
Arguments u s%_string.

Fixpoint str_eqb (a b : str) : bool :=
  match a, b with
  | [], [] => true
  | c :: a', d :: b' => (c =? d)%N && str_eqb a' b'
  | _, _ => false
  end.

(** Truth value of a [str] and of an [Optional[str]]. *)
Definition truthy (s : str) : bool :=
  match s with [] => false | _ => true end.

Definition truthy_opt (o : option str) : bool :=
  match o with None => false | Some s => truthy s end.

(** [a.startswith(p)] and [p in a]. *)
Fixpoint startswith (s p : str) : bool :=
  match p, s with
  | [], _ => true
  | c :: p', d :: s' => (c =? d)%N && startswith s' p'
  | _ :: _, [] => false
  end.

Fixpoint contains (s p : str) : bool :=
  startswith s p || match s with [] => false | _ :: t => contains t p end.

(** *** Unicode character data

    The case mappings and the decimal digits of the non-ASCII code points
    come from the Unicode character database, which is data of the
    interpreter and not of the program.  They are taken as parameters; the
    ASCII range and the white-space set are fixed below. *)
Class UnicodeData := {
  uni_decimal : char -> option N;  (* digit value of a character of category Nd *)
  uni_upper : char -> str;         (* full upper-case mapping *)
  uni_lower : char -> str;         (* full lower-case mapping *)
  (* what is used of this data: digit values are below ten, no upper-case
     mapping is empty, and none contains a line feed *)
  uni_decimal_lt : forall c d, uni_decimal c = Some d -> (d < 10)%N;
  uni_upper_nonempty : forall c, uni_upper c <> [];
  uni_upper_no_lf : forall c, (128 <= c)%N -> ~ In 10%N (uni_upper c)
}.

Definition in_range (lo hi c : N) : bool := ((lo <=? c) && (c <=? hi))%N.
Arguments in_range (lo hi c)%_N.

Definition is_ascii_digit (c : char) : bool := in_range 48 57 c.
Definition is_ascii_upper (c : char) : bool := in_range 65 90 c.
Definition is_ascii_lower (c : char) : bool := in_range 97 122 c.

(** [str.isspace] of one character: the set used by [str.strip()]. *)
Definition is_space (c : char) : bool :=
  in_range 9 13 c || in_range 28 32 c || (c =? 133)%N || (c =? 160)%N
  || (c =? 5760)%N || in_range 8192 8202 c || (c =? 8232)%N || (c =? 8233)%N
  || (c =? 8239)%N || (c =? 8287)%N || (c =? 12288)%N.

Fixpoint lstrip (s : str) : str :=
  match s with
  | c :: t => if is_space c then lstrip t else s
  | [] => []
  end.

Definition rstrip (s : str) : str := rev (lstrip (rev s)).
Definition strip (s : str) : str := rstrip (lstrip s).

Section Unicode.
Context {U : UnicodeData}.

(** Decimal value of a character: [0-9] and the other characters of
    category Nd.  This is the class [\d] of a [str] pattern and the digit
    set of [int] and [float]. *)
Definition decimal (c : char) : option N :=
  if (c <? 128)%N then
    if is_ascii_digit c then Some (c - 48)%N else None
  else uni_decimal c.

Definition is_digit (c : char) : bool :=
  match decimal c with Some _ => true | None => false end.

Definition upper_char (c : char) : str :=
  if (c <? 128)%N then [if is_ascii_lower c then (c - 32)%N else c]
  else uni_upper c.

Definition lower_char (c : char) : str :=
  if (c <? 128)%N then [if is_ascii_upper c then (c + 32)%N else c]
  else uni_lower c.

Definition upper (s : str) : str := flat_map upper_char s.
Definition lower (s : str) : str := flat_map lower_char s.

End Unicode.

(** The character data restricted to ASCII: every other code point is its
    own upper and lower case and is no digit. *)
Definition ascii_data : UnicodeData.
Proof.
  refine {| uni_decimal := fun _ => None;
            uni_upper := fun c => [c];
            uni_lower := fun c => [c] |}.
  - discriminate.
  - discriminate.
  - intros c Hc [H | []]. subst c. now apply Hc.
Defined.

(** ** Regular expressions: the backtracking matcher of [re]

    The constructs the program's patterns (and those [strptime] builds)
    use: one-character tests (literals, classes, [\d]), sequence,
    alternation, the greedy star, and the anchors [^] and [$]. *)
Inductive regex :=
| Eps
| Chr (f : char -> bool)
| Seq (a b : regex)
| Alt (a b : regex)
| Star (a : regex)
| Bol
| Eol.

Definition Lit (c : char) : regex := Chr (N.eqb c).
Arguments Lit c%_N.
Definition Plus (r : regex) : regex := Seq r (Star r).
Definition Opt (r : regex) : regex := Alt r Eps.

Fixpoint Str (s : str) : regex :=
  match s with
  | [] => Eps
  | c :: t => Seq (Lit c) (Str t)
  end.

(** A position in the subject: the offset reached and the text left. *)
Definition pos := (nat * str)%type.

(** Greedy iteration: one more round of the body first, then stop.  The
    fuel is the length of the text left; a round that consumes nothing is
    not repeated. *)
Fixpoint star_aux (step : pos -> list pos) (fuel : nat) (p : pos) : list pos :=
  match fuel with
  | O => [p]
  | S n =>
      flat_map (fun q => if length (snd q) <? length (snd p)
                         then star_aux step n q else []) (step p) ++ [p]
  end.

(** [matches r p]: the positions at which a match of [r] started at [p]
    can end, in the order in which the backtracking matcher tries them.
    [$] matches at the end and before a final line feed. *)
Fixpoint matches (r : regex) (p : pos) : list pos :=
  match r with
  | Eps => [p]
  | Chr f =>
      match p with
      | (i, c :: t) => if f c then [(S i, t)] else []
      | (_, []) => []
      end
  | Seq a b => flat_map (matches b) (matches a p)
  | Alt a b => matches a p ++ matches b p
  | Star a => star_aux (matches a) (length (snd p)) p
  | Bol => match p with (O, _) => [p] | _ => [] end
  | Eol => match snd p with
           | [] => [p]
           | [c] => if (c =? 10)%N then [p] else []
           | _ => []
           end
  end.

(** The characters a match of [r] can contain. *)
Fixpoint accepts (r : regex) (c : char) : bool :=
  match r with
  | Chr f => f c
  | Seq a b | Alt a b => accepts a c || accepts b c
  | Star a => accepts a c
  | Eps | Bol | Eol => false
  end.

(** [q] is reached from [p] by consuming characters that [r] accepts. *)
Definition consumed (r : regex) (p q : pos) : Prop :=
  exists w, snd p = w ++ snd q /\ fst q = fst p + length w
            /\ Forall (fun c => accepts r c = true) w.

(** [re.match(r, s)]: the end offset of the first match at offset 0. *)
Definition re_match (r : regex) (s : str) : option nat :=
  match matches r (O, s) with
  | (j, _) :: _ => Some j
  | [] => None
  end.

(** [re.search(r, s)]: the leftmost offset with a match, and its end. *)
Fixpoint search_from (r : regex) (i : nat) (s : str) : option (nat * nat) :=
  match matches r (i, s) with
  | (j, _) :: _ => Some (i, j)
  | [] => match s with
          | [] => None
          | _ :: t => search_from r (S i) t
          end
  end.

Definition slice (s : str) (i j : nat) : str := firstn (j - i) (skipn i s).

(** [re.search(r, s).group(0)], or [None]. *)
Definition re_search (r : regex) (s : str) : option str :=
  match search_from r O s with
  | Some (i, j) => Some (slice s i j)
  | None => None
  end.

(** [re.sub(r, repl, s)] for a pattern that matches no empty string and a
    replacement without group references: leftmost matches, not
    overlapping, are replaced. *)
Fixpoint sub_from (r : regex) (repl : str) (fuel i : nat) (s : str) : str :=
  match fuel, s with
  | S n, c :: t =>
      match matches r (i, s) with
      | (j, rest) :: _ =>
          if i <? j then repl ++ sub_from r repl n j rest
          else c :: sub_from r repl n (S i) t
      | [] => c :: sub_from r repl n (S i) t
      end
  | _, _ => s
  end.

Definition re_sub (r : regex) (repl s : str) : str :=
  sub_from r repl (length s) O s.

(** ** [float(str)]

    Values are IEEE binary64 numbers, [spec_float] at precision 53 and
    maximal exponent 1024. *)
Definition float := spec_float.
Definition inf : float := S754_infinity false.
Definition nan : float := S754_nan.
Definition flt (x y : float) : bool := SFltb x y.
Definition is_nan (x : float) : bool :=
  match x with S754_nan => true | _ => false end.

(** The binary64 number nearest to [(-1)^neg * m * 10^e], ties to even;
    an overflow gives an infinity. *)
Definition float_of_decimal (neg : bool) (m : N) (e : Z) : float :=
  match m with
  | N0 => S754_zero neg
  | Npos p =>
      if (0 <=? e)%Z
      then binary_normalize 53 1024 (cond_Zopp neg (Z.pos p * 10 ^ e)) 0 false
      else SFdiv 53 1024 (S754_finite neg p 0)
                         (S754_finite false (Z.to_pos (10 ^ (- e))) 0)
  end.

Fixpoint span (f : char -> bool) (s : str) : str * str :=
  match s with
  | c :: t => if f c then let (a, b) := span f t in (c :: a, b) else ([], s)
  | [] => ([], [])
  end.

Fixpoint digits_value (acc : N) (ds : str) : N :=
  match ds with
  | [] => acc
  | c :: t => digits_value (10 * acc + (c - 48))%N t
  end.

Definition parse_sign (s : str) : bool * str :=
  match s with
  | 45%N :: t => (true, t)
  | 43%N :: t => (false, t)
  | _ => (false, s)
  end.

(** The exponent part, if it has a digit: its value and the text after. *)
Definition parse_exponent (s : str) : Z * str :=
  match s with
  | c :: t =>
      if ((c =? 101) || (c =? 69))%N then
        let (eneg, t1) := parse_sign t in
        let (ed, t2) := span is_ascii_digit t1 in
        match ed with
        | [] => (0%Z, s)
        | _ => (cond_Zopp eneg (Z.of_N (digits_value 0 ed)), t2)
        end
      else (0%Z, s)
  | [] => (0%Z, s)
  end.

(** The decimal numeral at the head of [s] and the text after it: sign,
    digits, fraction, exponent; at least one digit before the exponent. *)
Definition strtod_decimal (s : str) : option (float * str) :=
  let (neg, s1) := parse_sign s in
  let (ip, s2) := span is_ascii_digit s1 in
  let (fp, s3) := match s2 with
                  | 46%N :: t => span is_ascii_digit t
                  | _ => ([], s2)
                  end in
  match ip ++ fp with
  | [] => None
  | ds =>
      let (ex, s4) := parse_exponent s3 in
      Some (float_of_decimal neg (digits_value 0 ds) (ex - Z.of_nat (length fp)),
            s4)
  end.

Definition ascii_lower (c : char) : char :=
  if is_ascii_upper c then (c + 32)%N else c.

(** [t] (lower case) is a prefix of [s] up to ASCII case: the rest. *)
Fixpoint ci_prefix (t s : str) : option str :=
  match t, s with
  | [], _ => Some s
  | a :: t', c :: s' => if (ascii_lower c =? a)%N then ci_prefix t' s' else None
  | _ :: _, [] => None
  end.

Definition parse_inf_or_nan (s : str) : option (float * str) :=
  let (neg, s1) := parse_sign s in
  match ci_prefix (u "inf") s1 with
  | Some r =>
      match ci_prefix (u "inity") r with
      | Some r' => Some (S754_infinity neg, r')
      | None => Some (S754_infinity neg, r)
      end
  | None =>
      match ci_prefix (u "nan") s1 with
      | Some r => Some (nan, r)
      | None => None
      end
  end.

(** The letter n, with which the spelling of NaN begins. *)
Definition is_n (c : char) : Prop := c = 110%N \/ c = 78%N.

Definition strtod (s : str) : option (float * str) :=
  match strtod_decimal s with
  | Some r => Some r
  | None => parse_inf_or_nan s
  end.

(** *** Decimal numerals

    An optional minus sign, digits, and optionally a point followed by
    more digits: the text of a decimal number with integer part [ip] and
    fraction [fp]. *)
Definition digits (ds : str) : Prop :=
  Forall (fun c => is_ascii_digit c = true) ds.


(** The characters of a numeral. *)
Definition numchar (c : char) : bool :=
  is_ascii_digit c || (c =? 45)%N || (c =? 46)%N.


(** Single underscores are allowed between two digits only. *)
Fixpoint strip_underscores (prev : char) (s : str) : option str :=
  match s with
  | [] => if (prev =? 95)%N then None else Some []
  | c :: t =>
      if (c =? 95)%N then
        if is_ascii_digit prev then strip_underscores c t else None
      else if (prev =? 95)%N && negb (is_ascii_digit c) then None
      else option_map (cons c) (strip_underscores c t)
  end.

(** White space of the C locale, as the numeric parsers skip it. *)
Definition is_c_space (c : char) : bool := in_range 9 13 c || (c =? 32)%N.

Fixpoint drop_while (f : char -> bool) (s : str) : str :=
  match s with
  | c :: t => if f c then drop_while f t else s
  | [] => []
  end.

Definition c_strip (s : str) : str :=
  rev (drop_while is_c_space (rev (drop_while is_c_space s))).

Section Numbers.
Context {U : UnicodeData}.

(** Non-ASCII spaces become a space and non-ASCII decimal digits their
    ASCII digit; the text is cut after the first other non-ASCII character,
    which is replaced by a question mark. *)
Fixpoint to_ascii_decimal (s : str) : str :=
  match s with
  | [] => []
  | c :: t =>
      if (c <? 127)%N then c :: to_ascii_decimal t
      else if is_space c then 32%N :: to_ascii_decimal t
      else match decimal c with
           | Some d => (48 + d)%N :: to_ascii_decimal t
           | None => [63%N]
           end
  end.

(** [float(s)] for a [str]; [None] stands for [ValueError]. *)
Definition float_of_str (s : str) : option float :=
  match strip_underscores 0%N (to_ascii_decimal s) with
  | None => None
  | Some s1 =>
      match c_strip s1 with
      | [] => None
      | s2 => match strtod s2 with
              | Some (x, []) => Some x
              | _ => None
              end
      end
  end.

(** [int(s)] for the texts a [strptime] directive captures: decimal
    digits, possibly after white space. *)
Fixpoint int_digits (acc : N) (s : str) : option N :=
  match s with
  | [] => Some acc
  | c :: t => match decimal c with
              | Some d => int_digits (10 * acc + d)%N t
              | None => None
              end
  end.

Definition int_of_str (s : str) : option N :=
  match strip s with
  | [] => None
  | t => int_digits 0%N t
  end.

End Numbers.

(** ** [datetime]: calendar dates and [strptime(s, "%Y-%m-%d")] *)

Record date := mkdate { year : N; month : N; day : N }.

Definition is_leap (y : N) : bool :=
  ((y mod 4 =? 0) && (negb (y mod 100 =? 0) || (y mod 400 =? 0)))%N.

Definition days_in_month (y m : N) : N :=
  (if m =? 2 then if is_leap y then 29 else 28
   else if (m =? 4) || (m =? 6) || (m =? 9) || (m =? 11) then 30 else 31)%N.

(** [datetime(y, m, d)]: [None] stands for [ValueError]. *)
Definition date_new (y m d : N) : option date :=
  if ((1 <=? y) && (y <=? 9999) && (1 <=? m) && (m <=? 12)
      && (1 <=? d) && (d <=? days_in_month y m))%N
  then Some (mkdate y m d) else None.

Definition date_ltb (a b : date) : bool :=
  ((year a <? year b)
   || ((year a =? year b)
       && ((month a <? month b)
           || ((month a =? month b) && (day a <? day b)))))%N.

Section Strptime.
Context {U : UnicodeData}.

(** The patterns of the directives, as [_strptime] builds them:
    [%Y] is [\d\d\d\d], [%m] is [1[0-2]|0[1-9]|[1-9]] and
    [%d] is [3[01]|[1-2]\d|0[1-9]|[1-9]| [1-9]]. *)
Definition re_Y : regex :=
  Seq (Chr is_digit) (Seq (Chr is_digit) (Seq (Chr is_digit) (Chr is_digit))).

Definition re_m : regex :=
  Alt (Seq (Lit 49) (Chr (in_range 48 50)))
 (Alt (Seq (Lit 48) (Chr (in_range 49 57)))
      (Chr (in_range 49 57))).

Definition re_d : regex :=
  Alt (Seq (Lit 51) (Chr (in_range 48 49)))
 (Alt (Seq (Chr (in_range 49 50)) (Chr is_digit))
 (Alt (Seq (Lit 48) (Chr (in_range 49 57)))
 (Alt (Chr (in_range 49 57))
      (Seq (Lit 32) (Chr (in_range 49 57)))))).

(** The matches of [-%m-%d] from the end [p1] of the year, with the ends
    of the five parts, in backtracking order. *)
Definition tail_matches (p1 : pos) : list (nat * nat * nat * nat * nat) :=
  flat_map (fun p2 =>
  flat_map (fun p3 =>
  flat_map (fun p4 =>
  map (fun p5 => (fst p1, fst p2, fst p3, fst p4, fst p5))
      (matches re_d p4))
      (matches (Lit 45) p3))
      (matches re_m p2))
      (matches (Lit 45) p1).

(** The matches of [%Y-%m-%d] at the start of [s]. *)
Definition Ymd_matches (s : str) : list (nat * nat * nat * nat * nat) :=
  flat_map tail_matches (matches re_Y (O, s)).

(** [datetime.strptime(s, "%Y-%m-%d").date()]: the first match has to
    cover the whole text, and its fields have to form a date. *)
Definition strptime_Ymd (s : str) : option date :=
  match Ymd_matches s with
  | (e1, e2, e3, e4, e5) :: _ =>
      if Nat.eqb e5 (length s) then
        match int_of_str (slice s 0 e1), int_of_str (slice s e2 e3),
              int_of_str (slice s e4 e5) with
        | Some y, Some m, Some d => date_new y m d
        | _, _, _ => None
        end
      else None
  | [] => None
  end.

(** *** Texts [-MM-DD] of two digits each

    The value of two digits, and the check that such a text is matched
    whole exactly when its month is 1 to 12 and its day 1 to 31, which is
    decided by running the matcher on all of them. *)
Definition ascii_digits : list char :=
  [48; 49; 50; 51; 52; 53; 54; 55; 56; 57]%N.

Definition two (a b : char) : N := (10 * (a - 48) + (b - 48))%N.

Definition in_calendar_range (m1 m2 d1 d2 : char) : bool :=
  ((1 <=? two m1 m2) && (two m1 m2 <=? 12) && (1 <=? two d1 d2)
   && (two d1 d2 <=? 31))%N.

(** In range, the first match ends at the end of the text; out of range,
    there is no match or the first one stops before the end. *)
Definition tail_ok (m1 m2 d1 d2 : char) : bool :=
  match tail_matches (4, [45; m1; m2; 45; d1; d2]%N) with
  | (e1, e2, e3, e4, e5) :: _ =>
      if in_calendar_range m1 m2 d1 d2
      then Nat.eqb e1 4 && Nat.eqb e2 5 && Nat.eqb e3 7 && Nat.eqb e4 8
           && Nat.eqb e5 10
      else negb (Nat.eqb e5 10)
  | [] => negb (in_calendar_range m1 m2 d1 d2)
  end.

Definition all_tails_ok : bool :=
  forallb (fun m1 => forallb (fun m2 => forallb (fun d1 => forallb (fun d2 =>
    tail_ok m1 m2 d1 d2) ascii_digits) ascii_digits) ascii_digits)
    ascii_digits.

(** A text in the format YYYY-MM-DD, and the calendar date it denotes,
    if it denotes one. *)
Definition is_YYYY_MM_DD (v : str) : bool :=
  match v with
  | [y1; y2; y3; y4; a; m1; m2; b; d1; d2] =>
      forallb is_ascii_digit [y1; y2; y3; y4; m1; m2; d1; d2]
      && (a =? 45)%N && (b =? 45)%N
  | _ => false
  end.

Definition denoted_date (v : str) : option date :=
  match v with
  | [y1; y2; y3; y4; _; m1; m2; _; d1; d2] =>
      date_new (digits_value 0 [y1; y2; y3; y4]) (two m1 m2) (two d1 d2)
  | _ => None
  end.

End Strptime.

(** ** [list.sort(key=...)] and [min(..., key=...)]

    [list.sort] is stable and compares keys with [<] only.  For keys that
    [<] orders totally up to equivalence the result of a stable sort is
    determined; it is computed here by insertion from the right, every
    element going before the elements that are not less than it. *)
Section Sorting.
Variables (A K : Type) (ltb : K -> K -> bool) (key : A -> K).

Fixpoint insert_by (x : A) (l : list A) : list A :=
  match l with
  | [] => [x]
  | h :: t => if ltb (key h) (key x) then h :: insert_by x t else x :: l
  end.

Fixpoint sort_by (l : list A) : list A :=
  match l with
  | [] => []
  | x :: t => insert_by x (sort_by t)
  end.

(** [b] does not come before [a]. *)
Definition key_le (a b : A) : Prop := ltb (key b) (key a) = false.

(** [min] of a list with first element [x]: the first element is kept
    until one with a strictly smaller key comes. *)
Definition min_by (x : A) (t : list A) : A :=
  fold_left (fun best y => if ltb (key y) (key best) then y else best) t x.

(** [m] is the first element of [l] with the least key: the keys before
    it are strictly larger and no key after it is smaller. *)
Definition first_least (l l1 : list A) (m : A) (l2 : list A) : Prop :=
  l = l1 ++ m :: l2
  /\ (forall y, In y l1 -> ltb (key m) (key y) = true)
  /\ (forall y, In y l2 -> ltb (key y) (key m) = false).

End Sorting.

(** *** The order of the numbers that are not NaN

    [forder] sends a number to a triple whose lexicographic order is the
    order that comparison computes on canonical representations. *)
Definition forder (x : float) : Z * Z * Z :=
  match x with
  | S754_infinity true => (-2, 0, 0)
  | S754_finite true m e => (-1, - e, Z.neg m)
  | S754_zero _ => (0, 0, 0)
  | S754_nan => (0, 0, 0)
  | S754_finite false m e => (1, e, Z.pos m)
  | S754_infinity false => (2, 0, 0)
  end%Z.

Definition lex3 (a b : Z * Z * Z) : Prop :=
  let '(a1, a2, a3) := a in
  let '(b1, b2, b3) := b in
  (a1 < b1 \/ (a1 = b1 /\ (a2 < b2 \/ (a2 = b2 /\ a3 < b3))))%Z.

Definition fle (x y : float) : Prop := SFleb x y = true.

(** ** [str.format] with named fields *)

Fixpoint lookup_field (name : str) (kw : list (str * str)) : option str :=
  match kw with
  | [] => None
  | (k, v) :: t => if str_eqb k name then Some v else lookup_field name t
  end.

(** [field] is the name of the replacement field being read, if any.  A
    missing key or an unterminated field raises ([None]). *)
Fixpoint format_go (kw : list (str * str)) (field : option str) (tpl : str)
  : option str :=
  match tpl with
  | [] => match field with None => Some [] | Some _ => None end
  | c :: t =>
      match field with
      | None =>
          if (c =? 123)%N then format_go kw (Some []) t
          else option_map (cons c) (format_go kw None t)
      | Some name =>
          if (c =? 125)%N then
            match lookup_field name kw, format_go kw None t with
            | Some v, Some r => Some (v ++ r)
            | _, _ => None
            end
          else format_go kw (Some (name ++ [c])) t
      end
  end.

Definition format (tpl : str) (kw : list (str * str)) : option str :=
  format_go kw None tpl.

End Py.

(** ** The program *)

Module FlightSearch.
Import Py.

(** An exception that leaves a function. *)
Inductive field_error :=
| string_too_short
| string_too_long
| string_type
| less_than_equal
| value_error (msg : str).

Inductive exn :=
| KeyError
| AttributeError
| ValidationError (errors : list (str * field_error)).

Inductive result (A : Type) :=
| Return (a : A)
| Raise (e : exn).
Arguments Return {A} a.
Arguments Raise {A} e.

(** The outcome of a field validator: the value, or [ValueError(msg)]. *)
Inductive validated :=
| Valid (v : str)
| Invalid (msg : str).

(** class WebsiteName(str, Enum) *)
Inductive WebsiteName := SKYSCANNER | GOOGLE | BOOKING | COMPARE.

Definition WebsiteName_eqb (a b : WebsiteName) : bool :=
  match a, b with
  | SKYSCANNER, SKYSCANNER | GOOGLE, GOOGLE
  | BOOKING, BOOKING | COMPARE, COMPARE => true
  | _, _ => false
  end.

Module WebsiteConfig.
Record t := mk { domain : str; name : str; query_template : str }.
End WebsiteConfig.

Module FlightSearchParams.
Record t := mk {
  origin : str;
  destination : str;
  depart_date : str;
  website : WebsiteName
}.
End FlightSearchParams.

Module FlightResult.
Record t := mk {
  title : str;
  url : str;
  description : str;
  price : option str;
  website : str
}.
End FlightResult.

Module SearchResponse.
Record t := mk {
  website : str;
  query : str;
  results : list FlightResult.t;
  cheapest : option FlightResult.t;
  count : nat
}.
End SearchResponse.

Module ComparisonItem.
Record t := mk {
  website : str;
  cheapest_price : str;
  url : str;
  is_best : bool
}.
End ComparisonItem.

Module BestDeal.
Record t := mk { website : str; price : str; url : str; title : str }.
End BestDeal.

Module ComparisonResponse.
Record t := mk {
  mode : str;
  sites_checked : nat;
  comparison : list ComparisonItem.t;
  best_deal : BestDeal.t;
  all_results : list SearchResponse.t
}.
End ComparisonResponse.

Module ErrorResponse.
Record t := mk {
  error : str;
  suggestion : option str;
  sites_checked : option (list str)
}.
End ErrorResponse.

(** WEBSITES *)
Definition WEBSITES (w : WebsiteName) : option WebsiteConfig.t :=
  match w with
  | SKYSCANNER =>
      Some (WebsiteConfig.mk (u "skyscanner.com") (u "Skyscanner")
        (u "site:skyscanner.com direct flights {origin} to {destination} {date}"))
  | GOOGLE =>
      Some (WebsiteConfig.mk (u "google.com/travel/flights") (u "Google Flights")
        (u "site:google.com/travel/flights direct flights {origin} to {destination} {date}"))
  | BOOKING =>
      Some (WebsiteConfig.mk (u "booking.com/flights") (u "Booking.com")
        (u "site:booking.com/flights direct {origin} to {destination} {date}"))
  | COMPARE => None
  end.

(** The body of one hit of the search API, [{title, description, url}], a
    key being present or not; and the payload [{"web": {"results": [...]}}]. *)
Module Hit.
Record t := mk {
  title : option str;
  description : option str;
  url : option str
}.
End Hit.

Record web_section := { results : option (list Hit.t) }.
Record payload := { web : option web_section }.

(** What [requests.get(...)], [raise_for_status()] and [json()] come to.
    Every exception raised inside the [try] block of [search_flights]
    that is not a [requests] exception, such as the one a payload of
    another shape causes, ends in the same handler and is an
    [OtherException] here. *)
Inductive http_reply :=
| Timeout
| RequestException (msg : str)
| OtherException (msg : str)
| Json (data : payload).

(** The network answers the [n]-th request from the text of its query;
    the trace records the requests and the pauses of a run. *)
Definition network := nat -> str -> http_reply.

Inductive event :=
| Get (q : str)
| Sleep.

Definition trace := list event.

Definition requests_made (w : trace) : nat :=
  List.length (filter (fun e => match e with Get _ => true | Sleep => false end) w).

Definition get_default (o : option str) : str :=
  match o with Some s => s | None => [] end.

Section Program.
Context {U : UnicodeData}.

(** *** FlightSearchParams *)

(** [r'^[A-Z]{3}$'] *)
Definition AIRPORT_RE : regex :=
  Seq Bol (Seq (Chr is_ascii_upper) (Seq (Chr is_ascii_upper)
          (Seq (Chr is_ascii_upper) Eol))).

(** Exactly three letters A-Z; and the same before a final line feed,
    which [$] lets pass. *)
Definition three_letters (n : str) : bool :=
  match n with
  | [a; b; c] => is_ascii_upper a && is_ascii_upper b && is_ascii_upper c
  | _ => false
  end.

Definition three_letters_lf (n : str) : bool :=
  match n with
  | [a; b; c; d] => three_letters [a; b; c] && (d =? 10)%N
  | _ => false
  end.

Definition validate_airport_code (v : str) : validated :=
  let v := upper (strip v) in
  match re_match AIRPORT_RE v with
  | None =>
      Invalid (u "Invalid airport code: " ++ v
                 ++ u ". Must be 3 letters (e.g., JFK)")
  | Some _ => Valid v
  end.

(** The current day, [datetime.now().date()], is the argument [today]. *)
Definition validate_date (today : date) (v : str) : validated :=
  match strptime_Ymd v with
  | None =>
      Invalid (u "Invalid date format: " ++ v
                 ++ u ". Must be YYYY-MM-DD (e.g., 2026-05-15)")
  | Some date_obj =>
      if date_ltb date_obj today
      then Invalid (u "Date cannot be in the past: " ++ v)
      else Valid v
  end.

(** A [str] field: the length bounds of [Field(min_length, max_length)]
    belong to the validation of the type and are checked on the value
    given; the function of the [field_validator] (mode [after], the
    default) is applied to what passed them. *)
Definition str_field (min_length max_length : option nat)
    (validator : str -> validated) (v : str) : field_error + str :=
  if match min_length with
     | Some n => List.length v <? n
     | None => false
     end then inl string_too_short
  else if match max_length with
          | Some n => n <? List.length v
          | None => false
          end then inl string_too_long
  else match validator v with
       | Valid v' => inr v'
       | Invalid msg => inl (value_error msg)
       end.

Definition origin_field : str -> field_error + str :=
  str_field (Some 3) (Some 3) validate_airport_code.

Definition destination_field : str -> field_error + str :=
  str_field (Some 3) (Some 3) validate_airport_code.

Definition depart_date_field (today : date) : str -> field_error + str :=
  str_field None None (validate_date today).

Definition field_errors (name : str) (r : field_error + str)
  : list (str * field_error) :=
  match r with inl e => [(name, e)] | inr _ => [] end.

(** [FlightSearchParams(origin=..., destination=..., depart_date=...,
    website=...)]: every field is validated and the errors are raised
    together. *)
Definition new_FlightSearchParams (today : date)
    (origin destination depart_date : str) (website : WebsiteName)
  : result FlightSearchParams.t :=
  match origin_field origin, destination_field destination,
        depart_date_field today depart_date with
  | inr o, inr d, inr dd => Return (FlightSearchParams.mk o d dd website)
  | ro, rd, rdd =>
      Raise (ValidationError (field_errors (u "origin") ro
                              ++ field_errors (u "destination") rd
                              ++ field_errors (u "depart_date") rdd))
  end.

(** *** FlightResult *)

Definition validate_url (v : str) : validated :=
  if startswith v (u "http://") || startswith v (u "https://")
  then Valid v
  else Invalid (u "Invalid URL: " ++ v).

Definition new_FlightResult (title url description : str)
    (price : option str) (website : str) : result FlightResult.t :=
  match str_field None None validate_url url with
  | inr url' => Return (FlightResult.mk title url' description price website)
  | inl e => Raise (ValidationError [(u "url", e)])
  end.

(** [cheapest_price: str] and [price: str] accept no [None]. *)
Definition new_ComparisonItem (website : str) (cheapest_price : option str)
    (url : str) (is_best : bool) : result ComparisonItem.t :=
  match cheapest_price with
  | Some p => Return (ComparisonItem.mk website p url is_best)
  | None => Raise (ValidationError [(u "cheapest_price", string_type)])
  end.

Definition new_BestDeal (website : str) (price : option str)
    (url title : str) : result BestDeal.t :=
  match price with
  | Some p => Return (BestDeal.mk website p url title)
  | None => Raise (ValidationError [(u "price", string_type)])
  end.

(** [sites_checked: int = Field(..., ge=0, le=3)] *)
Definition new_ComparisonResponse (sites_checked : nat)
    (comparison : list ComparisonItem.t) (best_deal : BestDeal.t)
    (all_results : list SearchResponse.t) : result ComparisonResponse.t :=
  if 3 <? sites_checked
  then Raise (ValidationError [(u "sites_checked", less_than_equal)])
  else Return (ComparisonResponse.mk (u "comparison") sites_checked
                 comparison best_deal all_results).

(** *** FlightSearcher *)

Definition is_dollar (c : char) : bool := (c =? 36)%N.
Definition is_pound (c : char) : bool := (c =? 163)%N.
Definition is_euro (c : char) : bool := (c =? 8364)%N.
Definition is_comma (c : char) : bool := (c =? 44)%N.
Definition is_dot (c : char) : bool := (c =? 46)%N.

(** [sym[\d,]+(?:\.\d{2})?] *)
Definition price_pattern (sym : char -> bool) : regex :=
  Seq (Chr sym)
 (Seq (Plus (Chr (fun c => is_digit c || is_comma c)))
      (Opt (Seq (Chr is_dot) (Seq (Chr is_digit) (Chr is_digit))))).

(** The characters of the three patterns. *)
Definition price_char (c : char) : bool :=
  is_dollar c || is_pound c || is_euro c || is_digit c || is_comma c
  || is_dot c.

Definition patterns : list regex :=
  [price_pattern is_dollar; price_pattern is_pound; price_pattern is_euro].

Fixpoint first_search (ps : list regex) (text : str) : option str :=
  match ps with
  | [] => None
  | pattern :: rest =>
      match re_search pattern text with
      | Some m => Some m
      | None => first_search rest text
      end
  end.

Definition _extract_price (text : str) : option str :=
  first_search patterns text.

(** [[$£€,]] *)
Definition symbols : regex :=
  Chr (fun c => is_dollar c || is_pound c || is_euro c || is_comma c).

Definition _parse_price (price_str : option str) : float :=
  match price_str with
  | None => inf
  | Some s =>
      if negb (truthy s) then inf
      else
        let clean := re_sub symbols [] s in
        match float_of_str clean with
        | Some x => x
        | None => inf
        end
  end.

Definition truncate (description : str) : str :=
  if 200 <? List.length description
  then firstn 200 description ++ u "..."
  else description.

(** The loop of [_parse_results] over the hits, [results] being the list
    built so far. *)
Fixpoint parse_items (site_config : WebsiteConfig.t) (items : list Hit.t)
    (results : list FlightResult.t) : list FlightResult.t :=
  match items with
  | [] => results
  | item :: rest =>
      let title := get_default (Hit.title item) in
      let description := get_default (Hit.description item) in
      let url := get_default (Hit.url item) in
      if negb (truthy url) then parse_items site_config rest results
      else
        let price := _extract_price (title ++ u " " ++ description) in
        let domain_match :=
          contains (lower url) (WebsiteConfig.domain site_config) in
        if domain_match then
          let truncated_desc := truncate description in
          match new_FlightResult title url truncated_desc price
                  (WebsiteConfig.name site_config) with
          | Return r => parse_items site_config rest (results ++ [r])
          | Raise _ => parse_items site_config rest results
          end
        else parse_items site_config rest results
  end.

(** What one hit contributes. *)
Definition parse_item (site_config : WebsiteConfig.t) (item : Hit.t)
  : list FlightResult.t :=
  parse_items site_config [item] [].

Definition items_of (data : payload) : list Hit.t :=
  match web data with
  | Some w => match results w with Some l => l | None => [] end
  | None => []
  end.

Definition _parse_results (data : payload) (site_config : WebsiteConfig.t)
  : list FlightResult.t :=
  parse_items site_config (items_of data) [].

Definition price_key (r : FlightResult.t) : float :=
  _parse_price (FlightResult.price r).

(** [r.price] as a condition. *)
Definition has_price (r : FlightResult.t) : bool :=
  truthy_opt (FlightResult.price r).

Definition results_with_price (results : list FlightResult.t) :=
  sort_by flt price_key (filter has_price results).

Definition results_without_price (results : list FlightResult.t) :=
  filter (fun r => negb (has_price r)) results.

Definition final_results (results : list FlightResult.t) :=
  firstn 10 (results_with_price results ++ results_without_price results).

Definition cheapest_of (results : list FlightResult.t) : option FlightResult.t :=
  match results_with_price results with
  | r :: _ => Some r
  | [] => None
  end.

Definition timeout_seconds : str := u "30".

Definition search_flights (net : network) (params : FlightSearchParams.t)
    (w : trace) : result (SearchResponse.t + ErrorResponse.t) * trace :=
  if WebsiteName_eqb (FlightSearchParams.website params) COMPARE then
    (Return (inr (ErrorResponse.mk
       (u "Use search_all_sites() for comparison mode")
       (Some (u "Call search_all_sites() instead of search_flights()"))
       None)), w)
  else
    match WEBSITES (FlightSearchParams.website params) with
    | None => (Raise KeyError, w)
    | Some site_config =>
        match format (WebsiteConfig.query_template site_config)
                [(u "origin", FlightSearchParams.origin params);
                 (u "destination", FlightSearchParams.destination params);
                 (u "date", FlightSearchParams.depart_date params)] with
        | None => (Raise KeyError, w)
        | Some query =>
            let w' := w ++ [Get query] in
            match net (requests_made w) query with
            | Json data =>
                let results := _parse_results data site_config in
                (Return (inl (SearchResponse.mk
                   (WebsiteConfig.name site_config) query
                   (final_results results) (cheapest_of results)
                   (List.length (final_results results)))), w')
            | Timeout =>
                (Return (inr (ErrorResponse.mk
                   (u "Search request timed out after " ++ timeout_seconds
                      ++ u " seconds")
                   (Some (u "Try again or check your internet connection"))
                   None)), w')
            | RequestException e =>
                (Return (inr (ErrorResponse.mk
                   (u "Network error: " ++ e)
                   (Some (u "Check your internet connection and API key"))
                   None)), w')
            | OtherException e =>
                (Return (inr (ErrorResponse.mk
                   (u "Unexpected error: " ++ e)
                   (Some (u "Contact support if this persists"))
                   None)), w')
            end
        end
    end.

Definition sites_to_check : list WebsiteName := [SKYSCANNER; GOOGLE; BOOKING].

(** The first loop of [search_all_sites], at index [i] of the sites. *)
Fixpoint search_sites (net : network) (today : date)
    (params : FlightSearchParams.t) (i : nat) (sites : list WebsiteName)
    (all_results : list SearchResponse.t) (w : trace)
  : result (list SearchResponse.t) * trace :=
  match sites with
  | [] => (Return all_results, w)
  | site :: rest =>
      let w1 := if 0 <? i then w ++ [Sleep] else w in
      match new_FlightSearchParams today
              (FlightSearchParams.origin params)
              (FlightSearchParams.destination params)
              (FlightSearchParams.depart_date params) site with
      | Raise e => (Raise e, w1)
      | Return search_params =>
          match search_flights net search_params w1 with
          | (Raise e, w2) => (Raise e, w2)
          | (Return (inl result), w2) =>
              match SearchResponse.cheapest result with
              | Some _ =>
                  search_sites net today params (S i) rest
                    (all_results ++ [result]) w2
              | None => search_sites net today params (S i) rest all_results w2
              end
          | (Return (inr _), w2) =>
              search_sites net today params (S i) rest all_results w2
          end
      end
  end.

(** [x.cheapest.price] *)
Definition cheapest_price_of (x : SearchResponse.t) : option str :=
  match SearchResponse.cheapest x with
  | Some c => FlightResult.price c
  | None => None
  end.

Definition cheapest_key (x : SearchResponse.t) : float :=
  _parse_price (cheapest_price_of x).

Definition has_cheapest (x : SearchResponse.t) : bool :=
  match SearchResponse.cheapest x with Some _ => true | None => false end.

(** The second loop: one row for every result with a cheapest entry. *)
Fixpoint comparison_rows (best_deal : SearchResponse.t)
    (all_results : list SearchResponse.t)
    (comparison_summary : list ComparisonItem.t)
  : result (list ComparisonItem.t) :=
  match all_results with
  | [] => Return comparison_summary
  | result :: rest =>
      match SearchResponse.cheapest result with
      | Some c =>
          match new_ComparisonItem (SearchResponse.website result)
                  (FlightResult.price c) (FlightResult.url c)
                  (str_eqb (SearchResponse.website result)
                           (SearchResponse.website best_deal)) with
          | Return item =>
              comparison_rows best_deal rest (comparison_summary ++ [item])
          | Raise e => Raise e
          end
      | None => comparison_rows best_deal rest comparison_summary
      end
  end.

Definition item_key (x : ComparisonItem.t) : float :=
  _parse_price (Some (ComparisonItem.cheapest_price x)).

(** [search_all_sites] from the list [all_results] on.  The key of [min]
    reads [x.cheapest.price] of every element, which raises on an element
    without a cheapest entry. *)
Definition compare_results (all_results : list SearchResponse.t)
  : result (ComparisonResponse.t + ErrorResponse.t) :=
  match all_results with
  | [] =>
      Return (inr (ErrorResponse.mk
        (u "No results found on any of the three sites")
        (Some (u "Try different dates or check the sites directly"))
        (Some [u "Skyscanner"; u "Google Flights"; u "Booking.com"])))
  | first :: others =>
      if negb (forallb has_cheapest all_results) then Raise AttributeError
      else
        let best_deal := min_by flt cheapest_key first others in
        match comparison_rows best_deal all_results [] with
        | Raise e => Raise e
        | Return comparison_summary =>
            let comparison := sort_by flt item_key comparison_summary in
            match SearchResponse.cheapest best_deal with
            | None => Raise AttributeError
            | Some c =>
                match new_BestDeal (SearchResponse.website best_deal)
                        (FlightResult.price c) (FlightResult.url c)
                        (FlightResult.title c) with
                | Raise e => Raise e
                | Return bd =>
                    match new_ComparisonResponse (List.length all_results)
                            comparison bd all_results with
                    | Raise e => Raise e
                    | Return r => Return (inl r)
                    end
                end
            end
        end
  end.

Definition search_all_sites (net : network) (today : date)
    (params : FlightSearchParams.t) (w : trace)
  : result (ComparisonResponse.t + ErrorResponse.t) * trace :=
  match search_sites net today params 0 sites_to_check [] w with
  | (Raise e, w') => (Raise e, w')
  | (Return all_results, w') => (compare_results all_results, w')
  end.

(** *** Notions for stating what a comparison does *)

(** Parameters that the constructor accepts as they are, which holds of
    every value it has returned. *)
Definition params_valid (today : date) (p : FlightSearchParams.t) : Prop :=
  new_FlightSearchParams today (FlightSearchParams.origin p)
    (FlightSearchParams.destination p) (FlightSearchParams.depart_date p)
    (FlightSearchParams.website p) = Return p.

(** The query of a site, as its template renders it. *)
Definition query_text (site : WebsiteName) (origin destination date : str)
  : str :=
  match site with
  | SKYSCANNER =>
      u "site:skyscanner.com direct flights " ++ origin ++ u " to "
        ++ destination ++ u " " ++ date
  | GOOGLE =>
      u "site:google.com/travel/flights direct flights " ++ origin
        ++ u " to " ++ destination ++ u " " ++ date
  | BOOKING =>
      u "site:booking.com/flights direct " ++ origin ++ u " to "
        ++ destination ++ u " " ++ date
  | COMPARE => []
  end.

(** The searches of the sites one after the other, each with the fields
    of [params] and its own site, without the bookkeeping of
    [search_all_sites]: what every search returned, and the trace. *)
Fixpoint site_outcomes (net : network) (params : FlightSearchParams.t)
    (i : nat) (sites : list WebsiteName) (w : trace)
  : list (SearchResponse.t + ErrorResponse.t) * trace :=
  match sites with
  | [] => ([], w)
  | site :: rest =>
      let w1 := if 0 <? i then w ++ [Sleep] else w in
      match search_flights net
              (FlightSearchParams.mk (FlightSearchParams.origin params)
                 (FlightSearchParams.destination params)
                 (FlightSearchParams.depart_date params) site) w1 with
      | (Return out, w2) =>
          let (outs, w3) := site_outcomes net params (S i) rest w2 in
          (out :: outs, w3)
      | (Raise _, w2) => ([], w2)
      end
  end.

(** A priced outcome: a response with a cheapest result. *)
Definition priced (out : SearchResponse.t + ErrorResponse.t)
  : list SearchResponse.t :=
  match out with
  | inl r => if has_cheapest r then [r] else []
  | inr _ => []
  end.

Definition retain (outs : list (SearchResponse.t + ErrorResponse.t))
  : list SearchResponse.t :=
  flat_map priced outs.

(** [r] is the response of a search of [site] that found a price. *)
Definition outcome_of (site : WebsiteName) (r : SearchResponse.t) : Prop :=
  exists site_config query data,
    WEBSITES site = Some site_config
    /\ SearchResponse.cheapest r
       = cheapest_of (_parse_results data site_config)
    /\ SearchResponse.website r = WebsiteConfig.name site_config
    /\ SearchResponse.query r = query
    /\ has_cheapest r = true.

(** [kept] holds outcomes of some of the [sites], in their order. *)
Inductive kept_from : list WebsiteName -> list SearchResponse.t -> Prop :=
| kept_nil : kept_from [] []
| kept_skip site sites kept :
    kept_from sites kept -> kept_from (site :: sites) kept
| kept_keep site sites r kept :
    outcome_of site r -> kept_from sites kept ->
    kept_from (site :: sites) (r :: kept).

(** [row] is the comparison row of the outcome [x] when [best] is the
    best deal. *)
Definition is_row_of (best x : SearchResponse.t) (row : ComparisonItem.t)
  : Prop :=
  exists c p,
    SearchResponse.cheapest x = Some c
    /\ FlightResult.price c = Some p
    /\ row = ComparisonItem.mk (SearchResponse.website x) p
               (FlightResult.url c)
               (str_eqb (SearchResponse.website x)
                        (SearchResponse.website best)).

(** An outcome with a cheapest result whose price is a text that does
    not parse to NaN. *)
Definition good_outcome (x : SearchResponse.t) : Prop :=
  exists c p,
    SearchResponse.cheapest x = Some c
    /\ FlightResult.price c = Some p
    /\ is_nan (cheapest_key x) = false.

(** The failure of a comparison that found no price. *)
Definition no_results : ErrorResponse.t :=
  ErrorResponse.mk (u "No results found on any of the three sites")
    (Some (u "Try different dates or check the sites directly"))
    (Some [u "Skyscanner"; u "Google Flights"; u "Booking.com"]).

(** *** Notions for stating what extraction does *)

Definition is_currency (c : char) : bool :=
  is_dollar c || is_pound c || is_euro c.

(** A character of an amount before the point. *)
Definition amount_char (c : char) : bool := is_digit c || is_comma c.

(** A point and two digits at the head of [rest], or nothing. *)
Definition fraction_at (rest : str) : str :=
  match rest with
  | c :: d1 :: d2 :: _ =>
      if is_dot c && is_digit d1 && is_digit d2 then [c; d1; d2] else []
  | _ => []
  end.

(** The price at the head of [text] for the symbols [sym]: the symbol, the
    longest run of digits and commas after it, which is not empty, and the
    point with two digits that follows the run, if any. *)
Definition price_at (sym : char -> bool) (text : str) : option str :=
  match text with
  | c :: t =>
      if sym c then
        match span amount_char t with
        | ([], _) => None
        | (body, rest) => Some (c :: body ++ fraction_at rest)
        end
      else None
  | [] => None
  end.

(** The leftmost price for the symbols [sym] in [text]. *)
Fixpoint leftmost_price (sym : char -> bool) (text : str) : option str :=
  match price_at sym text with
  | Some p => Some p
  | None =>
      match text with
      | [] => None
      | _ :: t => leftmost_price sym t
      end
  end.

(** The leftmost dollar price; without one the leftmost pound price;
    without one the leftmost euro price. *)
Definition scan_price (text : str) : option str :=
  match leftmost_price is_dollar text with
  | Some p => Some p
  | None =>
      match leftmost_price is_pound text with
      | Some p => Some p
      | None => leftmost_price is_euro text
      end
  end.

(** A symbol of [sym] directly followed by a digit or a comma occurs in
    [text]. *)
Definition price_begins (sym : char -> bool) (text : str) : Prop :=
  exists pre c d post,
    text = pre ++ c :: d :: post /\ sym c = true /\ amount_char d = true.

(** A letter of the ASCII alphabet, and its capital. *)
Definition is_ascii_letter (c : char) : bool :=
  is_ascii_upper c || is_ascii_lower c.

Definition to_ascii_upper (c : char) : char :=
  if is_ascii_lower c then (c - 32)%N else c.

(** The number zero, below which no extracted price lies. *)
Definition zero : float := S754_zero false.

End Program.

End FlightSearch.

(** ** The command line

    [main] reads [sys.argv] and the environment variable [BRAVE_API_KEY],
    prints one JSON document and ends with an exit status.  What is
    printed is kept as the value given to [json.dumps]; the current day is
    the same from the validation of the arguments to the end of the
    search. *)

Module Cli.
Import Py FlightSearch.

(** [w.value], the members in the order of their definition, and
    [WebsiteName(s)], where [None] stands for [ValueError]. *)
Definition value (w : WebsiteName) : str :=
  match w with
  | SKYSCANNER => u "skyscanner"
  | GOOGLE => u "google"
  | BOOKING => u "booking"
  | COMPARE => u "compare"
  end.

Definition members : list WebsiteName := [SKYSCANNER; GOOGLE; BOOKING; COMPARE].

Definition WebsiteName_of (s : str) : option WebsiteName :=
  find (fun w => str_eqb (value w) s) members.

(** [sep.join(l)] *)
Fixpoint join (sep : str) (l : list str) : str :=
  match l with
  | [] => []
  | [a] => a
  | a :: t => a ++ sep ++ join sep t
  end.

(** The values that [model_dump] gives and [json.dumps] takes. *)
Unset Elimination Schemes.
Inductive json :=
| JNull
| JBool (b : bool)
| JInt (n : nat)
| JStr (s : str)
| JList (l : list json)
| JDict (fields : list (str * json)).
Set Elimination Schemes.

Definition optional (A : Type) (f : A -> json) (o : option A) : json :=
  match o with Some a => f a | None => JNull end.

Definition dump_FlightResult (r : FlightResult.t) : json :=
  JDict [(u "title", JStr (FlightResult.title r));
         (u "url", JStr (FlightResult.url r));
         (u "description", JStr (FlightResult.description r));
         (u "price", optional JStr (FlightResult.price r));
         (u "website", JStr (FlightResult.website r))].

Definition dump_SearchResponse (r : SearchResponse.t) : json :=
  JDict [(u "website", JStr (SearchResponse.website r));
         (u "query", JStr (SearchResponse.query r));
         (u "results", JList (map dump_FlightResult (SearchResponse.results r)));
         (u "cheapest", optional dump_FlightResult (SearchResponse.cheapest r));
         (u "count", JInt (SearchResponse.count r))].

Definition dump_ComparisonItem (x : ComparisonItem.t) : json :=
  JDict [(u "website", JStr (ComparisonItem.website x));
         (u "cheapest_price", JStr (ComparisonItem.cheapest_price x));
         (u "url", JStr (ComparisonItem.url x));
         (u "is_best", JBool (ComparisonItem.is_best x))].

Definition dump_BestDeal (b : BestDeal.t) : json :=
  JDict [(u "website", JStr (BestDeal.website b));
         (u "price", JStr (BestDeal.price b));
         (u "url", JStr (BestDeal.url b));
         (u "title", JStr (BestDeal.title b))].

Definition dump_ComparisonResponse (r : ComparisonResponse.t) : json :=
  JDict [(u "mode", JStr (ComparisonResponse.mode r));
         (u "sites_checked", JInt (ComparisonResponse.sites_checked r));
         (u "comparison",
          JList (map dump_ComparisonItem (ComparisonResponse.comparison r)));
         (u "best_deal", dump_BestDeal (ComparisonResponse.best_deal r));
         (u "all_results",
          JList (map dump_SearchResponse (ComparisonResponse.all_results r)))].

Definition dump_ErrorResponse (e : ErrorResponse.t) : json :=
  JDict [(u "error", JStr (ErrorResponse.error e));
         (u "suggestion", optional JStr (ErrorResponse.suggestion e));
         (u "sites_checked",
          optional (fun l => JList (map JStr l)) (ErrorResponse.sites_checked e))].

Definition usage : json :=
  JDict [(u "error", JStr (u "Invalid usage"));
         (u "usage",
          JStr (u "python flight_search.py <origin> <destination> <date> [website]"));
         (u "examples",
          JList [JStr (u "python flight_search.py JFK LHR 2026-05-15 skyscanner");
                 JStr (u "python flight_search.py LAX NRT 2026-06-01 google");
                 JStr (u "python flight_search.py BOS CDG 2026-07-10 booking");
                 JStr (u "python flight_search.py JFK LHR 2026-05-15 compare")]);
         (u "websites",
          JDict [(u "skyscanner", JStr (u "Default - best price comparison"));
                 (u "google", JStr (u "Google Flights - good for direct flights"));
                 (u "booking", JStr (u "Booking.com - alternative pricing"));
                 (u "compare", JStr (u "Check all three sites and compare"))])].

(** The keys of a document, and whether [name] is one of them. *)
Definition has_key (name : str) (doc : json) : bool :=
  match doc with
  | JDict fields => existsb (fun kv => str_eqb (fst kv) name) fields
  | _ => false
  end.

(** *** FlightSearcher.__init__ *)

Module FlightSearcher.
Record t := mk { api_key : str; base_url : str; timeout : nat }.
End FlightSearcher.

Definition key_missing : str :=
  u "BRAVE_API_KEY must be set in environment or passed as argument".

(** [env] is [os.environ.get('BRAVE_API_KEY')]; the right injection
    stands for [ValueError] with its message. *)
Definition new_FlightSearcher (api_key env : option str)
  : FlightSearcher.t + str :=
  let key := if truthy_opt api_key then api_key else env in
  if truthy_opt key then
    inl (FlightSearcher.mk (get_default key)
           (u "https://api.search.brave.com/res/v1/web/search") 30)
  else inr key_missing.

(** *** main *)

(** A run of the program: the documents printed on the standard output,
    the exit status, and the requests and pauses made. *)
Record run := { stdout : list json; exit_code : nat; requests : trace }.

(** [print(json.dumps(error.model_dump(), indent=2)); sys.exit(1)] for
    [ErrorResponse(error=..., suggestion=...)]. *)
Definition failed (error suggestion : str) (w : trace) : run :=
  {| stdout := [dump_ErrorResponse
                  (ErrorResponse.mk error (Some suggestion) None)];
     exit_code := 1;
     requests := w |}.

(** pydantic's [ValidationError] is a [ValueError]; [KeyError] and
    [AttributeError] are not. *)
Definition is_ValueError (e : exn) : bool :=
  match e with
  | ValidationError _ => true
  | KeyError | AttributeError => false
  end.

Section Main.
Context {U : UnicodeData}.

(** [str(e)] of an exception. *)
Variable exn_text : exn -> str.

(** [argv] is [sys.argv], the name of the program first. *)
Definition main (argv : list str) (env : option str) (net : network)
    (today : date) : run :=
  match argv with
  | _ :: origin :: destination :: depart_date :: rest =>
      let website_str :=
        match rest with
        | a :: _ => lower a
        | [] => u "skyscanner"
        end in
      match WebsiteName_of website_str with
      | None =>
          failed (u "Invalid website: " ++ website_str)
            (u "Use one of: " ++ join (u ", ") (map value members)) []
      | Some website =>
          match new_FlightSearchParams today origin destination depart_date
                  website with
          | Raise e =>
              failed (u "Invalid parameters: " ++ exn_text e)
                (u "Check your airport codes (3 letters) and date format (YYYY-MM-DD)")
                []
          | Return params =>
              match new_FlightSearcher None env with
              | inr msg =>
                  failed msg
                    (u "Make sure BRAVE_API_KEY environment variable is set") []
              | inl searcher =>
                  let (result, w) :=
                    if WebsiteName_eqb website COMPARE then
                      match search_all_sites net today params [] with
                      | (Return (inl r), w) =>
                          (Return (dump_ComparisonResponse r), w)
                      | (Return (inr e), w) => (Return (dump_ErrorResponse e), w)
                      | (Raise e, w) => (Raise e, w)
                      end
                    else
                      match search_flights net params [] with
                      | (Return (inl r), w) => (Return (dump_SearchResponse r), w)
                      | (Return (inr e), w) => (Return (dump_ErrorResponse e), w)
                      | (Raise e, w) => (Raise e, w)
                      end in
                  match result with
                  | Return doc =>
                      {| stdout := [doc]; exit_code := 0; requests := w |}
                  | Raise e =>
                      if is_ValueError e then
                        failed (exn_text e)
                          (u "Make sure BRAVE_API_KEY environment variable is set")
                          w
                      else
                        failed (u "Unexpected error: " ++ exn_text e)
                          (u "Contact support if this persists") w
                  end
              end
          end
      end
  | _ => {| stdout := [usage]; exit_code := 1; requests := [] |}
  end.

End Main.

End Cli.

(** ** A run on fixed data

    Three sites answer a comparison for JFK to LHR: Skyscanner with three
    hits in its domain (and two that are not kept), Google Flights with
    one hit, and Booking.com with a timeout.  The character data is the
    ASCII one. *)

Module Demo.
Import Py FlightSearch.

Definition hit (title description url : str) : Hit.t :=
  Hit.mk (Some title) (Some description) (Some url).

Definition skyscanner_hits : list Hit.t :=
  [hit (u "JFK to LHR") (u "from $300 one way")
       (u "https://www.skyscanner.com/a");
   hit (u "Elsewhere") (u "$100") (u "https://example.org/");
   hit (u "No scheme") (u "$150") (u "ftp://skyscanner.com/z");
   hit (u "Premium") (u "$1,200.50 return")
       (u "https://www.SKYSCANNER.com/b");
   hit (u "Flights") (u "no price here") (u "https://www.skyscanner.com/c")].

Definition google_hits : list Hit.t :=
  [hit (u "Google Flights") (u "JFK-LHR $250")
       (u "https://www.google.com/travel/flights?q=jfk")].

Definition demo_net : network :=
  fun n _ =>
    match n with
    | 0 => Json {| web := Some {| results := Some skyscanner_hits |} |}
    | 1 => Json {| web := Some {| results := Some google_hits |} |}
    | _ => Timeout
    end.

Definition demo_today : date := mkdate 2026 11 3.

Definition demo_params (site : WebsiteName) : FlightSearchParams.t :=
  FlightSearchParams.mk (u "JFK") (u "LHR") (u "2026-12-01") site.

Definition demo_search
  : result (SearchResponse.t + ErrorResponse.t) * trace :=
  search_flights (U := ascii_data) demo_net (demo_params SKYSCANNER) [].

Definition demo_comparison
  : result (ComparisonResponse.t + ErrorResponse.t) * trace :=
  search_all_sites (U := ascii_data) demo_net demo_today
    (demo_params COMPARE) [].

(** The command line [flight_search.py jfk lhr 2026-12-01 <website>], the
    text of an exception being left out. *)
Definition demo_argv (website : str) : list str :=
  [u "flight_search.py"; u "jfk"; u "lhr"; u "2026-12-01"; website].

Definition demo_exn_text (e : exn) : str := [].

Definition demo_main (website : str) (env : option str) : Cli.run :=
  Cli.main (U := ascii_data) demo_exn_text (demo_argv website) env demo_net
    demo_today.

End Demo.

(** * Properties of the run-time layer *)

Module PyFacts.
Import Py.

Lemma str_eqb_eq (a b : str) : str_eqb a b = true <-> a = b.
Proof.
  revert b. induction a as [ | c a IH]; intros [ | d b]; simpl;
    try (split; [discriminate | discriminate]); [tauto | ].
  rewrite andb_true_iff, N.eqb_eq, IH. split.
  - intros [-> ->]. reflexivity.
  - intros H. injection H as -> ->. auto.
Qed.

Lemma str_eqb_refl (a : str) : str_eqb a a = true.
Proof. now apply str_eqb_eq. Qed.

(** ** Comparison of numbers *)

Lemma SFcompare_forder (a b : float) :
  is_nan a = false -> is_nan b = false ->
  match SFcompare a b with
  | Some Lt => lex3 (forder a) (forder b)
  | Some Eq => forder a = forder b
  | Some Gt => lex3 (forder b) (forder a)
  | None => False
  end.
Proof.
  intros Ha Hb.
  destruct a as [sa | sa | | sa ma ea]; try discriminate;
  destruct b as [sb | sb | | sb mb eb]; try discriminate;
  try destruct sa; try destruct sb; simpl; try lia; try reflexivity;
  change (Pos.compare_cont Eq ma mb) with (ma ?= mb)%positive;
  destruct (Z.compare_spec ea eb); try lia;
  destruct (Pos.compare_spec ma mb); simpl; subst; try lia; reflexivity.
Qed.

Lemma flt_lex (a b : float) :
  is_nan a = false -> is_nan b = false ->
  (flt a b = true <-> lex3 (forder a) (forder b)).
Proof.
  intros Ha Hb. generalize (SFcompare_forder a b Ha Hb).
  unfold flt, SFltb. destruct (forder a) as [[a1 a2] a3].
  destruct (forder b) as [[b1 b2] b3]. simpl.
  destruct (SFcompare a b) as [[ | | ] | ]; intros H; split; intros H';
    try discriminate; try reflexivity; try assumption;
    try (inversion H; lia); try lia.
Qed.

Lemma fle_lex (a b : float) :
  is_nan a = false -> is_nan b = false ->
  (fle a b <-> ~ lex3 (forder b) (forder a)).
Proof.
  intros Ha Hb. generalize (SFcompare_forder a b Ha Hb).
  unfold fle, SFleb. destruct (forder a) as [[a1 a2] a3].
  destruct (forder b) as [[b1 b2] b3]. simpl.
  destruct (SFcompare a b) as [[ | | ] | ]; intros H; split; intros H';
    try discriminate; try reflexivity; try (inversion H; lia); try lia.
Qed.

Lemma flt_nan_l (b : float) : flt nan b = false.
Proof. reflexivity. Qed.

Lemma flt_nan_r (a : float) : flt a nan = false.
Proof. now destruct a. Qed.

Lemma flt_asym (a b : float) : flt a b = true -> flt b a = false.
Proof.
  intros H.
  destruct (is_nan a) eqn:Ha; [destruct a; discriminate | ].
  destruct (is_nan b) eqn:Hb; [destruct b; try discriminate; now rewrite flt_nan_r in H | ].
  apply (flt_lex a b Ha Hb) in H.
  destruct (flt b a) eqn:E; [ | reflexivity].
  apply (flt_lex b a Hb Ha) in E.
  destruct (forder a) as [[a1 a2] a3], (forder b) as [[b1 b2] b3].
  simpl in *. lia.
Qed.

Lemma flt_negtrans (a b c : float) :
  is_nan b = false -> flt a c = true -> flt a b = true \/ flt b c = true.
Proof.
  intros Hb H.
  destruct (is_nan a) eqn:Ha; [destruct a; discriminate | ].
  destruct (is_nan c) eqn:Hc; [destruct c; try discriminate; now rewrite flt_nan_r in H | ].
  apply (flt_lex a c Ha Hc) in H.
  rewrite (flt_lex a b Ha Hb), (flt_lex b c Hb Hc).
  destruct (forder a) as [[a1 a2] a3], (forder b) as [[b1 b2] b3],
           (forder c) as [[c1 c2] c3].
  simpl in *. lia.
Qed.

Lemma fle_flt (a b : float) :
  is_nan a = false -> is_nan b = false -> (fle a b <-> flt b a = false).
Proof.
  intros Ha Hb. rewrite (fle_lex a b Ha Hb).
  destruct (flt b a) eqn:E.
  - apply (flt_lex b a Hb Ha) in E. split; [tauto | discriminate].
  - split; [reflexivity | ]. intros _ H.
    apply (flt_lex b a Hb Ha) in H. congruence.
Qed.


Lemma fle_inf (x : float) : is_nan x = false -> fle x inf.
Proof. destruct x as [ | [ | ] | | ]; try discriminate; reflexivity. Qed.

(** ** Matches consume characters the pattern accepts *)

Lemma consumed_refl (r : regex) (p : pos) : consumed r p p.
Proof. exists []. simpl. repeat split; [lia | constructor]. Qed.

Lemma consumed_trans (r : regex) (p q t : pos) :
  consumed r p q -> consumed r q t -> consumed r p t.
Proof.
  intros (w1 & E1 & L1 & F1) (w2 & E2 & L2 & F2).
  exists (w1 ++ w2). rewrite E1, E2, L2, L1, length_app, app_assoc.
  repeat split; [lia | ]. apply Forall_app. now split.
Qed.

Lemma consumed_weaken (r r' : regex) (p q : pos) :
  (forall c, accepts r c = true -> accepts r' c = true) ->
  consumed r p q -> consumed r' p q.
Proof.
  intros H (w & E & L & F). exists w. repeat split; auto.
  eapply Forall_impl; [ | exact F]. exact H.
Qed.

Lemma star_aux_consumed (a : regex) (step : pos -> list pos) :
  (forall p q, In q (step p) -> consumed a p q) ->
  forall fuel p q, In q (star_aux step fuel p) -> consumed a p q.
Proof.
  intros Hstep. induction fuel as [ | n IH]; intros p q; simpl.
  - intros [<- | []]. apply consumed_refl.
  - intros H. apply in_app_or in H. destruct H as [H | [<- | []]];
      [ | apply consumed_refl].
    apply in_flat_map in H. destruct H as (m & Hm & Hq).
    destruct (length (snd m) <? length (snd p)); [ | destruct Hq].
    apply consumed_trans with m; auto.
Qed.

Lemma matches_consumed (r : regex) :
  forall p q, In q (matches r p) -> consumed r p q.
Proof.
  induction r as [ | f | a IHa b IHb | a IHa b IHb | a IHa | | ];
    intros p q; simpl.
  - intros [<- | []]. apply consumed_refl.
  - destruct p as [i [ | c t]]; [intros [] | ].
    destruct (f c) eqn:E; [ | intros []]. intros [<- | []].
    exists [c]. simpl. repeat split; [lia | ].
    constructor; [exact E | constructor].
  - intros H. apply in_flat_map in H. destruct H as (m & Hm & Hq).
    apply consumed_trans with m.
    + apply consumed_weaken with a; [ | now apply IHa].
      intros c Hc. simpl. now rewrite Hc.
    + apply consumed_weaken with b; [ | now apply IHb].
      intros c Hc. simpl. rewrite Hc. apply orb_true_r.
  - intros H. apply in_app_or in H. destruct H as [H | H].
    + apply consumed_weaken with a; [ | now apply IHa].
      intros c Hc. simpl. now rewrite Hc.
    + apply consumed_weaken with b; [ | now apply IHb].
      intros c Hc. simpl. rewrite Hc. apply orb_true_r.
  - intros H. apply consumed_weaken with a; [auto | ].
    eapply star_aux_consumed; [exact IHa | exact H].
  - destruct p as [[ | i] s]; [ | intros []].
    intros [<- | []]. apply consumed_refl.
  - destruct p as [i s]. simpl.
    destruct s as [ | c [ | d t]].
    + intros [<- | []]. apply consumed_refl.
    + destruct (c =? 10)%N; [ | intros []].
      intros [<- | []]. apply consumed_refl.
    + intros [].
Qed.

Lemma search_from_accepts (r : regex) :
  forall s i a b, search_from r i s = Some (a, b) ->
  exists pre w post, s = pre ++ w ++ post /\ a = i + length pre
                     /\ b = a + length w
                     /\ Forall (fun c => accepts r c = true) w.
Proof.
  induction s as [ | c t IH]; intros i a b; simpl.
  - destruct (matches r _) as [ | [j s'] l] eqn:E;
      [intros H; discriminate H | ].
    intros H. injection H as <- <-.
    match type of E with ?m = _ =>
      assert (Hin : In (j, s') m) by (rewrite E; now left) end.
    destruct (matches_consumed r _ _ Hin) as (w & E1 & L1 & F1).
    simpl in *. exists [], w, s'. simpl. repeat split; auto; lia.
  - destruct (matches r _) as [ | [j s'] l] eqn:E.
    + intros H. destruct (IH _ _ _ H) as (pre & w & post & E1 & La & Lb & F).
      exists (c :: pre), w, post. simpl. rewrite E1.
      repeat split; auto; lia.
    + intros H. injection H as <- <-.
      match type of E with ?m = _ =>
        assert (Hin : In (j, s') m) by (rewrite E; now left) end.
      destruct (matches_consumed r _ _ Hin) as (w & E1 & L1 & F1).
      simpl in *. exists [], w, s'. simpl. repeat split; auto; lia.
Qed.

Lemma slice_app (pre w post : str) :
  slice (pre ++ w ++ post) (length pre) (length pre + length w) = w.
Proof.
  unfold slice. rewrite skipn_app, skipn_all, Nat.sub_diag. simpl.
  replace (length pre + length w - length pre) with (length w + 0) by lia.
  rewrite firstn_app_2. simpl. apply app_nil_r.
Qed.

Lemma re_search_accepts (r : regex) (s m : str) :
  re_search r s = Some m -> Forall (fun c => accepts r c = true) m.
Proof.
  unfold re_search. destruct (search_from r 0 s) as [[a b] | ] eqn:E;
    [ | discriminate].
  intros H. injection H as <-.
  destruct (search_from_accepts r s 0 E) as (pre & w & post & -> & -> & -> & F).
  simpl. now rewrite slice_app.
Qed.

(** Substitution of the empty text for a one-character class deletes the
    characters of the class. *)
Lemma sub_from_Chr (f : char -> bool) :
  forall s fuel i, length s <= fuel ->
  sub_from (Chr f) [] fuel i s = filter (fun c => negb (f c)) s.
Proof.
  induction s as [ | c t IH]; intros fuel i Hf.
  - now destruct fuel.
  - destruct fuel as [ | n]; [simpl in Hf; lia | ].
    simpl in Hf. simpl. destruct (f c); simpl.
    + replace (i <? S i) with true by (symmetry; apply Nat.ltb_lt; lia).
      apply IH. lia.
    + f_equal. apply IH. lia.
Qed.

Lemma re_sub_Chr (f : char -> bool) (s : str) :
  re_sub (Chr f) [] s = filter (fun c => negb (f c)) s.
Proof. apply sub_from_Chr. lia. Qed.

(** ** [float(str)] gives NaN only for a text with the letter n *)

Lemma shr_1_nonneg (mrs : shr_record) :
  (0 <= shr_m mrs)%Z -> (0 <= shr_m (shr_1 mrs))%Z.
Proof.
  destruct mrs as [m r s]. simpl.
  destruct m as [ | [p | p | ] | p]; simpl; lia.
Qed.

Lemma iter_pos_inv (A : Type) (f : A -> A) (P : A -> Prop) :
  (forall x, P x -> P (f x)) ->
  forall n x, P x -> P (iter_pos f n x).
Proof.
  intros Hf. induction n as [n IH | n IH | ]; intros x Hx; simpl; auto.
Qed.

Lemma shr_fexp_nonneg (prec emax m e : Z) (l : location) :
  (0 <= m)%Z -> (0 <= shr_m (fst (shr_fexp prec emax m e l)))%Z.
Proof.
  intros Hm. unfold shr_fexp, shr.
  assert (H0 : (0 <= shr_m (shr_record_of_loc m l))%Z)
    by (destruct l as [ | [ | | ]]; exact Hm).
  destruct (fexp prec emax (Zdigits2 m + e) - e)%Z; simpl; auto.
  apply (iter_pos_inv shr_1 (fun r => (0 <= shr_m r)%Z)); auto.
  apply shr_1_nonneg.
Qed.

Lemma round_nearest_even_nonneg (m : Z) (l : location) :
  (0 <= m)%Z -> (0 <= round_nearest_even m l)%Z.
Proof.
  intros Hm. destruct l as [ | [ | | ]]; simpl; try lia.
  destruct (Z.even m); lia.
Qed.

Lemma binary_round_aux_not_nan (prec emax : Z) (sx : bool) (mx ex : Z)
    (lx : location) :
  (0 <= mx)%Z -> is_nan (binary_round_aux prec emax sx mx ex lx) = false.
Proof.
  intros Hm. unfold binary_round_aux.
  generalize (shr_fexp_nonneg prec emax ex lx Hm).
  destruct (shr_fexp prec emax mx ex lx) as [mrs' e']. simpl. intros H1.
  generalize (shr_fexp_nonneg prec emax e' loc_Exact
                (round_nearest_even_nonneg (loc_of_shr_record mrs') H1)).
  destruct (shr_fexp prec emax _ e' loc_Exact) as [mrs'' e'']. simpl.
  destruct (shr_m mrs'') as [ | p | p]; intros H2; try reflexivity; [ | lia].
  now destruct (e'' <=? emax - prec)%Z.
Qed.

Lemma float_of_decimal_not_nan (neg : bool) (m : N) (e : Z) :
  is_nan (float_of_decimal neg m e) = false.
Proof.
  unfold float_of_decimal. destruct m as [ | p]; [reflexivity | ].
  destruct (0 <=? e)%Z.
  - unfold binary_normalize.
    destruct (cond_Zopp neg (Z.pos p * 10 ^ e)) as [ | q | q];
      try reflexivity; unfold binary_round;
      destruct (shl_align _ _ _) as [mz ez];
      apply binary_round_aux_not_nan; lia.
  - unfold SFdiv, SFdiv_core_binary.
    set (m' := match _ with Z0 => Z.pos p | Z.pos _ => _ | Z.neg _ => 0%Z end).
    assert (Hm' : (0 <= m')%Z).
    { subst m'. destruct (_ - _ - _)%Z; try lia. apply Z.shiftl_nonneg. lia. }
    generalize (Z_div_mod m' (Z.pos (Z.to_pos (10 ^ (- e)))) eq_refl).
    destruct (Z.div_eucl m' _) as [q r]. intros [Hq Hr].
    apply binary_round_aux_not_nan. nia.
Qed.

Lemma strtod_decimal_not_nan (s r : str) (x : float) :
  strtod_decimal s = Some (x, r) -> is_nan x = false.
Proof.
  unfold strtod_decimal. destruct (parse_sign s) as [neg s1].
  destruct (span is_ascii_digit s1) as [ip s2].
  destruct (match s2 with 46%N :: t => _ | _ => _ end) as [fp s3].
  destruct (ip ++ fp); [discriminate | ].
  destruct (parse_exponent s3) as [ex s4]. intros H. injection H as <- _.
  apply float_of_decimal_not_nan.
Qed.

Lemma parse_sign_In (s r : str) (neg : bool) (c : char) :
  parse_sign s = (neg, r) -> In c r -> In c s.
Proof.
  unfold parse_sign. intros H Hc.
  destruct s as [ | d t]; [injection H as _ <-; exact Hc | ].
  destruct (N.eq_dec d 45) as [-> | N1]; [injection H as _ <-; now right | ].
  destruct (N.eq_dec d 43) as [-> | N2]; [injection H as _ <-; now right | ].
  assert (E : r = d :: t).
  { destruct d as [ | p]; [now injection H as _ <- | ].
    do 6 (destruct p as [p | p | ]; try (now injection H as _ <-));
      try congruence. }
  now rewrite <- E.
Qed.

Lemma parse_inf_or_nan_n (s r : str) (x : float) :
  parse_inf_or_nan s = Some (x, r) -> is_nan x = true ->
  exists c, In c s /\ is_n c.
Proof.
  unfold parse_inf_or_nan. destruct (parse_sign s) as [neg s1] eqn:Es.
  destruct (ci_prefix (u "inf") s1) as [r1 | ].
  - destruct (ci_prefix (u "inity") r1); intros H; injection H as <- _;
      discriminate.
  - destruct (ci_prefix (u "nan") s1) as [r1 | ] eqn:E; [ | discriminate].
    intros _ _. destruct s1 as [ | c t]; [discriminate | ].
    exists c. split; [eapply parse_sign_In; [exact Es | now left] | ].
    simpl in E. destruct (N.eqb_spec (ascii_lower c) 110) as [H | H];
      [ | discriminate].
    unfold ascii_lower in H. destruct (is_ascii_upper c); [right | left]; lia.
Qed.

Lemma drop_while_In (f : char -> bool) (s : str) (c : char) :
  In c (drop_while f s) -> In c s.
Proof.
  induction s as [ | d t IH]; simpl; [auto | ].
  destruct (f d); [right; auto | auto].
Qed.

Lemma c_strip_In (s : str) (c : char) : In c (c_strip s) -> In c s.
Proof.
  unfold c_strip. intros H. apply in_rev in H.
  apply drop_while_In in H. apply in_rev in H.
  now apply drop_while_In in H.
Qed.

Lemma strip_underscores_In (s r : str) (c : char) :
  forall prev, strip_underscores prev s = Some r -> In c r -> In c s.
Proof.
  revert r. induction s as [ | d t IH]; intros r prev; simpl.
  - destruct (prev =? 95)%N; [discriminate | ].
    intros H. now injection H as <-.
  - destruct (d =? 95)%N.
    + destruct (is_ascii_digit prev); [ | discriminate].
      intros H Hc. right. eapply IH; eauto.
    + destruct ((prev =? 95)%N && negb (is_ascii_digit d)); [discriminate | ].
      destruct (strip_underscores d t) as [r' | ] eqn:E; [ | discriminate].
      simpl. intros H. injection H as <-. intros [<- | Hc]; [now left | ].
      right. eapply IH; eauto.
Qed.

Section NumberFacts.
Context {U : UnicodeData}.

Lemma decimal_lt (c : char) (d : N) : decimal c = Some d -> (d < 10)%N.
Proof.
  unfold decimal. destruct (c <? 128)%N.
  - unfold is_ascii_digit, in_range.
    destruct (N.leb_spec 48 c) as [L1 | L1], (N.leb_spec c 57) as [L2 | L2];
      simpl; try discriminate. intros E. injection E as <-. lia.
  - apply uni_decimal_lt.
Qed.

Lemma to_ascii_decimal_n (s : str) (c : char) :
  In c (to_ascii_decimal s) -> is_n c -> In c s.
Proof.
  intros H Hn. induction s as [ | d t IH];
    cbn [to_ascii_decimal In] in *; [auto | ].
  destruct (d <? 127)%N; cbn [In] in *.
  - destruct H as [<- | H]; [now left | right; auto].
  - destruct (is_space d).
    + cbn [In] in H.
      destruct H as [<- | H]; [destruct Hn; discriminate | right; auto].
    + destruct (decimal d) as [v | ] eqn:E; cbn [In] in H.
      * destruct H as [<- | H]; [ | right; auto].
        apply decimal_lt in E. unfold is_n, char in *. lia.
      * destruct H as [<- | []]. destruct Hn; discriminate.
Qed.


Lemma numchar_cases (c : char) :
  numchar c = true ->
  (c <? 127)%N = true /\ (c =? 95)%N = false /\ is_c_space c = false
  /\ is_space c = false.
Proof.
  unfold numchar, is_ascii_digit, is_c_space, is_space, in_range.
  intros H. apply orb_true_iff in H. destruct H as [H | H].
  - apply orb_true_iff in H. destruct H as [H | H].
    + apply andb_true_iff in H. destruct H as [H1 H2].
      apply N.leb_le in H1, H2.
      assert (E : exists k, (k < 10)%nat /\ c = N.of_nat (48 + k)).
      { exists (N.to_nat c - 48). lia. }
      destruct E as (k & Hk & ->).
      do 10 (destruct k as [ | k]; [now vm_compute | ]). lia.
    + apply N.eqb_eq in H. subst c. now vm_compute.
  - apply N.eqb_eq in H. subst c. now vm_compute.
Qed.





Lemma span_app (f : char -> bool) (ds rest : str) :
  Forall (fun c => f c = true) ds ->
  (forall c t, rest = c :: t -> f c = false) ->
  span f (ds ++ rest) = (ds, rest).
Proof.
  intros Hd Hr. induction Hd as [ | c t Hc _ IH]; simpl.
  - destruct rest as [ | c t]; [reflexivity | ].
    simpl. now rewrite (Hr c t eq_refl).
  - now rewrite Hc, IH.
Qed.

Lemma parse_sign_other (c : char) (t : str) :
  c <> 45%N -> c <> 43%N -> parse_sign (c :: t) = (false, c :: t).
Proof.
  intros H1 H2. unfold parse_sign. destruct c as [ | p]; [reflexivity | ].
  do 6 (destruct p as [p | p | ]; try reflexivity); congruence.
Qed.





Lemma float_of_str_nan (s : str) (x : float) :
  float_of_str s = Some x -> is_nan x = true -> exists c, In c s /\ is_n c.
Proof.
  unfold float_of_str.
  destruct (strip_underscores 0%N (to_ascii_decimal s)) as [s1 | ] eqn:E1;
    [ | discriminate].
  destruct (c_strip s1) as [ | c0 s2] eqn:E2; [discriminate | ].
  unfold strtod. destruct (strtod_decimal (c0 :: s2)) as [[y r] | ] eqn:E3.
  - destruct r; [ | discriminate]. intros H. injection H as <-.
    apply strtod_decimal_not_nan in E3. congruence.
  - destruct (parse_inf_or_nan (c0 :: s2)) as [[y r] | ] eqn:E4;
      [ | discriminate].
    destruct r; [ | discriminate]. intros H Hx. injection H as <-.
    destruct (parse_inf_or_nan_n _ E4 Hx) as (c & Hc & Hn).
    exists c. split; [ | exact Hn].
    apply to_ascii_decimal_n; [ | exact Hn].
    eapply strip_underscores_In; [exact E1 | ]. apply c_strip_In.
    now rewrite E2.
Qed.

(** ** Dates written as YYYY-MM-DD *)

Lemma all_tails_ok_true : all_tails_ok = true.
Proof. vm_compute. reflexivity. Qed.

Lemma in_ascii_digits (c : char) : is_ascii_digit c = true -> In c ascii_digits.
Proof.
  unfold is_ascii_digit, in_range. intros H. apply andb_true_iff in H.
  destruct H as [H1 H2]. apply N.leb_le in H1, H2.
  assert (E : exists k, (k < 10)%nat /\ c = N.of_nat (48 + k)).
  { exists (N.to_nat c - 48). lia. }
  destruct E as (k & Hk & ->).
  do 10 (destruct k as [ | k]; [simpl; tauto | ]). lia.
Qed.

Lemma tail_ok_digits (m1 m2 d1 d2 : char) :
  is_ascii_digit m1 = true -> is_ascii_digit m2 = true ->
  is_ascii_digit d1 = true -> is_ascii_digit d2 = true ->
  tail_ok m1 m2 d1 d2 = true.
Proof.
  intros H1 H2 H3 H4. pose proof all_tails_ok_true as H.
  unfold all_tails_ok in H.
  rewrite forallb_forall in H. specialize (H m1 (@in_ascii_digits m1 H1)).
  rewrite forallb_forall in H. specialize (H m2 (@in_ascii_digits m2 H2)).
  rewrite forallb_forall in H. specialize (H d1 (@in_ascii_digits d1 H3)).
  rewrite forallb_forall in H. exact (H d2 (@in_ascii_digits d2 H4)).
Qed.

Lemma decimal_ascii (c : char) :
  is_ascii_digit c = true -> decimal c = Some (c - 48)%N.
Proof.
  intros H. unfold decimal. rewrite H.
  unfold is_ascii_digit, in_range in H. apply andb_true_iff in H.
  destruct H as [_ H]. apply N.leb_le in H.
  now replace (c <? 128)%N with true by (symmetry; apply N.ltb_lt; lia).
Qed.

Lemma is_digit_ascii (c : char) : is_ascii_digit c = true -> is_digit c = true.
Proof. intros H. unfold is_digit. now rewrite (@decimal_ascii c H). Qed.

Lemma int_digits_ascii (ds : str) :
  digits ds -> forall acc, int_digits acc ds = Some (digits_value acc ds).
Proof.
  induction 1 as [ | c t Hc _ IH]; intros acc; [reflexivity | ].
  simpl. rewrite (@decimal_ascii c Hc). apply IH.
Qed.

Lemma lstrip_none (s : str) :
  Forall (fun c => is_space c = false) s -> lstrip s = s.
Proof. destruct 1 as [ | c t Hc _]; simpl; [reflexivity | now rewrite Hc]. Qed.

Lemma strip_none (s : str) :
  Forall (fun c => is_space c = false) s -> strip s = s.
Proof.
  intros H. unfold strip, rstrip. rewrite (@lstrip_none s H).
  rewrite lstrip_none; [apply rev_involutive | now apply Forall_rev].
Qed.

Lemma int_of_str_digits (ds : str) :
  digits ds -> ds <> [] -> int_of_str ds = Some (digits_value 0 ds).
Proof.
  intros Hd Hne. unfold int_of_str. rewrite strip_none.
  - destruct ds; [congruence | ]. now apply int_digits_ascii.
  - eapply Forall_impl; [ | exact Hd]. intros c Hc.
    apply (numchar_cases c). unfold numchar. now rewrite Hc.
Qed.


Lemma digits_cons (c : char) (t : str) :
  digits (c :: t) -> is_ascii_digit c = true /\ digits t.
Proof. intros H. inversion H; subst. now split. Qed.

Lemma re_Y_digits (y1 y2 y3 y4 : char) (rest : str) :
  digits [y1; y2; y3; y4] ->
  matches re_Y (0, y1 :: y2 :: y3 :: y4 :: rest) = [(4, rest)].
Proof.
  intros H. apply digits_cons in H. destruct H as [H1 H].
  apply digits_cons in H. destruct H as [H2 H].
  apply digits_cons in H. destruct H as [H3 H].
  apply digits_cons in H. destruct H as [H4 _].
  unfold re_Y. cbn [matches flat_map app].
  rewrite (@is_digit_ascii y1 H1). cbn [flat_map app].
  rewrite (@is_digit_ascii y2 H2). cbn [flat_map app].
  rewrite (@is_digit_ascii y3 H3). cbn [flat_map app].
  now rewrite (@is_digit_ascii y4 H4).
Qed.

Lemma two_value (a b : char) : digits_value 0 [a; b] = two a b.
Proof. unfold two. simpl. lia. Qed.

Lemma days_in_month_le (y m : N) : (days_in_month y m <= 31)%N.
Proof.
  unfold days_in_month. destruct (m =? 2)%N; [destruct (is_leap y); lia | ].
  destruct ((m =? 4) || (m =? 6) || (m =? 9) || (m =? 11))%N; lia.
Qed.

Lemma date_new_out_of_range (y : N) (m1 m2 d1 d2 : char) :
  in_calendar_range m1 m2 d1 d2 = false ->
  date_new y (two m1 m2) (two d1 d2) = None.
Proof.
  unfold in_calendar_range, date_new. intros H.
  destruct ((1 <=? y) && (y <=? 9999) && (1 <=? two m1 m2)
            && (two m1 m2 <=? 12) && (1 <=? two d1 d2)
            && (two d1 d2 <=? days_in_month y (two m1 m2)))%N eqn:E;
    [ | reflexivity].
  rewrite !andb_true_iff, !N.leb_le in E.
  pose proof (days_in_month_le y (two m1 m2)) as Hd.
  assert (Ht : ((1 <=? two m1 m2) && (two m1 m2 <=? 12) && (1 <=? two d1 d2)
                && (two d1 d2 <=? 31))%N = true)
    by (rewrite !andb_true_iff, !N.leb_le; lia).
  congruence.
Qed.

(** On a text in the format YYYY-MM-DD the parser gives the date that the
    text denotes, and fails when it denotes none. *)
Lemma strptime_strict (v : str) :
  is_YYYY_MM_DD v = true -> strptime_Ymd v = denoted_date v.
Proof.
  destruct v as [ | y1 [ | y2 [ | y3 [ | y4 [ | a [ | m1 [ | m2 [ | b
    [ | d1 [ | d2 [ | x t]]]]]]]]]]]; try discriminate.
  cbn [is_YYYY_MM_DD forallb denoted_date].
  rewrite !andb_true_iff, !N.eqb_eq.
  intros [[(Hy1 & Hy2 & Hy3 & Hy4 & Hm1 & Hm2 & Hd1 & Hd2 & _) ->] ->].
  assert (Hy : digits [y1; y2; y3; y4]) by (repeat constructor; assumption).
  assert (Hm : digits [m1; m2]) by (repeat constructor; assumption).
  assert (Hd : digits [d1; d2]) by (repeat constructor; assumption).
  unfold strptime_Ymd, Ymd_matches.
  rewrite (@re_Y_digits y1 y2 y3 y4 _ Hy). cbn [flat_map].
  rewrite app_nil_r.
  pose proof (@tail_ok_digits m1 m2 d1 d2 Hm1 Hm2 Hd1 Hd2) as Hok.
  unfold tail_ok in Hok.
  destruct (tail_matches _) as [ | [[[[e1 e2] e3] e4] e5] l].
  - apply negb_true_iff in Hok. symmetry.
    now apply date_new_out_of_range.
  - cbn [length]. destruct (in_calendar_range m1 m2 d1 d2) eqn:Er.
    + rewrite !andb_true_iff, !Nat.eqb_eq in Hok.
      destruct Hok as [[[[-> ->] ->] ->] ->].
      cbn [Nat.eqb slice Nat.sub skipn firstn].
      rewrite (@int_of_str_digits _ Hy), (@int_of_str_digits _ Hm),
        (@int_of_str_digits _ Hd); try discriminate.
      now rewrite !two_value.
    + apply negb_true_iff in Hok. rewrite Hok. symmetry.
      now apply date_new_out_of_range.
Qed.

End NumberFacts.

(** ** The stable sort and the minimum *)

Section SortFacts.
Variables (A K : Type) (ltb : K -> K -> bool) (key : A -> K).
Variable ok : K -> Prop.
Hypothesis ltb_asym : forall a b, ok a -> ok b -> ltb a b = true -> ltb b a = false.
Hypothesis ltb_negtrans : forall a b c, ok a -> ok b -> ok c ->
  ltb a c = true -> ltb a b = true \/ ltb b c = true.

Local Abbreviation insert_by := (insert_by ltb key).
Local Abbreviation sort_by := (sort_by ltb key).
Local Abbreviation min_by := (min_by ltb key).
Local Abbreviation key_le := (key_le ltb key).

Lemma insert_by_perm (x : A) (l : list A) : Permutation (insert_by x l) (x :: l).
Proof.
  induction l as [ | h t IH]; simpl; [reflexivity | ].
  destruct (ltb (key h) (key x)); [ | reflexivity].
  rewrite IH. apply perm_swap.
Qed.

Lemma sort_by_perm (l : list A) : Permutation (sort_by l) l.
Proof.
  induction l as [ | x t IH]; simpl; [reflexivity | ].
  rewrite insert_by_perm. now apply perm_skip.
Qed.

Lemma sort_by_In (l : list A) (x : A) : In x (sort_by l) <-> In x l.
Proof.
  split; apply Permutation_in;
    [apply sort_by_perm | apply Permutation_sym, sort_by_perm].
Qed.

Lemma sort_by_length (l : list A) : length (sort_by l) = length l.
Proof. apply Permutation_length, sort_by_perm. Qed.

Lemma key_le_trans (a b c : A) :
  ok (key a) -> ok (key b) -> ok (key c) ->
  key_le a b -> key_le b c -> key_le a c.
Proof.
  unfold key_le. intros Ha Hb Hc H1 H2.
  destruct (ltb (key c) (key a)) eqn:E; [ | reflexivity].
  destruct (ltb_negtrans Hc Hb Ha E); congruence.
Qed.

Lemma insert_by_sorted (x : A) (l : list A) :
  ok (key x) -> Forall (fun a => ok (key a)) l ->
  StronglySorted key_le l -> StronglySorted key_le (insert_by x l).
Proof.
  intros Hx Hl Hs. induction Hs as [ | h t Hs IH Hh]; simpl.
  - constructor; constructor.
  - inversion Hl as [ | ? ? Hkh Hkt]; subst.
    destruct (ltb (key h) (key x)) eqn:E.
    + constructor; [now apply IH | ].
      apply Forall_forall. intros y Hy.
      apply (Permutation_in _ (insert_by_perm x t)) in Hy.
      destruct Hy as [<- | Hy].
      * unfold key_le. now apply ltb_asym.
      * rewrite Forall_forall in Hh. now apply Hh.
    + constructor; [now constructor | ].
      constructor; [exact E | ].
      rewrite Forall_forall in Hh, Hkt |- *. intros y Hy.
      apply key_le_trans with h; auto.
Qed.

Lemma sort_by_sorted (l : list A) :
  Forall (fun a => ok (key a)) l -> StronglySorted key_le (sort_by l).
Proof.
  induction 1 as [ | x t Hx Ht IH]; simpl; [constructor | ].
  apply insert_by_sorted; auto.
  rewrite Forall_forall in Ht |- *. intros y Hy. apply Ht.
  now apply sort_by_In.
Qed.



Lemma ltb_trans (a b c : K) :
  ok a -> ok b -> ok c -> ltb a b = true -> ltb b c = true -> ltb a c = true.
Proof.
  intros Ha Hb Hc H1 H2.
  destruct (ltb_negtrans Ha Hc Hb H1) as [H | H]; [exact H | ].
  rewrite (ltb_asym Hb Hc H2) in H. discriminate.
Qed.

Lemma min_by_cons (x y : A) (t : list A) :
  min_by x (y :: t) = min_by (if ltb (key y) (key x) then y else x) t.
Proof. reflexivity. Qed.

(** The minimum splits the list: strictly larger keys before it, no
    smaller key after it. *)
Lemma min_by_split (x : A) (t : list A) :
  Forall (fun a => ok (key a)) (x :: t) ->
  exists l1 l2,
    x :: t = l1 ++ min_by x t :: l2
    /\ (forall y, In y l1 -> ltb (key (min_by x t)) (key y) = true)
    /\ (forall y, In y l2 -> ltb (key y) (key (min_by x t)) = false).
Proof.
  revert x. induction t as [ | y t IH]; intros x Hok.
  - exists [], []. simpl. repeat split; intros ? [].
  - inversion Hok as [ | ? ? Hx Hyt]; subst.
    inversion Hyt as [ | ? ? Hy Ht]; subst.
    rewrite min_by_cons.
    destruct (ltb (key y) (key x)) eqn:E.
    + destruct (IH y Hyt) as (l1 & l2 & Heq & H1 & H2).
      remember (min_by y t) as m eqn:Em. clear Em.
      assert (Hm : ok (key m)).
      { rewrite Forall_forall in Hyt. apply Hyt. rewrite Heq.
        apply in_or_app. right. now left. }
      exists (x :: l1), l2. rewrite Heq. repeat split; auto.
      intros z [<- | Hz]; [ | now apply H1].
      destruct l1 as [ | y' l1]; simpl in Heq; inversion Heq; subst.
      * exact E.
      * apply ltb_trans with (key y'); auto. apply H1. now left.
    + assert (Hxt : Forall (fun a => ok (key a)) (x :: t)) by now constructor.
      destruct (IH x Hxt) as (l1 & l2 & Heq & H1 & H2).
      remember (min_by x t) as m eqn:Em. clear Em.
      assert (Hm : ok (key m)).
      { rewrite Forall_forall in Hxt. apply Hxt. rewrite Heq.
        apply in_or_app. right. now left. }
      destruct l1 as [ | x' l1]; simpl in Heq; inversion Heq; subst.
      * exists [], (y :: l2). simpl.
        repeat split; [intros ? [] | ].
        intros z [<- | Hz]; [exact E | now apply H2].
      * exists (x' :: y :: l1), l2. simpl.
        repeat split; auto.
        intros z [<- | [<- | Hz]].
        -- apply H1. now left.
        -- assert (Hmx : ltb (key m) (key x') = true) by (apply H1; now left).
           destruct (ltb_negtrans Hm Hy Hx Hmx) as [H | H];
             [exact H | congruence].
        -- apply H1. now right.
Qed.

Lemma min_by_In (x : A) (t : list A) : In (min_by x t) (x :: t).
Proof.
  revert x. induction t as [ | y t IH]; intros x; [now left | ].
  rewrite min_by_cons.
  destruct (ltb (key y) (key x)).
  - right. apply (IH y).
  - destruct (IH x) as [H | H]; [now left | right; now right].
Qed.

End SortFacts.

End PyFacts.

(** * Properties of the program *)

Module FlightSearchFacts.
Import Py PyFacts FlightSearch.

Section ProgramFacts.
Context {U : UnicodeData}.

(** ** The validators *)

Lemma airport_re_match (n : str) :
  re_match AIRPORT_RE n
  = if three_letters n || three_letters_lf n then Some 3 else None.
Proof.
  unfold re_match, AIRPORT_RE.
  destruct n as [ | a [ | b [ | c [ | d [ | e t]]]]];
    cbn [matches flat_map app snd fst three_letters three_letters_lf];
    try reflexivity;
    destruct (is_ascii_upper a); cbn [flat_map app andb orb]; try reflexivity;
    destruct (is_ascii_upper b); cbn [flat_map app andb orb]; try reflexivity;
    destruct (is_ascii_upper c); cbn [flat_map app andb orb snd];
    try reflexivity;
    destruct (d =? 10)%N; reflexivity.
Qed.

Lemma lstrip_head (s : str) :
  lstrip s = [] \/ exists c t, lstrip s = c :: t /\ is_space c = false.
Proof.
  induction s as [ | c t IH]; [now left | ]. simpl.
  destruct (is_space c) eqn:E; [exact IH | right; eauto].
Qed.

Lemma strip_last (v : str) :
  strip v = [] \/ exists t c, strip v = t ++ [c] /\ is_space c = false.
Proof.
  unfold strip, rstrip.
  destruct (lstrip_head (rev (lstrip v))) as [-> | (c & t & -> & Hc)].
  - now left.
  - right. exists (rev t), c. simpl. auto.
Qed.

Lemma upper_char_last (c : char) :
  is_space c = false ->
  exists l z, upper_char c = l ++ [z] /\ z <> 10%N.
Proof.
  intros Hs. unfold upper_char. destruct (N.ltb_spec c 128) as [Hlt | Hge].
  - exists [], (if is_ascii_lower c then (c - 32)%N else c).
    split; [reflexivity | ]. unfold is_ascii_lower, in_range.
    destruct (N.leb_spec 97 c), (N.leb_spec c 122); simpl; try lia;
      intros ->; discriminate.
  - destruct (exists_last (uni_upper_nonempty c)) as (l & z & E).
    exists l, z. split; [exact E | ]. intros ->.
    apply (@uni_upper_no_lf _ c Hge). rewrite E. apply in_or_app.
    right. now left.
Qed.

(** A trimmed text in upper case does not end with a line feed. *)
Lemma upper_strip_no_lf (v m : str) : upper (strip v) <> m ++ [10%N].
Proof.
  destruct (strip_last v) as [-> | (t & c & -> & Hc)].
  - simpl. now destruct m.
  - unfold upper. rewrite flat_map_app. simpl. rewrite app_nil_r.
    destruct (upper_char_last c Hc) as (l & z & -> & Hz).
    rewrite app_assoc. intros E. apply app_inj_tail in E. now destruct E.
Qed.

(** The validator function on its own: it succeeds, with the trimmed text
    in upper case, exactly when that text is three letters A-Z. *)
Lemma validate_airport_code_spec (v : str) :
  validate_airport_code v
  = if three_letters (upper (strip v)) then Valid (upper (strip v))
    else Invalid (u "Invalid airport code: " ++ upper (strip v)
                    ++ u ". Must be 3 letters (e.g., JFK)").
Proof.
  unfold validate_airport_code. rewrite airport_re_match.
  destruct (three_letters (upper (strip v))) eqn:E; [reflexivity | ].
  destruct (three_letters_lf (upper (strip v))) eqn:E'; [ | reflexivity].
  exfalso.
  destruct (upper (strip v)) as [ | a [ | b [ | c [ | d [ | e t]]]]] eqn:En;
    try discriminate.
  simpl in E'. apply andb_true_iff in E'. destruct E' as [_ Hd].
  apply N.eqb_eq in Hd. subst d.
  apply (@upper_strip_no_lf v [a; b; c]). exact En.
Qed.

Lemma is_ascii_upper_fix (c : char) :
  is_ascii_upper c = true -> is_space c = false /\ upper_char c = [c].
Proof.
  unfold is_ascii_upper, in_range. intros H. apply andb_true_iff in H.
  destruct H as [H1 H2]. apply N.leb_le in H1, H2.
  assert (E : exists k, (k < 26)%nat /\ c = N.of_nat (65 + k)).
  { exists (N.to_nat c - 65). lia. }
  destruct E as (k & Hk & ->).
  do 26 (destruct k as [ | k]; [now vm_compute | ]). lia.
Qed.

Lemma three_letters_fix (n : str) :
  three_letters n = true -> length n = 3 /\ upper (strip n) = n.
Proof.
  destruct n as [ | a [ | b [ | c [ | d t]]]]; try discriminate. simpl.
  intros H. apply andb_true_iff in H. destruct H as [H Hc].
  apply andb_true_iff in H. destruct H as [Ha Hb].
  destruct (is_ascii_upper_fix a Ha) as [Sa Ua].
  destruct (is_ascii_upper_fix b Hb) as [Sb Ub].
  destruct (is_ascii_upper_fix c Hc) as [Sc Uc].
  split; [reflexivity | ].
  unfold strip, rstrip. simpl. rewrite Sa. simpl. rewrite Sc. simpl.
  unfold upper. simpl. now rewrite Ua, Ub, Uc.
Qed.

Lemma origin_field_fix (o o' : str) :
  origin_field o = inr o' -> origin_field o' = inr o'.
Proof.
  unfold origin_field, str_field.
  destruct (length o <? 3); [discriminate | ].
  destruct (3 <? length o); [discriminate | ].
  rewrite !validate_airport_code_spec.
  destruct (three_letters (upper (strip o))) eqn:E; [ | discriminate].
  intros H. injection H as <-.
  destruct (three_letters_fix _ E) as [Hl Hu]. rewrite Hl. simpl.
  rewrite Hu, E. reflexivity.
Qed.

Lemma depart_date_field_fix (today : date) (d d' : str) :
  depart_date_field today d = inr d' -> depart_date_field today d' = inr d'.
Proof.
  unfold depart_date_field, str_field, validate_date.
  destruct (strptime_Ymd d) as [x | ] eqn:E; [ | discriminate].
  destruct (date_ltb x today) eqn:E'; [discriminate | ].
  intros H. injection H as <-. now rewrite E, E'.
Qed.

(** On a text in the format YYYY-MM-DD the validator fails when the text
    denotes no calendar date or one before today, and otherwise returns
    the text. *)
Lemma validate_date_strict (today : date) (v : str) :
  is_YYYY_MM_DD v = true ->
  validate_date today v
  = match denoted_date v with
    | None =>
        Invalid (u "Invalid date format: " ++ v
                   ++ u ". Must be YYYY-MM-DD (e.g., 2026-05-15)")
    | Some dt =>
        if date_ltb dt today
        then Invalid (u "Date cannot be in the past: " ++ v)
        else Valid v
    end.
Proof.
  intros H. unfold validate_date. now rewrite (strptime_strict v H).
Qed.


(** ** Extracted prices *)

Lemma price_pattern_accepts (sym : char -> bool) (c : char) :
  (forall d, sym d = true -> price_char d = true) ->
  accepts (price_pattern sym) c = true -> price_char c = true.
Proof.
  intros Hsym. simpl.
  destruct (sym c) eqn:E; [intros _; now apply (Hsym c) | ].
  unfold price_char.
  destruct (is_digit c), (is_comma c), (is_dot c); simpl;
    rewrite ?orb_true_r; auto; discriminate.
Qed.

Lemma extract_price_chars (text p : str) :
  _extract_price text = Some p -> Forall (fun c => price_char c = true) p.
Proof.
  unfold _extract_price, patterns. simpl.
  destruct (re_search (price_pattern is_dollar) text) as [m | ] eqn:E1.
  { intros H. injection H as <-. apply re_search_accepts in E1.
    eapply Forall_impl; [ | exact E1]. intros c.
    apply price_pattern_accepts. intros d Hd. unfold price_char. now rewrite Hd. }
  destruct (re_search (price_pattern is_pound) text) as [m | ] eqn:E2.
  { intros H. injection H as <-. apply re_search_accepts in E2.
    eapply Forall_impl; [ | exact E2]. intros c.
    apply price_pattern_accepts. intros d Hd. unfold price_char.
    rewrite Hd. now rewrite orb_true_r. }
  destruct (re_search (price_pattern is_euro) text) as [m | ] eqn:E3;
    [ | discriminate].
  intros H. injection H as <-. apply re_search_accepts in E3.
  eapply Forall_impl; [ | exact E3]. intros c.
  apply price_pattern_accepts. intros d Hd. unfold price_char.
  rewrite Hd. now rewrite !orb_true_r.
Qed.

(** A price text without the letter n does not parse to NaN. *)
Lemma parse_price_not_nan (o : option str) :
  (forall s c, o = Some s -> In c s -> ~ is_n c) ->
  is_nan (_parse_price o) = false.
Proof.
  intros H. unfold _parse_price. destruct o as [s | ]; [ | reflexivity].
  destruct (truthy s); [ | reflexivity]. simpl.
  destruct (float_of_str (re_sub symbols [] s)) as [x | ] eqn:E;
    [ | reflexivity].
  destruct (is_nan x) eqn:Hx; [ | reflexivity].
  destruct (float_of_str_nan _ E Hx) as (c & Hc & Hn).
  unfold symbols in Hc. rewrite re_sub_Chr in Hc. apply filter_In in Hc.
  destruct Hc as [Hc _]. now destruct (H s c eq_refl Hc).
Qed.

Lemma price_char_not_n (c : char) : price_char c = true -> ~ is_n c.
Proof.
  intros H [-> | ->]; vm_compute in H; discriminate.
Qed.

Lemma extracted_not_nan (text : str) :
  is_nan (_parse_price (_extract_price text)) = false.
Proof.
  apply parse_price_not_nan. intros s c Hs Hc.
  apply extract_price_chars in Hs. rewrite Forall_forall in Hs.
  apply price_char_not_n. now apply Hs.
Qed.

(** ** The result extractor, hit by hit *)

Lemma parse_items_acc (site_config : WebsiteConfig.t) (items : list Hit.t) :
  forall results,
  parse_items site_config items results
  = results ++ flat_map (parse_item site_config) items.
Proof.
  induction items as [ | item rest IH]; intros results.
  - simpl. now rewrite app_nil_r.
  - unfold parse_item. cbn [flat_map parse_items].
    destruct (negb (truthy (get_default (Hit.url item)))).
    { now rewrite IH. }
    destruct (contains _ _); [ | now rewrite IH].
    destruct (new_FlightResult _ _ _ _ _) as [r | e].
    + rewrite IH. simpl. now rewrite <- app_assoc.
    + now rewrite IH.
Qed.

Lemma parse_results_flat_map (data : payload) (site_config : WebsiteConfig.t) :
  _parse_results data site_config
  = flat_map (parse_item site_config) (items_of data).
Proof. unfold _parse_results. now rewrite parse_items_acc. Qed.

Lemma new_FlightResult_fields (t url d : str) (p : option str) (w : str)
    (r : FlightResult.t) :
  new_FlightResult t url d p w = Return r ->
  r = FlightResult.mk t url d p w
  /\ (startswith url (u "http://") || startswith url (u "https://")) = true.
Proof.
  unfold new_FlightResult, str_field, validate_url.
  destruct (startswith url (u "http://") || startswith url (u "https://"));
    [ | discriminate].
  intros H. now injection H as <-.
Qed.

(** The hit behind a result. *)
Lemma parse_item_inv (site_config : WebsiteConfig.t) (item : Hit.t)
    (r : FlightResult.t) :
  In r (parse_item site_config item) ->
  parse_item site_config item = [r]
  /\ truthy (get_default (Hit.url item)) = true
  /\ contains (lower (get_default (Hit.url item)))
              (WebsiteConfig.domain site_config) = true
  /\ r = FlightResult.mk
           (get_default (Hit.title item))
           (get_default (Hit.url item))
           (truncate (get_default (Hit.description item)))
           (_extract_price (get_default (Hit.title item) ++ u " "
                              ++ get_default (Hit.description item)))
           (WebsiteConfig.name site_config).
Proof.
  unfold parse_item. cbn [parse_items].
  destruct (truthy (get_default (Hit.url item))); [ | intros []].
  cbn [negb]. cbv iota.
  destruct (contains _ _); [ | intros []].
  destruct (new_FlightResult _ _ _ _ _) as [r' | e] eqn:E; [ | intros []].
  apply new_FlightResult_fields in E. destruct E as [-> _].
  intros [<- | []]. auto.
Qed.

Lemma parse_results_price (data : payload) (site_config : WebsiteConfig.t)
    (r : FlightResult.t) :
  In r (_parse_results data site_config) ->
  exists text, FlightResult.price r = _extract_price text.
Proof.
  rewrite parse_results_flat_map. intros H. apply in_flat_map in H.
  destruct H as (item & _ & H). apply parse_item_inv in H.
  destruct H as (_ & _ & _ & ->). simpl. eauto.
Qed.

Lemma parse_results_key (data : payload) (site_config : WebsiteConfig.t)
    (r : FlightResult.t) :
  In r (_parse_results data site_config) -> is_nan (price_key r) = false.
Proof.
  intros H. apply parse_results_price in H. destruct H as [text E].
  unfold price_key. rewrite E. apply extracted_not_nan.
Qed.

(** ** The ranker *)

Lemma StronglySorted_impl_In (A : Type) (R R' : A -> A -> Prop) (l : list A) :
  (forall a b, In a l -> In b l -> R a b -> R' a b) ->
  StronglySorted R l -> StronglySorted R' l.
Proof.
  intros H Hs. induction Hs as [ | h t Hs IH Hh]; constructor.
  - apply IH. intros a b Ha Hb. apply H; now right.
  - rewrite Forall_forall in Hh |- *. intros y Hy.
    apply H; [now left | now right | now apply Hh].
Qed.

Lemma sorted_by_float (A : Type) (key : A -> float) (l : list A) :
  Forall (fun a => is_nan (key a) = false) l ->
  StronglySorted (fun a b => fle (key a) (key b)) (sort_by flt key l).
Proof.
  intros Hl.
  apply StronglySorted_impl_In with (R := key_le flt key).
  - rewrite Forall_forall in Hl. intros a b Ha Hb.
    apply sort_by_In in Ha, Hb. unfold key_le.
    intros H. apply fle_flt; auto.
  - apply sort_by_sorted with (ok := fun k => is_nan k = false).
    + intros a b _ _. apply flt_asym.
    + intros a b c _ Hb _. now apply flt_negtrans.
    + exact Hl.
Qed.


Lemma priced_keys (data : payload) (site_config : WebsiteConfig.t) :
  Forall (fun r => is_nan (price_key r) = false)
         (filter has_price (_parse_results data site_config)).
Proof.
  apply Forall_forall. intros r Hr. apply filter_In in Hr.
  destruct Hr as [Hr _]. eapply parse_results_key; eauto.
Qed.

Lemma cheapest_of_hd (results : list FlightResult.t) :
  cheapest_of results = hd_error (results_with_price results).
Proof. unfold cheapest_of. now destruct (results_with_price results). Qed.

Lemma cheapest_of_priced (results : list FlightResult.t) (c : FlightResult.t) :
  cheapest_of results = Some c -> In c results /\ has_price c = true.
Proof.
  rewrite cheapest_of_hd. unfold results_with_price.
  destruct (sort_by flt price_key (filter has_price results)) as [ | h t] eqn:E;
    [discriminate | ].
  intros H. injection H as <-.
  assert (Hin : In h (sort_by flt price_key (filter has_price results)))
    by (rewrite E; now left).
  apply sort_by_In in Hin. now apply filter_In in Hin.
Qed.

Lemma cheapest_of_first (results : list FlightResult.t) (c : FlightResult.t) :
  cheapest_of results = Some c -> hd_error (final_results results) = Some c.
Proof.
  rewrite cheapest_of_hd. unfold final_results.
  destruct (results_with_price results) as [ | h t]; [discriminate | ].
  intros H. injection H as <-. reflexivity.
Qed.

(** ** One site *)

Lemma search_flights_inv (net : network) (params : FlightSearchParams.t)
    (w w' : trace) (resp : SearchResponse.t) :
  search_flights net params w = (Return (inl resp), w') ->
  exists site_config query data,
    WEBSITES (FlightSearchParams.website params) = Some site_config
    /\ format (WebsiteConfig.query_template site_config)
         [(u "origin", FlightSearchParams.origin params);
          (u "destination", FlightSearchParams.destination params);
          (u "date", FlightSearchParams.depart_date params)] = Some query
    /\ net (requests_made w) query = Json data
    /\ w' = w ++ [Get query]
    /\ resp = SearchResponse.mk (WebsiteConfig.name site_config) query
               (final_results (_parse_results data site_config))
               (cheapest_of (_parse_results data site_config))
               (length (final_results (_parse_results data site_config))).
Proof.
  unfold search_flights.
  destruct (WebsiteName_eqb _ COMPARE); [discriminate | ].
  destruct (WEBSITES _) as [site_config | ] eqn:Ew; [ | discriminate].
  destruct (format _ _) as [query | ] eqn:Ef; [ | discriminate].
  destruct (net _ query) as [ | e | e | data] eqn:E; try discriminate.
  intros H. injection H as <- <-.
  exists site_config, query, data. repeat split; auto.
Qed.

Lemma format_query (site : WebsiteName) (site_config : WebsiteConfig.t)
    (o d dd : str) :
  WEBSITES site = Some site_config ->
  format (WebsiteConfig.query_template site_config)
    [(u "origin", o); (u "destination", d); (u "date", dd)]
  = Some (query_text site o d dd).
Proof.
  destruct site; intros H; try discriminate; injection H as <-;
    vm_compute; repeat f_equal; apply app_nil_r.
Qed.

Lemma search_flights_run (net : network) (site : WebsiteName)
    (o d dd : str) (w : trace) :
  site <> COMPARE ->
  exists out,
    search_flights net (FlightSearchParams.mk o d dd site) w
    = (Return out, w ++ [Get (query_text site o d dd)]).
Proof.
  intros Hs. unfold search_flights. cbn [FlightSearchParams.website
    FlightSearchParams.origin FlightSearchParams.destination
    FlightSearchParams.depart_date].
  destruct (WEBSITES site) as [cfg | ] eqn:Ew;
    [ | destruct site; try discriminate; congruence].
  replace (WebsiteName_eqb site COMPARE) with false
    by (destruct site; try reflexivity; congruence).
  rewrite (format_query site o d dd Ew).
  destruct (net _ _); eauto.
Qed.

Lemma search_flights_total (net : network) (p : FlightSearchParams.t)
    (w : trace) :
  exists out w', search_flights net p w = (Return out, w').
Proof.
  destruct p as [o d dd site].
  destruct (WebsiteName_eqb site COMPARE) eqn:E.
  - unfold search_flights. cbn [FlightSearchParams.website]. rewrite E. eauto.
  - destruct (search_flights_run net o d dd w (site := site)) as [out H];
      [intros ->; discriminate | ]. eauto.
Qed.

Lemma new_params_inv (today : date) (o d dd : str) (site : WebsiteName)
    (sp : FlightSearchParams.t) :
  new_FlightSearchParams today o d dd site = Return sp ->
  exists o' d' dd',
    origin_field o = inr o' /\ destination_field d = inr d'
    /\ depart_date_field today dd = inr dd'
    /\ sp = FlightSearchParams.mk o' d' dd' site.
Proof.
  unfold new_FlightSearchParams.
  destruct (origin_field o) as [e1 | o'], (destination_field d) as [e2 | d'],
    (depart_date_field today dd) as [e3 | dd']; try discriminate.
  intros H. injection H as <-. exists o', d', dd'. auto.
Qed.

Lemma params_valid_site (today : date) (p : FlightSearchParams.t)
    (site : WebsiteName) :
  params_valid today p ->
  new_FlightSearchParams today (FlightSearchParams.origin p)
    (FlightSearchParams.destination p) (FlightSearchParams.depart_date p) site
  = Return (FlightSearchParams.mk (FlightSearchParams.origin p)
              (FlightSearchParams.destination p)
              (FlightSearchParams.depart_date p) site).
Proof.
  unfold params_valid. intros H.
  destruct (new_params_inv _ _ _ _ _ H) as (o' & d' & dd' & E1 & E2 & E3 & E).
  unfold new_FlightSearchParams. rewrite E1, E2, E3.
  rewrite E. reflexivity.
Qed.

(** What the constructor returns is valid. *)
Lemma new_params_valid (today : date) (o d dd : str) (site : WebsiteName)
    (p : FlightSearchParams.t) :
  new_FlightSearchParams today o d dd site = Return p -> params_valid today p.
Proof.
  intros H. apply new_params_inv in H.
  destruct H as (o' & d' & dd' & E1 & E2 & E3 & ->).
  unfold params_valid, new_FlightSearchParams. simpl.
  rewrite (@origin_field_fix o o' E1).
  unfold destination_field in *. fold origin_field in *.
  rewrite (@origin_field_fix d d' E2), (@depart_date_field_fix today dd dd' E3).
  reflexivity.
Qed.

(** With valid parameters the first loop keeps the priced outcomes of the
    per-site searches. *)
Lemma search_sites_spec (net : network) (today : date)
    (p : FlightSearchParams.t) :
  params_valid today p ->
  forall sites i acc w,
  search_sites net today p i sites acc w
  = (Return (acc ++ retain (fst (site_outcomes net p i sites w))),
     snd (site_outcomes net p i sites w)).
Proof.
  intros Hv. induction sites as [ | site rest IH]; intros i acc w.
  - simpl. now rewrite app_nil_r.
  - cbn [search_sites site_outcomes]. rewrite (params_valid_site site Hv).
    cbv beta iota zeta.
    match goal with
    | |- context [search_flights ?n ?q ?x] =>
        destruct (search_flights_total n q x) as (out & w2 & E)
    end.
    rewrite E.
    destruct (site_outcomes net p (S i) rest w2) as [outs w3] eqn:Eo.
    cbn [fst snd retain flat_map].
    destruct out as [r | e]; cbn [priced].
    + unfold has_cheapest.
      destruct (SearchResponse.cheapest r); rewrite IH, Eo; cbn [fst snd].
      * now rewrite <- app_assoc.
      * reflexivity.
    + rewrite IH, Eo. reflexivity.
Qed.

(** In any case what the first loop keeps are priced outcomes of the
    sites, in their order. *)
Lemma search_sites_kept (net : network) (today : date)
    (p : FlightSearchParams.t) :
  forall sites i acc w all w',
  search_sites net today p i sites acc w = (Return all, w') ->
  exists kept, all = acc ++ kept /\ kept_from sites kept.
Proof.
  induction sites as [ | site rest IH]; intros i acc w all w'.
  - simpl. intros H. injection H as <- _. exists [].
    split; [now rewrite app_nil_r | constructor].
  - cbn [search_sites].
    destruct (new_FlightSearchParams _ _ _ _ site) as [sp | e] eqn:En;
      [ | discriminate].
    destruct (search_flights net sp _) as [[[r | e] | e] w2] eqn:Es;
      [ | | discriminate].
    + destruct (SearchResponse.cheapest r) as [c | ] eqn:Ec.
      * intros H. apply IH in H. destruct H as (kept & -> & Hk).
        exists (r :: kept). split; [now rewrite <- app_assoc | ].
        apply kept_keep; [ | exact Hk].
        apply search_flights_inv in Es.
        destruct Es as (cfg & query & data & Ew & _ & _ & _ & ->).
        apply new_params_inv in En.
        destruct En as (o' & d' & dd' & _ & _ & _ & ->).
        exists cfg, query, data. simpl in *. repeat split; auto.
        unfold has_cheapest. simpl. now rewrite Ec.
      * intros H. apply IH in H. destruct H as (kept & -> & Hk).
        exists kept. split; [reflexivity | now apply kept_skip].
    + intros H. apply IH in H. destruct H as (kept & -> & Hk).
      exists kept. split; [reflexivity | now apply kept_skip].
Qed.

Lemma Forall2_In_r (A B : Type) (R : A -> B -> Prop) (l : list A)
    (l' : list B) (y : B) :
  Forall2 R l l' -> In y l' -> exists x, In x l /\ R x y.
Proof.
  induction 1 as [ | a b l l' Hab _ IH]; intros Hy; [destruct Hy | ].
  destruct Hy as [<- | Hy].
  - exists a. split; [now left | exact Hab].
  - destruct (IH Hy) as (x & Hx & Hr). exists x. split; [now right | exact Hr].
Qed.

(** ** The comparison *)

Lemma outcome_good (site : WebsiteName) (r : SearchResponse.t) :
  outcome_of site r -> good_outcome r.
Proof.
  intros (cfg & query & data & _ & Ec & _ & _ & Hc).
  unfold has_cheapest in Hc.
  destruct (SearchResponse.cheapest r) as [c | ] eqn:E; [ | discriminate].
  symmetry in Ec. apply cheapest_of_priced in Ec. destruct Ec as [Hin Hp].
  unfold has_price in Hp.
  destruct (FlightResult.price c) as [p | ] eqn:Ep; [ | discriminate].
  exists c, p. repeat split; auto.
  unfold cheapest_key, cheapest_price_of. rewrite E.
  eapply parse_results_key. exact Hin.
Qed.

Lemma kept_from_good (sites : list WebsiteName) (kept : list SearchResponse.t) :
  kept_from sites kept -> Forall good_outcome kept.
Proof.
  induction 1 as [ | site sites kept _ IH | site sites r kept Ho _ IH];
    auto. constructor; [ | exact IH]. eapply outcome_good; eauto.
Qed.

Lemma kept_from_length (sites : list WebsiteName)
    (kept : list SearchResponse.t) :
  kept_from sites kept -> length kept <= length sites.
Proof. induction 1; simpl; lia. Qed.

Lemma kept_from_cons (site : WebsiteName) (sites : list WebsiteName)
    (kept : list SearchResponse.t) :
  kept_from (site :: sites) kept ->
  exists hd tl, kept = hd ++ tl /\ length hd <= 1
                /\ Forall (outcome_of site) hd /\ kept_from sites tl.
Proof.
  intros H. inversion H; subst.
  - exists [], kept. simpl. repeat split; auto.
  - exists [r], kept0. simpl. repeat split; auto.
Qed.

Lemma outcome_website (site : WebsiteName) (site_config : WebsiteConfig.t)
    (r : SearchResponse.t) :
  WEBSITES site = Some site_config -> outcome_of site r ->
  SearchResponse.website r = WebsiteConfig.name site_config.
Proof.
  intros Hw (cfg & query & data & Hw' & _ & Hn & _).
  rewrite Hw in Hw'. now injection Hw' as <-.
Qed.

Lemma good_has_cheapest (l : list SearchResponse.t) :
  Forall good_outcome l -> forallb has_cheapest l = true.
Proof.
  induction 1 as [ | x l (c & p & Ec & _) _ IH]; [reflexivity | ].
  simpl. unfold has_cheapest at 1. now rewrite Ec.
Qed.

Lemma has_cheapest_Forall (l : list SearchResponse.t) :
  forallb has_cheapest l = true -> Forall (fun x => has_cheapest x = true) l.
Proof. intros H. apply Forall_forall. now apply forallb_forall. Qed.

Lemma comparison_rows_good (best : SearchResponse.t)
    (all : list SearchResponse.t) :
  Forall good_outcome all ->
  forall acc, exists rows,
    comparison_rows best all acc = Return (acc ++ rows)
    /\ Forall2 (is_row_of best) all rows.
Proof.
  induction 1 as [ | x l (c & p & Ec & Ep & _) _ IH]; intros acc.
  - exists []. simpl. rewrite app_nil_r. split; [reflexivity | constructor].
  - cbn [comparison_rows]. rewrite Ec. unfold new_ComparisonItem.
    rewrite Ep. destruct (IH (acc ++ [ComparisonItem.mk
      (SearchResponse.website x) p (FlightResult.url c)
      (str_eqb (SearchResponse.website x) (SearchResponse.website best))]))
      as (rows & E & F).
    eexists (_ :: rows). rewrite E, <- app_assoc. split; [reflexivity | ].
    constructor; [ | exact F]. exists c, p. auto.
Qed.

Lemma item_key_row (best x : SearchResponse.t) (row : ComparisonItem.t) :
  is_row_of best x row -> item_key row = cheapest_key x.
Proof.
  intros (c & p & Ec & Ep & ->).
  unfold item_key, cheapest_key, cheapest_price_of. simpl.
  now rewrite Ec, Ep.
Qed.

Lemma rows_keys (best : SearchResponse.t) (all : list SearchResponse.t)
    (rows : list ComparisonItem.t) :
  Forall good_outcome all -> Forall2 (is_row_of best) all rows ->
  Forall (fun row => is_nan (item_key row) = false) rows.
Proof.
  intros Hg F. induction F as [ | x row l rows Hr F IH]; [constructor | ].
  inversion Hg as [ | ? ? (c & p & _ & _ & Hk) Hl]; subst.
  constructor; [ | now apply IH].
  now rewrite (item_key_row Hr).
Qed.

(** What a comparison that succeeds is made of. *)
Lemma compare_results_inv (all : list SearchResponse.t)
    (r : ComparisonResponse.t) :
  Forall good_outcome all ->
  compare_results all = Return (inl r) ->
  exists first others rows c p,
    all = first :: others
    /\ Forall2 (is_row_of (min_by flt cheapest_key first others)) all rows
    /\ SearchResponse.cheapest (min_by flt cheapest_key first others) = Some c
    /\ FlightResult.price c = Some p
    /\ r = ComparisonResponse.mk (u "comparison") (length all)
             (sort_by flt item_key rows)
             (BestDeal.mk
                (SearchResponse.website (min_by flt cheapest_key first others))
                p (FlightResult.url c) (FlightResult.title c))
             all.
Proof.
  intros Hg. destruct all as [ | first others]; [discriminate | ].
  unfold compare_results. rewrite (good_has_cheapest Hg). cbn [negb].
  set (best := min_by flt cheapest_key first others).
  destruct (comparison_rows_good best Hg []) as (rows & E & F).
  rewrite E. cbn [app].
  assert (Hb : good_outcome best).
  { rewrite Forall_forall in Hg. apply Hg. apply min_by_In. }
  destruct Hb as (c & p & Ec & Ep & _). rewrite Ec.
  unfold new_BestDeal. rewrite Ep. unfold new_ComparisonResponse.
  destruct (3 <? length (first :: others)); [discriminate | ].
  intros H. injection H as <-.
  exists first, others, rows, c, p. repeat split; auto.
Qed.

(** A comparison of one to three good outcomes succeeds. *)
Lemma compare_results_ok (all : list SearchResponse.t) :
  Forall good_outcome all -> all <> [] -> length all <= 3 ->
  exists r, compare_results all = Return (inl r).
Proof.
  intros Hg Hne Hlen. destruct all as [ | first others]; [congruence | ].
  unfold compare_results. rewrite (good_has_cheapest Hg). cbn [negb].
  set (best := min_by flt cheapest_key first others).
  destruct (comparison_rows_good best Hg []) as (rows & E & F).
  rewrite E. cbn [app].
  assert (Hb : good_outcome best).
  { rewrite Forall_forall in Hg. apply Hg. apply min_by_In. }
  destruct Hb as (c & p & Ec & Ep & _). rewrite Ec.
  unfold new_BestDeal. rewrite Ep. unfold new_ComparisonResponse.
  replace (3 <? length (first :: others)) with false
    by (symmetry; apply Nat.ltb_ge; exact Hlen).
  eauto.
Qed.

(** The minimum among good outcomes. *)
Lemma best_deal_min (first : SearchResponse.t)
    (others : list SearchResponse.t) :
  Forall good_outcome (first :: others) ->
  let best := min_by flt cheapest_key first others in
  exists before after,
    first :: others = before ++ best :: after
    /\ (forall x, In x before ->
          flt (cheapest_key best) (cheapest_key x) = true)
    /\ (forall x, In x (first :: others) ->
          fle (cheapest_key best) (cheapest_key x)).
Proof.
  intros Hg best.
  assert (Hk : Forall (fun x => is_nan (cheapest_key x) = false)
                      (first :: others)).
  { eapply Forall_impl; [ | exact Hg]. now intros x (c & p & _ & _ & H). }
  destruct (@min_by_split _ _ flt cheapest_key (fun k => is_nan k = false))
    with (x := first) (t := others) as (before & after & E & H1 & H2).
  - intros a b _ _. apply flt_asym.
  - intros a b c _ Hb _. now apply flt_negtrans.
  - exact Hk.
  - fold best in E, H1, H2. exists before, after.
    split; [exact E | ]. split; [exact H1 | ].
    rewrite Forall_forall in Hk.
    assert (Hbest : is_nan (cheapest_key best) = false)
      by (apply Hk; apply min_by_In).
    intros x Hx. apply fle_flt; auto.
    rewrite E in Hx. apply in_app_or in Hx.
    destruct Hx as [Hx | [<- | Hx]].
    + apply flt_asym. now apply H1.
    + destruct (flt (cheapest_key best) (cheapest_key best)) eqn:Ef;
        [ | reflexivity]. now rewrite (flt_asym _ _ Ef) in Ef.
    + now apply H2.
Qed.

Lemma site_outcomes_length (net : network) (p : FlightSearchParams.t)
    (sites : list WebsiteName) :
  forall i w, length (fst (site_outcomes net p i sites w)) = length sites.
Proof.
  induction sites as [ | site rest IH]; intros i w; [reflexivity | ].
  cbn [site_outcomes]. cbv zeta.
  match goal with
  | |- context [search_flights ?n ?q ?x] =>
      destruct (search_flights_total n q x) as (out & w2 & E)
  end.
  rewrite E. specialize (IH (S i) w2).
  destruct (site_outcomes net p (S i) rest w2) as [outs w3].
  simpl in *. now rewrite IH.
Qed.

Lemma site_outcomes_trace (net : network) (p : FlightSearchParams.t)
    (w : trace) :
  snd (site_outcomes net p 0 sites_to_check w)
  = w ++ [Get (query_text SKYSCANNER (FlightSearchParams.origin p)
                 (FlightSearchParams.destination p)
                 (FlightSearchParams.depart_date p));
          Sleep;
          Get (query_text GOOGLE (FlightSearchParams.origin p)
                 (FlightSearchParams.destination p)
                 (FlightSearchParams.depart_date p));
          Sleep;
          Get (query_text BOOKING (FlightSearchParams.origin p)
                 (FlightSearchParams.destination p)
                 (FlightSearchParams.depart_date p))].
Proof.
  unfold sites_to_check. cbn [site_outcomes Nat.ltb Nat.leb]. cbv zeta.
  destruct (search_flights_run net (FlightSearchParams.origin p)
              (FlightSearchParams.destination p)
              (FlightSearchParams.depart_date p) w (site := SKYSCANNER))
    as [o1 E1]; [discriminate | ].
  rewrite E1.
  match goal with
  | |- context [search_flights net ?q ?x] =>
      destruct (search_flights_run net (FlightSearchParams.origin p)
                  (FlightSearchParams.destination p)
                  (FlightSearchParams.depart_date p) x (site := GOOGLE))
        as [o2 E2]; [discriminate | ]
  end.
  rewrite E2.
  match goal with
  | |- context [search_flights net ?q ?x] =>
      destruct (search_flights_run net (FlightSearchParams.origin p)
                  (FlightSearchParams.destination p)
                  (FlightSearchParams.depart_date p) x (site := BOOKING))
        as [o3 E3]; [discriminate | ]
  end.
  rewrite E3. cbn [snd]. now rewrite <- !app_assoc.
Qed.

Lemma search_sites_params (net : network) (today : date)
    (p1 p2 : FlightSearchParams.t) :
  FlightSearchParams.origin p1 = FlightSearchParams.origin p2 ->
  FlightSearchParams.destination p1 = FlightSearchParams.destination p2 ->
  FlightSearchParams.depart_date p1 = FlightSearchParams.depart_date p2 ->
  forall sites i acc w,
  search_sites net today p1 i sites acc w
  = search_sites net today p2 i sites acc w.
Proof.
  intros E1 E2 E3. induction sites as [ | site rest IH]; intros i acc w;
    [reflexivity | ].
  cbn [search_sites]. rewrite E1, E2, E3.
  destruct (new_FlightSearchParams _ _ _ _ site) as [sp | e]; [ | reflexivity].
  destruct (search_flights net sp _) as [[[r | e] | e] w2]; auto.
  destruct (SearchResponse.cheapest r); auto.
Qed.

End ProgramFacts.

End FlightSearchFacts.

(** * The claims *)

Module Claims.
Import Py PyFacts FlightSearch FlightSearchFacts.

Section Claims.
Context {U : UnicodeData}.


(** C10.  Every [SearchResponse] that [search_flights] returns has
    [count] equal to the length of [results], at most 10 results, and a
    [cheapest] that, when present, is the first of the results (so one of
    them) and has a price. *)
Theorem search_response_invariant (net : network)
    (params : FlightSearchParams.t) (w w' : trace) (resp : SearchResponse.t) :
  search_flights net params w = (Return (inl resp), w') ->
  SearchResponse.count resp = length (SearchResponse.results resp)
  /\ length (SearchResponse.results resp) <= 10
  /\ forall c, SearchResponse.cheapest resp = Some c ->
       hd_error (SearchResponse.results resp) = Some c
       /\ In c (SearchResponse.results resp)
       /\ exists p, FlightResult.price c = Some p /\ p <> [].
Proof.
  intros H. apply search_flights_inv in H.
  destruct H as (cfg & query & data & _ & _ & _ & _ & ->). simpl.
  split; [reflexivity | ]. split.
  - unfold final_results. rewrite length_firstn. lia.
  - intros c Hc. pose proof (cheapest_of_first _ Hc) as Hhd.
    split; [exact Hhd | ]. split.
    + destruct (final_results _) as [ | h t]; [discriminate | ].
      injection Hhd as ->. now left.
    + apply cheapest_of_priced in Hc. destruct Hc as [_ Hp].
      unfold has_price in Hp.
      destruct (FlightResult.price c) as [p | ]; [ | discriminate].
      exists p. split; [reflexivity | ]. now destruct p.
Qed.


(** C4, at the input of the claim.  The dollar pattern is tried first and
    matches, but the class [[\d,]] takes the comma that follows the
    amount: the text extracted is "$200," and not "$200".  A text with
    only a pound amount gives that amount, a text without a currency
    symbol gives nothing. *)
Theorem extract_price_takes_trailing_comma :
  _extract_price (u "Flights from $200, also listed at £150")
  = Some (u "$200,")
  /\ _extract_price (u "Flights from $200, also listed at £150")
     <> Some (u "$200")
  /\ _extract_price (u "also listed at £150") = Some (u "£150")
  /\ _extract_price (u "Flights from 200") = None.
Proof.
  repeat split; try reflexivity. vm_compute. discriminate.
Qed.

(** C3, at a padded code.  The validator function normalises "jfk " to
    "JFK", and the field accepts "jfk" as "JFK"; but the length bounds of
    the field are checked on the value given, and "jfk " has four
    characters: the field is rejected before the function runs, and no
    parameters are constructed. *)
Theorem padded_airport_code_rejected (today : date) (date_text : str)
    (site : WebsiteName) :
  validate_airport_code (u "jfk ") = Valid (u "JFK")
  /\ origin_field (u "jfk") = inr (u "JFK")
  /\ origin_field (u "jfk ") = inl string_too_long
  /\ destination_field (u " lhr") = inl string_too_long
  /\ new_FlightSearchParams today (u "jfk ") (u "lhr") (u "2099-01-01") site
     = Raise (ValidationError
                ((u "origin", string_too_long)
                   :: field_errors (u "depart_date")
                        (depart_date_field today (u "2099-01-01"))))
  /\ forall p, new_FlightSearchParams today (u "jfk ") (u "lhr") date_text site
               <> Return p.
Proof.
  split; [reflexivity | ]. split; [reflexivity | ]. split; [reflexivity | ].
  split; [reflexivity | ]. split.
  - unfold new_FlightSearchParams.
    change (origin_field (u "jfk "))
      with (@inl field_error str string_too_long).
    change (destination_field (u "lhr")) with (@inr field_error str (u "LHR")).
    now destruct (depart_date_field today (u "2099-01-01")).
  - intros p. unfold new_FlightSearchParams.
    change (origin_field (u "jfk "))
      with (@inl field_error str string_too_long).
    destruct (destination_field (u "lhr")),
      (depart_date_field today date_text); discriminate.
Qed.


(** C1.  A comparison that succeeds, with [retained] the outcomes it
    kept: they are outcomes of Skyscanner, Google Flights and Booking.com
    in this order, at most one of each, all with a cheapest result; the
    best deal is a retained outcome whose numeric cheapest price is
    minimal, every outcome before it being strictly dearer; there is one
    comparison row for every retained outcome, flagged exactly when its
    site is the site of the best deal; the rows are sorted ascending by
    the numeric value of their price text; and [sites_checked] is the
    number of retained outcomes. *)
Theorem comparison_of_retained (net : network) (today : date)
    (params : FlightSearchParams.t) (w w' : trace)
    (r : ComparisonResponse.t) :
  search_all_sites net today params w = (Return (inl r), w') ->
  let retained := ComparisonResponse.all_results r in
  (exists sky goo boo,
     retained = sky ++ goo ++ boo
     /\ length sky <= 1 /\ length goo <= 1 /\ length boo <= 1
     /\ Forall (fun x => SearchResponse.website x = u "Skyscanner") sky
     /\ Forall (fun x => SearchResponse.website x = u "Google Flights") goo
     /\ Forall (fun x => SearchResponse.website x = u "Booking.com") boo)
  /\ Forall (fun x => has_cheapest x = true) retained
  /\ (exists best before after c p rows,
        retained = before ++ best :: after
        /\ (forall x, In x before ->
              flt (cheapest_key best) (cheapest_key x) = true)
        /\ (forall x, In x retained ->
              fle (cheapest_key best) (cheapest_key x))
        /\ SearchResponse.cheapest best = Some c
        /\ FlightResult.price c = Some p
        /\ ComparisonResponse.best_deal r
           = BestDeal.mk (SearchResponse.website best) p
               (FlightResult.url c) (FlightResult.title c)
        /\ Forall2 (is_row_of best) retained rows
        /\ Permutation (ComparisonResponse.comparison r) rows)
  /\ (forall row, In row (ComparisonResponse.comparison r) ->
        (ComparisonItem.is_best row = true
         <-> ComparisonItem.website row
             = BestDeal.website (ComparisonResponse.best_deal r)))
  /\ StronglySorted (fun a b => fle (item_key a) (item_key b))
                    (ComparisonResponse.comparison r)
  /\ ComparisonResponse.sites_checked r = length retained.
Proof.
  unfold search_all_sites.
  destruct (search_sites net today params 0 sites_to_check [] w)
    as [[all | e] w2] eqn:Es; [ | discriminate].
  intros H. injection H as H _.
  apply search_sites_kept in Es. destruct Es as (kept & -> & Hk).
  cbn [app] in H. pose proof (kept_from_good Hk) as Hg.
  destruct (compare_results_inv Hg H)
    as (first & others & rows & c & p & Eall & Hrows & Ec & Ep & ->).
  cbn [ComparisonResponse.all_results ComparisonResponse.comparison
       ComparisonResponse.best_deal ComparisonResponse.sites_checked
       BestDeal.website].
  set (best := min_by flt cheapest_key first others) in *.
  split; [ | split; [ | split; [ | split; [ | split]]]].
  - unfold sites_to_check in Hk.
    apply kept_from_cons in Hk. destruct Hk as (sky & t1 & -> & L1 & F1 & Hk).
    apply kept_from_cons in Hk. destruct Hk as (goo & t2 & -> & L2 & F2 & Hk).
    apply kept_from_cons in Hk. destruct Hk as (boo & t3 & -> & L3 & F3 & Hk).
    inversion Hk; subst. rewrite app_nil_r.
    exists sky, goo, boo. repeat split; auto;
      (eapply Forall_impl; [ | eassumption]);
      intros x (cfg & q & d & Hw & _ & Hn & _);
      simpl in Hw; injection Hw as <-; exact Hn.
  - apply has_cheapest_Forall. now apply good_has_cheapest.
  - assert (Hg' := Hg). rewrite Eall in Hg'.
    destruct (best_deal_min Hg') as (before & after & E & H1 & H2).
    fold best in E, H1, H2. rewrite <- Eall in E, H2.
    exists best, before, after, c, p, rows.
    split; [exact E | ]. split; [exact H1 | ]. split; [exact H2 | ].
    split; [exact Ec | ]. split; [exact Ep | ]. split; [reflexivity | ].
    split; [exact Hrows | apply sort_by_perm].
  - intros row Hrow. apply sort_by_In in Hrow.
    eapply Forall2_In_r in Hrow; [ | exact Hrows].
    destruct Hrow as (x & _ & (c' & p' & _ & _ & ->)).
    cbn [ComparisonItem.is_best ComparisonItem.website].
    apply str_eqb_eq.
  - apply sorted_by_float. eapply rows_keys; eauto.
  - reflexivity.
Qed.

(** C6.  With valid parameters all three sites are searched; an outcome
    that is a failure or has no cheapest result contributes nothing, the
    comparison being made of the priced outcomes alone; the comparison
    fails exactly when none of the three outcomes is priced, and the
    failure is then the one that names Skyscanner, Google Flights and
    Booking.com. *)
Theorem comparison_drops_unpriced (net : network) (today : date)
    (params : FlightSearchParams.t) (w : trace) :
  params_valid today params ->
  let outs := fst (site_outcomes net params 0 sites_to_check w) in
  length outs = 3
  /\ (forall e, priced (inr e) = [])
  /\ (forall x, SearchResponse.cheapest x = None -> priced (inl x) = [])
  /\ (forall x c, SearchResponse.cheapest x = Some c -> priced (inl x) = [x])
  /\ fst (search_all_sites net today params w)
     = compare_results (retain outs)
  /\ ((exists e, fst (search_all_sites net today params w) = Return (inr e))
      <-> Forall (fun out => priced out = []) outs)
  /\ (forall e, fst (search_all_sites net today params w) = Return (inr e) ->
      e = no_results
      /\ ErrorResponse.sites_checked e
         = Some [u "Skyscanner"; u "Google Flights"; u "Booking.com"]).
Proof.
  intros Hv outs.
  assert (Hrun : search_all_sites net today params w
                 = (compare_results (retain outs),
                    snd (site_outcomes net params 0 sites_to_check w))).
  { unfold search_all_sites. now rewrite (search_sites_spec net Hv). }
  assert (Hkept : kept_from sites_to_check (retain outs)).
  { pose proof (search_sites_spec net Hv sites_to_check 0 [] w) as E.
    apply search_sites_kept in E. destruct E as (kept & E & Hk).
    cbn [app] in E. fold outs in E. now rewrite E. }
  assert (Hgood := kept_from_good Hkept).
  assert (Hlen := kept_from_length Hkept).
  assert (Hfail : forall e, compare_results (retain outs) = Return (inr e) ->
                  retain outs = [] /\ e = no_results).
  { intros e He. destruct (retain outs) as [ | x l] eqn:Er.
    - split; [reflexivity | ]. simpl in He. now injection He as <-.
    - destruct (compare_results_ok Hgood) as [r Hr];
        [discriminate | exact Hlen | ]. congruence. }
  split; [apply site_outcomes_length | ].
  split; [reflexivity | ].
  split; [intros x Hx; unfold priced, has_cheapest; now rewrite Hx | ].
  split; [intros x c Hx; unfold priced, has_cheapest; now rewrite Hx | ].
  rewrite Hrun. cbn [fst].
  split; [reflexivity | ]. split.
  - split.
    + intros [e He]. apply Hfail in He. destruct He as [He _].
      apply Forall_forall. intros out Hout.
      destruct (priced out) as [ | x l] eqn:Ep; [reflexivity | ].
      assert (Hin : In x (retain outs)).
      { unfold retain. apply in_flat_map. exists out. split; auto.
        rewrite Ep. now left. }
      rewrite He in Hin. destruct Hin.
    + intros Hall. exists no_results.
      replace (retain outs) with (@nil SearchResponse.t); [reflexivity | ].
      symmetry. unfold retain. clear - Hall.
      induction Hall as [ | out l Hout _ IH]; [reflexivity | ].
      simpl. now rewrite Hout, IH.
  - intros e He. apply Hfail in He. destruct He as [_ ->]. now split.
Qed.

(** C9.  The [website] field of the parameters is not read: parameters
    that agree on origin, destination and departure date give the same
    result and the same trace, whatever the network answers; and with
    valid parameters the trace is the three searches of Skyscanner,
    Google Flights and Booking.com, in this order, with a pause between
    two of them. *)
Theorem comparison_ignores_website (net : network) (today : date)
    (p1 p2 : FlightSearchParams.t) (w : trace) :
  FlightSearchParams.origin p1 = FlightSearchParams.origin p2 ->
  FlightSearchParams.destination p1 = FlightSearchParams.destination p2 ->
  FlightSearchParams.depart_date p1 = FlightSearchParams.depart_date p2 ->
  search_all_sites net today p1 w = search_all_sites net today p2 w
  /\ (params_valid today p1 ->
      snd (search_all_sites net today p2 w)
      = w ++ [Get (query_text SKYSCANNER (FlightSearchParams.origin p1)
                     (FlightSearchParams.destination p1)
                     (FlightSearchParams.depart_date p1));
              Sleep;
              Get (query_text GOOGLE (FlightSearchParams.origin p1)
                     (FlightSearchParams.destination p1)
                     (FlightSearchParams.depart_date p1));
              Sleep;
              Get (query_text BOOKING (FlightSearchParams.origin p1)
                     (FlightSearchParams.destination p1)
                     (FlightSearchParams.depart_date p1))]).
Proof.
  intros E1 E2 E3.
  assert (E : search_all_sites net today p1 w = search_all_sites net today p2 w).
  { unfold search_all_sites.
    now rewrite (search_sites_params net today p1 p2 E1 E2 E3). }
  split; [exact E | ]. intros Hv. rewrite <- E.
  unfold search_all_sites. rewrite (search_sites_spec net Hv). cbn [snd].
  apply site_outcomes_trace.
Qed.


End Claims.

(** ** The claims on fixed data *)

Lemma search_response_invariant_witness :
  exists resp w',
    Demo.demo_search = (Return (inl resp), w')
    /\ SearchResponse.count resp = 3
    /\ (SearchResponse.count resp = length (SearchResponse.results resp)
        /\ length (SearchResponse.results resp) <= 10
        /\ forall c, SearchResponse.cheapest resp = Some c ->
             hd_error (SearchResponse.results resp) = Some c
             /\ In c (SearchResponse.results resp)
             /\ exists p, FlightResult.price c = Some p /\ p <> []).
Proof.
  eexists. eexists.
  match goal with
  | |- ?A /\ _ => assert (H : A) by (vm_compute; reflexivity)
  end.
  split; [exact H | ]. split; [reflexivity | ].
  exact (@search_response_invariant ascii_data Demo.demo_net
           (Demo.demo_params SKYSCANNER) [] _ _ H).
Defined.


Lemma comparison_of_retained_witness :
  exists r w',
    Demo.demo_comparison = (Return (inl r), w')
    /\ ComparisonResponse.sites_checked r = 2
    /\ BestDeal.website (ComparisonResponse.best_deal r) = u "Google Flights"
    /\ map ComparisonItem.website (ComparisonResponse.comparison r)
       = [u "Google Flights"; u "Skyscanner"]
    /\ map ComparisonItem.is_best (ComparisonResponse.comparison r)
       = [true; false]
    /\ StronglySorted (fun a b => fle (item_key (U := ascii_data) a)
                                      (item_key (U := ascii_data) b))
                      (ComparisonResponse.comparison r)
    /\ ComparisonResponse.sites_checked r
       = length (ComparisonResponse.all_results r).
Proof.
  eexists. eexists.
  match goal with
  | |- ?A /\ _ => assert (H : A) by (vm_compute; reflexivity)
  end.
  split; [exact H | ]. do 4 (split; [reflexivity | ]).
  exact (proj2 (proj2 (proj2 (proj2
           (@comparison_of_retained ascii_data Demo.demo_net
              Demo.demo_today (Demo.demo_params COMPARE) [] _ _ H))))).
Defined.

Lemma demo_params_valid (site : WebsiteName) :
  params_valid (U := ascii_data) Demo.demo_today (Demo.demo_params site).
Proof. destruct site; reflexivity. Defined.

Lemma comparison_drops_unpriced_witness :
  params_valid (U := ascii_data) Demo.demo_today (Demo.demo_params COMPARE)
  /\ length (fst (site_outcomes (U := ascii_data) Demo.demo_net
                    (Demo.demo_params COMPARE) 0 sites_to_check [])) = 3
  /\ fst Demo.demo_comparison
     = compare_results (U := ascii_data)
         (retain (fst (site_outcomes (U := ascii_data) Demo.demo_net
                         (Demo.demo_params COMPARE) 0 sites_to_check []))).
Proof.
  pose proof (@comparison_drops_unpriced ascii_data Demo.demo_net
                Demo.demo_today (Demo.demo_params COMPARE) []
                (demo_params_valid COMPARE)) as H.
  split; [exact (demo_params_valid COMPARE) | ].
  split; [exact (proj1 H) | ].
  exact (proj1 (proj2 (proj2 (proj2 (proj2 H))))).
Defined.

Lemma comparison_ignores_website_witness :
  FlightSearchParams.origin (Demo.demo_params COMPARE)
  = FlightSearchParams.origin (Demo.demo_params GOOGLE)
  /\ FlightSearchParams.destination (Demo.demo_params COMPARE)
     = FlightSearchParams.destination (Demo.demo_params GOOGLE)
  /\ FlightSearchParams.depart_date (Demo.demo_params COMPARE)
     = FlightSearchParams.depart_date (Demo.demo_params GOOGLE)
  /\ search_all_sites (U := ascii_data) Demo.demo_net Demo.demo_today
       (Demo.demo_params COMPARE) []
     = search_all_sites (U := ascii_data) Demo.demo_net Demo.demo_today
         (Demo.demo_params GOOGLE) []
  /\ snd (search_all_sites (U := ascii_data) Demo.demo_net Demo.demo_today
            (Demo.demo_params GOOGLE) [])
     = [Get (u "site:skyscanner.com direct flights JFK to LHR 2026-12-01");
        Sleep;
        Get (u "site:google.com/travel/flights direct flights JFK to LHR 2026-12-01");
        Sleep;
        Get (u "site:booking.com/flights direct JFK to LHR 2026-12-01")].
Proof.
  pose proof (@comparison_ignores_website ascii_data Demo.demo_net
                Demo.demo_today (Demo.demo_params COMPARE)
                (Demo.demo_params GOOGLE) [] eq_refl eq_refl eq_refl) as H.
  do 3 (split; [reflexivity | ]).
  split; [exact (proj1 H) | ].
  exact (proj2 H (demo_params_valid COMPARE)).
Defined.


(** ** Cases of the specification *)

(** Results priced $500, $200, none, $200 are ranked $200 (the first),
    $200 (the second), $500, none. *)
Example ranking_is_stable :
  let r (p : option str) (t : str) :=
    FlightResult.mk t (u "https://www.skyscanner.com/") [] p (u "Skyscanner")
  in
  final_results (U := ascii_data)
    [r (Some (u "$500")) (u "a"); r (Some (u "$200")) (u "b");
     r None (u "c"); r (Some (u "$200")) (u "d")]
  = [r (Some (u "$200")) (u "b"); r (Some (u "$200")) (u "d");
     r (Some (u "$500")) (u "a"); r None (u "c")].
Proof. reflexivity. Qed.

(** Three sites without a priced result give the failure that names them. *)
Example no_site_has_a_price :
  fst (search_all_sites (U := ascii_data) (fun _ _ => Timeout)
         Demo.demo_today (Demo.demo_params COMPARE) [])
  = Return (inr no_results).
Proof. reflexivity. Qed.

(** A past date and a text that is no date are rejected; today is
    accepted. *)
Example dates_rejected :
  (exists msg, validate_date (U := ascii_data) Demo.demo_today
                 (u "2026-11-02") = Invalid msg)
  /\ (exists msg, validate_date (U := ascii_data) Demo.demo_today
                    (u "2026-02-30") = Invalid msg)
  /\ (exists msg, validate_date (U := ascii_data) Demo.demo_today
                    (u "15/05/2027") = Invalid msg)
  /\ validate_date (U := ascii_data) Demo.demo_today (u "2026-11-03")
     = Valid (u "2026-11-03").
Proof. repeat split; eexists; reflexivity. Qed.




End Claims.

(** * More of what the code does

    Properties of the validators, of one search, of price extraction, of
    the comparison and of the command line, read off the code. *)

Module Extras.
Import Py PyFacts FlightSearch FlightSearchFacts Cli.

(** ** The head of a sorted list *)

Section SortHead.
Variables (A K : Type) (ltb : K -> K -> bool) (key : A -> K).
Variable ok : K -> Prop.
Hypothesis ltb_asym : forall a b, ok a -> ok b -> ltb a b = true -> ltb b a = false.
Hypothesis ltb_negtrans : forall a b c, ok a -> ok b -> ok c ->
  ltb a c = true -> ltb a b = true \/ ltb b c = true.

Lemma first_least_unique (l l1 l1' : list A) (m m' : A) (l2 l2' : list A) :
  first_least ltb key l l1 m l2 -> first_least ltb key l l1' m' l2' ->
  l1 = l1' /\ m = m' /\ l2 = l2'.
Proof.
  intros (E & H1 & H2) (E' & H1' & H2'). subst l.
  revert l1' E' H1 H1'. induction l1 as [ | a l1 IH]; intros l1' E' H1 H1'.
  - destruct l1' as [ | a' l1']; cbn [app] in E'.
    + now injection E' as -> ->.
    + injection E' as -> ->.
      assert (Hin : In m' (l1' ++ m' :: l2'))
        by (apply in_or_app; right; now left).
      specialize (H1' a' (or_introl eq_refl)).
      rewrite (H2 m' Hin) in H1'. discriminate.
  - destruct l1' as [ | a' l1']; cbn [app] in E'.
    + injection E' as -> E'.
      assert (Hin : In m (l1 ++ m :: l2))
        by (apply in_or_app; right; now left).
      rewrite E' in Hin.
      specialize (H1 m' (or_introl eq_refl)).
      rewrite (H2' m Hin) in H1. discriminate.
    + injection E' as -> E'.
      destruct (IH l1' E') as (-> & -> & ->).
      * intros y Hy. apply H1. now right.
      * intros y Hy. apply H1'. now right.
      * auto.
Qed.

Lemma sort_by_hd (l : list A) :
  Forall (fun a => ok (key a)) l -> l <> [] ->
  exists m rest l1 l2,
    sort_by ltb key l = m :: rest /\ first_least ltb key l l1 m l2.
Proof.
  induction 1 as [ | x t Hx Ht IH]; intros Hne; [congruence | ].
  cbn [sort_by]. destruct t as [ | y t'].
  - exists x, [], [], []. cbn [sort_by insert_by].
    split; [reflexivity | ]. split; [reflexivity | ].
    split; intros ? [].
  - destruct IH as (m & rest & l1 & l2 & Es & E & H1 & H2); [discriminate | ].
    rewrite Es. cbn [insert_by].
    assert (Hm : ok (key m)).
    { rewrite Forall_forall in Ht. apply Ht. rewrite E.
      apply in_or_app. right. now left. }
    destruct (ltb (key m) (key x)) eqn:Em.
    + exists m, (insert_by ltb key x rest), (x :: l1), l2.
      split; [reflexivity | ]. split; [now rewrite E | ].
      split; [ | exact H2]. intros z [<- | Hz]; auto.
    + exists x, (m :: rest), [], (y :: t').
      split; [reflexivity | ]. split; [reflexivity | ].
      split; [intros ? [] | ]. intros z Hz.
      assert (Hz' : ok (key z)) by (rewrite Forall_forall in Ht; now apply Ht).
      destruct (ltb (key z) (key x)) eqn:Ez; [ | reflexivity].
      rewrite E in Hz. apply in_app_or in Hz.
      destruct (ltb_negtrans Hz' Hm Hx Ez) as [H | H]; [ | congruence].
      destruct Hz as [Hz | [<- | Hz]].
      * rewrite (ltb_asym Hm Hz' (H1 z Hz)) in H. discriminate.
      * rewrite (ltb_asym Hm Hm H) in H. discriminate.
      * rewrite (H2 z Hz) in H. discriminate.
Qed.

End SortHead.

Section Extras.
Context {U : UnicodeData}.

(** ** The matcher on the price patterns *)

Lemma span_app_eq (f : char -> bool) (s : str) :
  s = fst (span f s) ++ snd (span f s).
Proof.
  induction s as [ | c t IH]; [reflexivity | ]. simpl.
  destruct (f c); [ | reflexivity].
  destruct (span f t) as [a b]. simpl in *. now rewrite <- IH.
Qed.

Lemma span_Forall (f : char -> bool) (s : str) :
  Forall (fun c => f c = true) (fst (span f s)).
Proof.
  induction s as [ | c t IH]; [constructor | ]. simpl.
  destruct (f c) eqn:E; [ | constructor].
  destruct (span f t) as [a b]. simpl in *. now constructor.
Qed.

Lemma span_rest (f : char -> bool) (s : str) :
  match snd (span f s) with
  | c :: _ => f c = false
  | [] => True
  end.
Proof.
  induction s as [ | c t IH]; [exact I | ]. simpl.
  destruct (f c) eqn:E; [ | exact E].
  now destruct (span f t) as [a b].
Qed.

(** The greedy star of a one-character class goes first to the end of
    the longest run of the class. *)
Lemma star_Chr_hd (f : char -> bool) :
  forall s fuel i, length s <= fuel ->
  exists l,
    star_aux (matches (Chr f)) fuel (i, s)
    = (i + length (fst (span f s)), snd (span f s)) :: l.
Proof.
  assert (Hstep : forall i c t,
            matches (Chr f) (i, c :: t) = if f c then [(S i, t)] else [])
    by reflexivity.
  assert (Hnil : forall i, matches (Chr f) (i, []) = []) by reflexivity.
  generalize dependent (matches (Chr f)). intros step Hstep Hnil.
  induction s as [ | c t IH]; intros fuel i Hf.
  - destruct fuel; simpl; rewrite ?Hnil, Nat.add_0_r; simpl; eauto.
  - destruct fuel as [ | n]; [simpl in Hf; lia | ].
    cbn [star_aux span]. rewrite Hstep. destruct (f c).
    + cbn [flat_map snd length].
      replace (length t <? S (length t)) with true
        by (symmetry; apply Nat.ltb_lt; lia).
      destruct (IH n (S i)) as [l E]; [simpl in Hf; lia | ].
      rewrite E. destruct (span f t) as [a b]. cbn [fst snd length app].
      rewrite Nat.add_succ_r. eauto.
    + cbn [flat_map app fst snd length]. rewrite Nat.add_0_r. eauto.
Qed.

Lemma fraction_hd (i : nat) (rest : str) :
  hd_error (matches (Opt (Seq (Chr is_dot) (Seq (Chr is_digit) (Chr is_digit))))
              (i, rest))
  = Some (i + length (fraction_at rest), skipn (length (fraction_at rest)) rest).
Proof.
  unfold Opt, fraction_at. cbn [matches].
  destruct rest as [ | c [ | d1 [ | d2 t]]]; cbn [flat_map app hd_error];
    try (destruct (is_dot c); cbn [flat_map app hd_error andb length skipn];
         rewrite ?Nat.add_0_r; reflexivity).
  - cbn [length skipn]. now rewrite Nat.add_0_r.
  - destruct (is_dot c); cbn [flat_map app hd_error andb length skipn];
      rewrite ?Nat.add_0_r; try reflexivity.
    destruct (is_digit d1); cbn [flat_map app hd_error andb length skipn];
      rewrite ?Nat.add_0_r; reflexivity.
  - destruct (is_dot c); cbn [flat_map app hd_error andb length skipn];
      rewrite ?Nat.add_0_r; try reflexivity.
    destruct (is_digit d1); cbn [flat_map app hd_error andb length skipn];
      rewrite ?Nat.add_0_r; try reflexivity.
    destruct (is_digit d2); cbn [flat_map app hd_error andb length skipn];
      rewrite ?Nat.add_0_r; try reflexivity.
    f_equal. f_equal. lia.
Qed.

Lemma matches_Seq (a b : regex) (p : pos) :
  matches (Seq a b) p = flat_map (matches b) (matches a p).
Proof. reflexivity. Qed.

Lemma matches_Chr (f : char -> bool) (i : nat) (s : str) :
  matches (Chr f) (i, s)
  = match s with
    | c :: t => if f c then [(S i, t)] else []
    | [] => []
    end.
Proof. reflexivity. Qed.

Lemma matches_Plus_Chr (f : char -> bool) (i : nat) (s : str) :
  matches (Plus (Chr f)) (i, s)
  = match s with
    | c :: t =>
        if f c then star_aux (matches (Chr f)) (length t) (S i, t) else []
    | [] => []
    end.
Proof.
  unfold Plus. rewrite matches_Seq, matches_Chr.
  destruct s as [ | c t]; [reflexivity | ].
  destruct (f c); [ | reflexivity]. cbn [flat_map]. now rewrite app_nil_r.
Qed.

(** The first match of a price pattern at a position is the price at the
    head of the text. *)
Lemma price_pattern_hd (sym : char -> bool) (i : nat) (text : str) :
  hd_error (matches (price_pattern sym) (i, text))
  = option_map (fun p => (i + length p, skipn (length p) text))
               (price_at sym text).
Proof.
  unfold price_pattern, price_at.
  change (fun c : char => is_digit c || is_comma c) with amount_char.
  rewrite matches_Seq, matches_Chr.
  destruct text as [ | c t]; [reflexivity | ].
  destruct (sym c); [ | reflexivity]. cbn [flat_map]. rewrite app_nil_r.
  rewrite matches_Seq, matches_Plus_Chr.
  destruct t as [ | d t']; [reflexivity | ].
  cbn [span]. destruct (amount_char d) eqn:Ed; [ | reflexivity].
  destruct (@star_Chr_hd amount_char t' (length t') (S (S i)) (le_n _))
    as [l E].
  rewrite E. pose proof (span_app_eq amount_char t') as Ht.
  destruct (span amount_char t') as [a b]. cbn [fst snd] in *.
  cbn [flat_map option_map].
  pose proof (fraction_hd (S (S i) + length a) b) as Hh.
  destruct (matches (Opt (Seq (Chr is_dot)
                            (Seq (Chr is_digit) (Chr is_digit))))
              (S (S i) + length a, b)) as [ | h r];
    [discriminate Hh | ].
  cbn [hd_error app] in *. rewrite Hh. f_equal. f_equal.
  - cbn [length]. rewrite length_app. lia.
  - cbn [length skipn]. rewrite length_app. subst t'.
    rewrite skipn_app. rewrite (skipn_all2 a) by lia.
    cbn [app]. f_equal. lia.
Qed.

Lemma fraction_at_prefix (rest : str) :
  exists post, rest = fraction_at rest ++ post.
Proof.
  unfold fraction_at. destruct rest as [ | c [ | d1 [ | d2 t]]];
    try (eexists; reflexivity).
  destruct (is_dot c && is_digit d1 && is_digit d2); eexists; reflexivity.
Qed.

Lemma price_at_prefix (sym : char -> bool) (text p : str) :
  price_at sym text = Some p -> exists post, text = p ++ post.
Proof.
  unfold price_at. destruct text as [ | c t]; [discriminate | ].
  destruct (sym c); [ | discriminate].
  pose proof (span_app_eq amount_char t) as Ht.
  destruct (span amount_char t) as [[ | d body] rest]; [discriminate | ].
  cbn [fst snd] in Ht. intros H. injection H as <-.
  destruct (fraction_at_prefix rest) as [post E]. exists post.
  rewrite Ht at 1. rewrite E at 1. cbn [app]. now rewrite <- !app_assoc.
Qed.

Lemma slice_cons (c : char) (t : str) (a b : nat) :
  slice (c :: t) (S a) (S b) = slice t a b.
Proof. reflexivity. Qed.

Lemma slice_prefix (p post : str) : slice (p ++ post) 0 (length p) = p.
Proof.
  unfold slice. cbn [skipn]. rewrite Nat.sub_0_r.
  rewrite firstn_app, Nat.sub_diag, firstn_all. cbn [firstn].
  apply app_nil_r.
Qed.

(** Searching for a price pattern finds the leftmost price. *)
Lemma search_from_leftmost (sym : char -> bool) :
  forall s i,
  option_map (fun ab => slice s (fst ab - i) (snd ab - i))
             (search_from (price_pattern sym) i s)
  = leftmost_price sym s.
Proof.
  induction s as [ | c t IH]; intros i;
    pose proof (price_pattern_hd sym i) as H.
  - specialize (H []). cbn [search_from leftmost_price].
    destruct (matches (price_pattern sym) _) as [ | [j s'] l].
    + reflexivity.
    + cbn in H. discriminate H.
  - specialize (H (c :: t)). cbn [search_from leftmost_price].
    destruct (matches (price_pattern sym) _) as [ | [j s'] l].
    + destruct (price_at sym (c :: t)); [cbn in H; discriminate H | ].
      rewrite <- (IH (S i)).
      destruct (search_from (price_pattern sym) (S i) t) as [[a b] | ] eqn:E;
        [ | reflexivity].
      destruct (search_from_accepts _ _ _ E) as (pre & w & post & _ & -> & -> & _).
      cbn [option_map fst snd]. f_equal.
      replace (S i + length pre - i) with (S (length pre)) by lia.
      replace (S i + length pre + length w - i)
        with (S (length pre + length w)) by lia.
      rewrite slice_cons. f_equal; lia.
    + destruct (price_at sym (c :: t)) as [p | ] eqn:Ep;
        [ | cbn in H; discriminate H].
      cbn [hd_error option_map] in H. injection H as -> _.
      cbn [option_map fst snd]. f_equal.
      destruct (price_at_prefix _ _ Ep) as [post Epost]. rewrite Epost.
      rewrite Nat.sub_diag.
      replace (i + length p - i) with (length p) by lia.
      apply slice_prefix.
Qed.

Lemma re_search_leftmost (sym : char -> bool) (text : str) :
  re_search (price_pattern sym) text = leftmost_price sym text.
Proof.
  rewrite <- (search_from_leftmost sym text 0). unfold re_search.
  destruct (search_from (price_pattern sym) 0 text) as [[a b] | ];
    [ | reflexivity].
  cbn [option_map fst snd]. now rewrite !Nat.sub_0_r.
Qed.

Lemma extract_price_scan (text : str) : _extract_price text = scan_price text.
Proof.
  unfold _extract_price, patterns, scan_price. cbn [first_search].
  rewrite !re_search_leftmost.
  destruct (leftmost_price is_dollar text); [reflexivity | ].
  destruct (leftmost_price is_pound text); [reflexivity | ].
  now destruct (leftmost_price is_euro text).
Qed.

(** ** What the scanner finds *)

Lemma fraction_at_cases (rest : str) :
  fraction_at rest = []
  \/ exists d1 d2, fraction_at rest = [46%N; d1; d2]
                   /\ is_digit d1 = true /\ is_digit d2 = true.
Proof.
  unfold fraction_at. destruct rest as [ | c [ | d1 [ | d2 t]]]; auto.
  destruct (is_dot c) eqn:Ec; [ | now left].
  destruct (is_digit d1) eqn:E1; [ | now left].
  destruct (is_digit d2) eqn:E2; [ | now left].
  right. exists d1, d2. apply N.eqb_eq in Ec. subst c. auto.
Qed.

Lemma price_at_shape (sym : char -> bool) (text p : str) :
  price_at sym text = Some p ->
  exists c body frac post,
    text = p ++ post /\ p = c :: body ++ frac /\ sym c = true
    /\ body <> [] /\ Forall (fun d => amount_char d = true) body
    /\ (frac = []
        \/ exists d1 d2, frac = [46%N; d1; d2]
                         /\ is_digit d1 = true /\ is_digit d2 = true)
    /\ (frac = [] ->
        match post with d :: _ => amount_char d = false | [] => True end).
Proof.
  unfold price_at. destruct text as [ | c t]; [discriminate | ].
  destruct (sym c) eqn:Ec; [ | discriminate].
  pose proof (span_app_eq amount_char t) as Ht.
  pose proof (span_Forall amount_char t) as Hb.
  pose proof (span_rest amount_char t) as Hr.
  destruct (span amount_char t) as [[ | d body] rest]; [discriminate | ].
  cbn [fst snd] in *. intros H. injection H as <-.
  destruct (fraction_at_prefix rest) as [post E].
  exists c, (d :: body), (fraction_at rest), post.
  split; [ | split; [reflexivity | split; [exact Ec | split;
    [discriminate | split; [exact Hb | split;
      [apply fraction_at_cases | ]]]]]].
  - rewrite Ht at 1. rewrite E at 1. cbn [app]. now rewrite <- !app_assoc.
  - intros E0. rewrite E0 in E. cbn [app] in E. now subst post.
Qed.

Lemma price_at_begins (sym : char -> bool) (text : str) :
  price_at sym text = None
  <-> forall c d t, text = c :: d :: t -> sym c && amount_char d = false.
Proof.
  unfold price_at. destruct text as [ | c [ | d t]].
  - split; [intros _ ? ? ? E; discriminate E | reflexivity].
  - split; [intros _ ? ? ? E; discriminate E | ].
    intros _. now destruct (sym c).
  - cbn [span]. split.
    + intros H c' d' t' E. injection E as <- <- <-.
      destruct (sym c); [ | reflexivity].
      destruct (amount_char d); [ | reflexivity].
      now destruct (span amount_char t).
    + intros H. specialize (H c d t eq_refl).
      destruct (sym c); [ | reflexivity].
      cbn [andb] in H. now rewrite H.
Qed.

Lemma leftmost_price_begins (sym : char -> bool) (text : str) :
  leftmost_price sym text = None <-> ~ price_begins sym text.
Proof.
  induction text as [ | a t IH]; cbn [leftmost_price].
  - split; [ | reflexivity]. intros _ (pre & c & d & post & E & _).
    now destruct pre as [ | ? [ | ? ?]].
  - destruct (price_at sym (a :: t)) as [p | ] eqn:Ep.
    + split; [discriminate | ]. intros H. exfalso. apply H.
      destruct (price_at_shape _ _ Ep)
        as (c & body & frac & post & E & -> & Hc & Hne & Hb & _).
      destruct body as [ | d body]; [congruence | ].
      exists [], c, d, (body ++ frac ++ post).
      split; [ | split; [exact Hc | now inversion Hb]].
      rewrite E. cbn [app]. now rewrite <- app_assoc.
    + rewrite IH. split.
      * intros H (pre & c & d & post & E & Hc & Hd). apply H.
        destruct pre as [ | a' pre].
        -- pose proof (proj1 (price_at_begins sym (a :: t)) Ep c d post E)
             as Hb.
           rewrite Hc, Hd in Hb. discriminate.
        -- injection E as <- ->. exists pre, c, d, post. auto.
      * intros H (pre & c & d & post & -> & Hc & Hd). apply H.
        exists (a :: pre), c, d, post. auto.
Qed.

Lemma leftmost_price_shape (sym : char -> bool) (text p : str) :
  leftmost_price sym text = Some p ->
  exists pre post,
    text = pre ++ p ++ post /\ price_at sym (p ++ post) = Some p
    /\ ~ price_begins sym (pre ++ firstn 1 p).
Proof.
  induction text as [ | a t IH]; cbn [leftmost_price].
  - cbn [price_at]. discriminate.
  - destruct (price_at sym (a :: t)) as [q | ] eqn:Ep.
    + intros H. injection H as ->.
      destruct (price_at_prefix _ _ Ep) as [post E].
      exists [], post. cbn [app]. rewrite <- E. split; [reflexivity | ].
      split; [exact Ep | ].
      intros (pre & c & d & post' & E' & _).
      destruct p as [ | x p]; [now destruct pre as [ | ? [ | ? ?]] | ].
      cbn [firstn] in E'. now destruct pre as [ | ? [ | ? ?]].
    + intros H. destruct (IH H) as (pre & post & -> & Hp & Hn).
      exists (a :: pre), post. split; [reflexivity | ].
      split; [exact Hp | ].
      intros (pre' & c & d & post' & E' & Hc & Hd).
      destruct pre' as [ | a' pre'].
      * pose proof (proj1 (price_at_begins sym _) Ep) as Hb. clear Ep.
        cbn [app] in E'.
        destruct (pre ++ firstn 1 p) as [ | d0 r] eqn:Er;
          [discriminate E' | ].
        injection E' as E1 E2 E3. subst c d post'.
        assert (Et : exists t', pre ++ p ++ post = d0 :: t').
        { destruct pre as [ | x pre].
          - destruct p as [ | x p]; [discriminate Er | ].
            cbn [firstn app] in Er. injection Er as <- _. cbn [app]. eauto.
          - cbn [app] in Er. injection Er as <- _. cbn [app]. eauto. }
        destruct Et as [t' Et]. specialize (Hb a d0 t').
        rewrite Et in Hb. specialize (Hb eq_refl).
        rewrite Hc, Hd in Hb. discriminate.
      * apply Hn. cbn [app] in E'. injection E' as <- E'.
        exists pre', c, d, post'. auto.
Qed.

(** ** A number below zero needs a minus sign *)

Lemma binary_round_aux_sign (prec emax : Z) (mx ex : Z) (lx : location) :
  (0 <= mx)%Z -> flt (binary_round_aux prec emax false mx ex lx) zero = false.
Proof.
  intros Hm. unfold binary_round_aux.
  destruct (shr_fexp prec emax mx ex lx) as [mrs' e'].
  destruct (shr_fexp prec emax _ e' loc_Exact) as [mrs'' e''].
  destruct (shr_m mrs'') as [ | p | p]; try reflexivity.
  now destruct (e'' <=? emax - prec)%Z.
Qed.

Lemma float_of_decimal_sign (m : N) (e : Z) :
  flt (float_of_decimal false m e) zero = false.
Proof.
  unfold float_of_decimal. destruct m as [ | p]; [reflexivity | ].
  destruct (Z.leb_spec 0 e) as [He | He].
  - unfold binary_normalize. cbn [cond_Zopp].
    assert (Hpos : (0 < Z.pos p * 10 ^ e)%Z)
      by (apply Z.mul_pos_pos; [lia | apply Z.pow_pos_nonneg; lia]).
    destruct (Z.pos p * 10 ^ e)%Z as [ | q | q]; try lia.
    unfold binary_round. destruct (shl_align _ _ _) as [mz ez].
    apply binary_round_aux_sign. lia.
  - unfold SFdiv. destruct (SFdiv_core_binary _ _ _ _ _ _) as [[mz ez] lz] eqn:E.
    cbn [xorb].
    unfold SFdiv_core_binary in E.
    set (m' := match _ with Z0 => Z.pos p | Z.pos _ => _ | Z.neg _ => 0%Z end)
      in E.
    assert (Hm' : (0 <= m')%Z).
    { subst m'. destruct (_ - _ - _)%Z; try lia. apply Z.shiftl_nonneg. lia. }
    generalize (Z_div_mod m' (Z.pos (Z.to_pos (10 ^ (- e)))) eq_refl).
    destruct (Z.div_eucl m' _) as [q r]. intros [Hq Hr].
    injection E as <- _ _. apply binary_round_aux_sign. nia.
Qed.

Lemma parse_sign_true (s r : str) : parse_sign s = (true, r) -> s = 45%N :: r.
Proof.
  destruct s as [ | d t]; [discriminate | ].
  destruct (N.eq_dec d 45) as [-> | N1];
    [intros H; now injection H as <- | ].
  destruct (N.eq_dec d 43) as [-> | N2]; [discriminate | ].
  rewrite (parse_sign_other t N1 N2). discriminate.
Qed.

Lemma strtod_decimal_sign (s r : str) (x : float) :
  strtod_decimal s = Some (x, r) -> flt x zero = true -> In 45%N s.
Proof.
  unfold strtod_decimal. destruct (parse_sign s) as [neg s1] eqn:Es.
  destruct (span is_ascii_digit s1) as [ip s2].
  destruct (match s2 with 46%N :: t => _ | _ => _ end) as [fp s3].
  destruct (ip ++ fp); [discriminate | ].
  destruct (parse_exponent s3) as [ex s4]. intros H. injection H as <- _.
  destruct neg.
  - intros _. apply parse_sign_true in Es. subst s. now left.
  - now rewrite float_of_decimal_sign.
Qed.

Lemma parse_inf_or_nan_sign (s r : str) (x : float) :
  parse_inf_or_nan s = Some (x, r) -> flt x zero = true -> In 45%N s.
Proof.
  unfold parse_inf_or_nan. destruct (parse_sign s) as [neg s1] eqn:Es.
  assert (Hs : neg = true -> In 45%N s).
  { intros ->. apply parse_sign_true in Es. subst s. now left. }
  destruct (ci_prefix (u "inf") s1) as [r1 | ].
  - destruct (ci_prefix (u "inity") r1); intros H; injection H as <- _;
      destruct neg; auto; discriminate.
  - destruct (ci_prefix (u "nan") s1) as [r1 | ]; [ | discriminate].
    intros H. injection H as <- _. discriminate.
Qed.

Lemma to_ascii_decimal_minus (s : str) :
  In 45%N (to_ascii_decimal s) -> In 45%N s.
Proof.
  intros H. induction s as [ | d t IH];
    cbn [to_ascii_decimal In] in *; [auto | ].
  destruct (d <? 127)%N; cbn [In] in *.
  - destruct H as [<- | H]; [now left | right; auto].
  - destruct (is_space d).
    + cbn [In] in H. destruct H as [H | H]; [discriminate | right; auto].
    + destruct (decimal d) as [v | ] eqn:E; cbn [In] in H.
      * destruct H as [H | H]; [ | right; auto].
        apply decimal_lt in E. unfold char in *. lia.
      * destruct H as [H | []]. discriminate.
Qed.

Lemma float_of_str_sign (s : str) (x : float) :
  float_of_str s = Some x -> flt x zero = true -> In 45%N s.
Proof.
  unfold float_of_str.
  destruct (strip_underscores 0%N (to_ascii_decimal s)) as [s1 | ] eqn:E1;
    [ | discriminate].
  destruct (c_strip s1) as [ | c0 s2] eqn:E2; [discriminate | ].
  intros H Hx.
  assert (Hin : In 45%N (c0 :: s2)).
  { unfold strtod in H.
    destruct (strtod_decimal (c0 :: s2)) as [[y r] | ] eqn:E3.
    - destruct r; [ | discriminate]. injection H as <-.
      eapply strtod_decimal_sign; eauto.
    - destruct (parse_inf_or_nan (c0 :: s2)) as [[y r] | ] eqn:E4;
        [ | discriminate].
      destruct r; [ | discriminate]. injection H as <-.
      eapply parse_inf_or_nan_sign; eauto. }
  apply to_ascii_decimal_minus.
  eapply strip_underscores_In; [exact E1 | ]. apply c_strip_In.
  now rewrite E2.
Qed.

Lemma parse_price_sign (o : option str) :
  flt (_parse_price o) zero = true -> exists s, o = Some s /\ In 45%N s.
Proof.
  unfold _parse_price. destruct o as [s | ]; [ | discriminate].
  destruct (truthy s); [ | discriminate]. cbn [negb].
  destruct (float_of_str (re_sub symbols [] s)) as [x | ] eqn:E;
    [ | discriminate].
  intros Hx. exists s. split; [reflexivity | ].
  apply (float_of_str_sign _ E) in Hx.
  unfold symbols in Hx. rewrite re_sub_Chr in Hx. now apply filter_In in Hx.
Qed.

Lemma price_char_not_minus (c : char) : price_char c = true -> c <> 45%N.
Proof. intros H ->. vm_compute in H. discriminate. Qed.

(** ** The results of one site *)

Lemma parse_item_url (site_config : WebsiteConfig.t) (item : Hit.t)
    (r : FlightResult.t) :
  In r (parse_item site_config item) ->
  (startswith (FlightResult.url r) (u "http://")
   || startswith (FlightResult.url r) (u "https://")) = true.
Proof.
  unfold parse_item. cbn [parse_items].
  destruct (truthy (get_default (Hit.url item))); [ | intros []].
  cbn [negb]. cbv iota.
  destruct (contains _ _); [ | intros []].
  destruct (new_FlightResult _ _ _ _ _) as [r' | e] eqn:E; [ | intros []].
  apply new_FlightResult_fields in E. destruct E as [-> E].
  intros [<- | []]. exact E.
Qed.

Lemma truncate_length (d : str) : length (truncate d) <= 203.
Proof.
  unfold truncate. destruct (Nat.ltb_spec 200 (length d)) as [H | H]; [ | lia].
  rewrite length_app, length_firstn.
  change (length (u "...")) with 3. lia.
Qed.

Lemma firstn_incl (A : Type) (n : nat) (l : list A) (x : A) :
  In x (firstn n l) -> In x l.
Proof.
  revert l. induction n as [ | n IH]; intros l; [intros [] | ].
  destruct l as [ | a l]; [intros [] | ].
  cbn [firstn In]. intros [H | H]; auto.
Qed.

Lemma final_results_In (results : list FlightResult.t) (r : FlightResult.t) :
  In r (final_results results) -> In r results.
Proof.
  unfold final_results, results_with_price, results_without_price.
  intros H. apply firstn_incl in H. apply in_app_or in H.
  destruct H as [H | H].
  - apply sort_by_In in H. now apply filter_In in H.
  - now apply filter_In in H.
Qed.

Lemma filter_split_perm (A : Type) (f : A -> bool) (l : list A) :
  Permutation (filter f l ++ filter (fun a => negb (f a)) l) l.
Proof.
  induction l as [ | a l IH]; [reflexivity | ]. cbn [filter].
  destruct (f a); cbn [negb app].
  - now apply perm_skip.
  - apply Permutation_sym. apply Permutation_cons_app.
    now apply Permutation_sym.
Qed.

Lemma ranked_perm (results : list FlightResult.t) :
  Permutation (results_with_price results ++ results_without_price results)
              results.
Proof.
  unfold results_with_price, results_without_price.
  rewrite sort_by_perm. apply filter_split_perm.
Qed.

Lemma extracted_shape (text p : str) :
  _extract_price text = Some p ->
  exists pre c body frac post,
    text = pre ++ p ++ post /\ p = c :: body ++ frac
    /\ is_currency c = true /\ body <> []
    /\ Forall (fun d => amount_char d = true) body
    /\ (frac = []
        \/ exists d1 d2, frac = [46%N; d1; d2]
                         /\ is_digit d1 = true /\ is_digit d2 = true)
    /\ (frac = [] ->
        match post with d :: _ => amount_char d = false | [] => True end).
Proof.
  rewrite extract_price_scan. unfold scan_price.
  assert (Hs : forall sym,
            (forall c, sym c = true -> is_currency c = true) ->
            leftmost_price sym text = Some p ->
            exists pre c body frac post,
              text = pre ++ p ++ post /\ p = c :: body ++ frac
              /\ is_currency c = true /\ body <> []
              /\ Forall (fun d => amount_char d = true) body
              /\ (frac = []
                  \/ exists d1 d2, frac = [46%N; d1; d2]
                                   /\ is_digit d1 = true /\ is_digit d2 = true)
              /\ (frac = [] ->
                  match post with
                  | d :: _ => amount_char d = false
                  | [] => True
                  end)).
  { intros sym Hsym H. apply leftmost_price_shape in H.
    destruct H as (pre & post & -> & Hp & _).
    apply price_at_shape in Hp.
    destruct Hp as (c & body & frac & post' & E & -> & Hc & Hne & Hb & Hf & Hm).
    apply app_inv_head in E. subst post'.
    exists pre, c, body, frac, post. repeat split; auto. }
  destruct (leftmost_price is_dollar text) as [q | ] eqn:E1.
  { intros H. injection H as ->. apply (Hs is_dollar); auto.
    intros c Hc. unfold is_currency. now rewrite Hc. }
  destruct (leftmost_price is_pound text) as [q | ] eqn:E2.
  { intros H. injection H as ->. apply (Hs is_pound); auto.
    intros c Hc. unfold is_currency. rewrite Hc. now rewrite orb_true_r. }
  apply Hs. intros c Hc. unfold is_currency. rewrite Hc.
  now rewrite !orb_true_r.
Qed.

Lemma sorted_hd_least (A : Type) (R : A -> A -> Prop) (c : A) (l : list A) :
  StronglySorted R (c :: l) -> forall r, In r l -> R c r.
Proof.
  intros H r Hr. apply StronglySorted_inv in H. destruct H as [_ H].
  rewrite Forall_forall in H. now apply H.
Qed.

Lemma fle_refl (x : float) : is_nan x = false -> fle x x.
Proof.
  intros H. apply fle_flt; auto.
  destruct (flt x x) eqn:E; [ | reflexivity].
  now rewrite (flt_asym _ _ E) in E.
Qed.

Lemma unpriced_key (r : FlightResult.t) :
  has_price r = false -> price_key r = inf.
Proof.
  unfold has_price, price_key, truthy_opt, _parse_price.
  destruct (FlightResult.price r) as [p | ]; [ | reflexivity].
  now intros ->.
Qed.

Lemma cheapest_least (data : payload) (site_config : WebsiteConfig.t)
    (c : FlightResult.t) :
  cheapest_of (_parse_results data site_config) = Some c ->
  forall r, In r (_parse_results data site_config) ->
  fle (price_key c) (price_key r).
Proof.
  intros Hc r Hr.
  assert (Hkc : is_nan (price_key c) = false).
  { apply cheapest_of_priced in Hc. destruct Hc as [Hc _].
    eapply parse_results_key; eauto. }
  destruct (has_price r) eqn:Hp.
  - pose proof (sorted_by_float price_key (priced_keys data site_config)) as Hs.
    rewrite cheapest_of_hd in Hc. unfold results_with_price in Hc.
    assert (Hin : In r (sort_by flt price_key
                          (filter has_price (_parse_results data site_config)))).
    { apply sort_by_In. apply filter_In. now split. }
    destruct (sort_by flt price_key _) as [ | h t]; [discriminate | ].
    injection Hc as ->. destruct Hin as [<- | Hin].
    + now apply fle_refl.
    + eapply sorted_hd_least in Hs; eauto.
  - rewrite (unpriced_key _ Hp). now apply fle_inf.
Qed.

Lemma cheapest_none (results : list FlightResult.t) :
  cheapest_of results = None
  <-> Forall (fun r => has_price r = false) results.
Proof.
  rewrite cheapest_of_hd. unfold results_with_price. split.
  - intros H. apply Forall_forall. intros r Hr.
    destruct (has_price r) eqn:Hp; [ | reflexivity].
    assert (Hin : In r (sort_by flt price_key (filter has_price results))).
    { apply sort_by_In. apply filter_In. now split. }
    destruct (sort_by flt price_key _); [destruct Hin | discriminate].
  - intros H.
    assert (E : filter has_price results = []).
    { induction H as [ | r l Hr _ IH]; [reflexivity | ].
      cbn [filter]. now rewrite Hr. }
    now rewrite E.
Qed.

(** ** The comparison, for any parameters *)

Lemma revalidated (today : date) (p sp : FlightSearchParams.t)
    (site0 site : WebsiteName) :
  new_FlightSearchParams today (FlightSearchParams.origin p)
    (FlightSearchParams.destination p) (FlightSearchParams.depart_date p)
    site0 = Return sp ->
  new_FlightSearchParams today (FlightSearchParams.origin p)
    (FlightSearchParams.destination p) (FlightSearchParams.depart_date p)
    site
  = new_FlightSearchParams today (FlightSearchParams.origin sp)
      (FlightSearchParams.destination sp) (FlightSearchParams.depart_date sp)
      site
  /\ params_valid today sp.
Proof.
  intros H. pose proof (@new_params_valid _ _ _ _ _ _ _ H) as Hv.
  split; [ | exact Hv]. rewrite (@params_valid_site _ _ _ site Hv).
  apply new_params_inv in H.
  destruct H as (o' & d' & dd' & E1 & E2 & E3 & ->).
  unfold new_FlightSearchParams. now rewrite E1, E2, E3.
Qed.

Lemma search_sites_revalidated (net : network) (today : date)
    (p sp : FlightSearchParams.t) (site0 : WebsiteName) :
  new_FlightSearchParams today (FlightSearchParams.origin p)
    (FlightSearchParams.destination p) (FlightSearchParams.depart_date p)
    site0 = Return sp ->
  forall sites i acc w,
  search_sites net today p i sites acc w
  = search_sites net today sp i sites acc w.
Proof.
  intros H. induction sites as [ | site rest IH]; intros i acc w;
    [reflexivity | ].
  cbn [search_sites]. destruct (@revalidated today p sp site0 site H) as [-> _].
  destruct (new_FlightSearchParams _ _ _ _ site) as [q | e]; [ | reflexivity].
  destruct (search_flights net q _) as [[[r | e] | e] w2]; auto.
  destruct (SearchResponse.cheapest r); auto.
Qed.

Lemma kept_compare (kept : list SearchResponse.t) :
  kept_from sites_to_check kept ->
  exists out, compare_results kept = Return out.
Proof.
  intros Hk. pose proof (@kept_from_good _ _ _ Hk) as Hg.
  pose proof (@kept_from_length _ _ _ Hk) as Hl.
  destruct kept as [ | x l]; [simpl; eauto | ].
  destruct (@compare_results_ok _ _ Hg) as [r Hr]; [discriminate | exact Hl | ].
  eauto.
Qed.

Lemma search_all_sites_returns (net : network) (today : date)
    (p sp : FlightSearchParams.t) (w : trace) :
  new_FlightSearchParams today (FlightSearchParams.origin p)
    (FlightSearchParams.destination p) (FlightSearchParams.depart_date p)
    SKYSCANNER = Return sp ->
  exists out,
    search_all_sites net today p w
    = (Return out, snd (site_outcomes net sp 0 sites_to_check w)).
Proof.
  intros H. unfold search_all_sites.
  rewrite (@search_sites_revalidated net today p sp SKYSCANNER H).
  destruct (@revalidated today p sp SKYSCANNER SKYSCANNER H) as [_ Hv].
  pose proof (@search_sites_spec _ net today sp Hv sites_to_check 0 [] w) as E.
  rewrite E. cbv beta iota. apply search_sites_kept in E.
  destruct E as (kept & E & Hk). cbn [app] in E |- *. rewrite E.
  destruct (@kept_compare kept Hk) as [out ->]. eauto.
Qed.

Lemma search_all_sites_raises (net : network) (today : date)
    (p : FlightSearchParams.t) (w : trace) (e : exn) :
  new_FlightSearchParams today (FlightSearchParams.origin p)
    (FlightSearchParams.destination p) (FlightSearchParams.depart_date p)
    SKYSCANNER = Raise e ->
  search_all_sites net today p w = (Raise e, w).
Proof.
  intros H. unfold search_all_sites, sites_to_check. cbn [search_sites].
  now rewrite H.
Qed.

(** ** The rows of a comparison *)

Lemma kept_from_sites (sites : list WebsiteName)
    (kept : list SearchResponse.t) :
  kept_from sites kept ->
  forall x, In x kept -> exists site, In site sites /\ outcome_of site x.
Proof.
  induction 1 as [ | site sites kept _ IH | site sites r kept Ho _ IH];
    intros x Hx.
  - destruct Hx.
  - destruct (IH x Hx) as (s & Hs & Hox). exists s. split; [now right | auto].
  - destruct Hx as [<- | Hx].
    + exists site. split; [now left | auto].
    + destruct (IH x Hx) as (s & Hs & Hox). exists s.
      split; [now right | auto].
Qed.

Lemma outcome_site_name (site site' : WebsiteName) (x y : SearchResponse.t) :
  outcome_of site x -> outcome_of site' y ->
  SearchResponse.website x = SearchResponse.website y -> site = site'.
Proof.
  intros (c1 & q1 & d1 & W1 & _ & N1 & _) (c2 & q2 & d2 & W2 & _ & N2 & _).
  rewrite N1, N2.
  destruct site, site'; try discriminate; try reflexivity;
    injection W1 as <-; injection W2 as <-; intros E; vm_compute in E;
    discriminate E.
Qed.

Lemma kept_from_NoDup (sites : list WebsiteName)
    (kept : list SearchResponse.t) :
  NoDup sites -> kept_from sites kept ->
  NoDup (map SearchResponse.website kept).
Proof.
  intros Hn Hk. induction Hk as [ | site sites kept Hk IH
                                   | site sites r kept Ho Hk IH].
  - constructor.
  - apply IH. now inversion Hn.
  - inversion Hn as [ | ? ? Hnot Hn']; subst. cbn [map]. constructor.
    + intros Hin. apply in_map_iff in Hin. destruct Hin as (y & Ey & Hy).
      destruct (@kept_from_sites _ _ Hk y Hy) as (s & Hs & Hoy).
      symmetry in Ey. rewrite (@outcome_site_name _ _ _ _ Ho Hoy Ey) in Hnot.
      contradiction.
    + now apply IH.
Qed.

Lemma rows_websites (best : SearchResponse.t) (all : list SearchResponse.t)
    (rows : list ComparisonItem.t) :
  Forall2 (is_row_of best) all rows ->
  map ComparisonItem.website rows = map SearchResponse.website all.
Proof.
  induction 1 as [ | x row l rows (c & p & _ & _ & ->) _ IH];
    [reflexivity | ].
  cbn [map]. now rewrite IH.
Qed.

Lemma rows_flag (best : SearchResponse.t) (all : list SearchResponse.t)
    (rows : list ComparisonItem.t) (row : ComparisonItem.t) :
  Forall2 (is_row_of best) all rows -> In row rows ->
  ComparisonItem.is_best row
  = str_eqb (ComparisonItem.website row) (SearchResponse.website best).
Proof.
  intros F Hr. destruct (@Forall2_In_r _ _ _ _ _ _ F Hr) as (x & _ & (c & p & _ & _ & ->)).
  reflexivity.
Qed.

Lemma Forall2_In_l (A B : Type) (R : A -> B -> Prop) (l : list A)
    (l' : list B) (x : A) :
  Forall2 R l l' -> In x l -> exists y, In y l' /\ R x y.
Proof.
  induction 1 as [ | a b l l' Hab _ IH]; intros Hx; [destruct Hx | ].
  destruct Hx as [<- | Hx].
  - exists b. split; [now left | exact Hab].
  - destruct (IH Hx) as (y & Hy & Hr). exists y. split; [now right | exact Hr].
Qed.

(** The first row of the sorted comparison is the row of the best deal. *)
Lemma comparison_head (first : SearchResponse.t)
    (others : list SearchResponse.t) (rows : list ComparisonItem.t) :
  let best := min_by flt cheapest_key first others in
  Forall good_outcome (first :: others) ->
  Forall2 (is_row_of best) (first :: others) rows ->
  exists row rest,
    sort_by flt item_key rows = row :: rest /\ is_row_of best best row.
Proof.
  intros best Hg F.
  pose proof (@rows_keys _ _ _ _ Hg F) as Hk.
  assert (Hne : rows <> []) by (inversion F; discriminate).
  destruct (@sort_by_hd _ _ flt item_key (fun k => is_nan k = false))
    with (l := rows) as (m & rest & l1 & l2 & Es & E & H1 & H2); auto.
  { intros a b _ _. apply flt_asym. }
  { intros a b c _ Hb _. now apply flt_negtrans. }
  exists m, rest. split; [exact Es | ].
  rewrite E in F. apply Forall2_app_inv_r in F.
  destruct F as (a1 & a2' & F1 & F2 & Ea).
  inversion F2 as [ | x m' a2 l2' Hxm F2' E1 E2]; subst a2' m' l2'.
  assert (Hall : Forall (fun x => is_nan (cheapest_key x) = false)
                        (first :: others)).
  { eapply Forall_impl; [ | exact Hg]. now intros y (c & p & _ & _ & H). }
  destruct (@min_by_split _ _ flt cheapest_key (fun k => is_nan k = false))
    with (x := first) (t := others) as (b1 & b2 & Eb & B1 & B2).
  { intros a b _ _. apply flt_asym. }
  { intros a b c _ Hb _. now apply flt_negtrans. }
  { exact Hall. }
  fold best in Eb, B1, B2.
  pose proof (@item_key_row _ _ _ _ Hxm) as Km.
  assert (Hx : first_least flt cheapest_key (first :: others) a1 x a2).
  { split; [exact Ea | ]. rewrite <- Km. split.
    - intros y Hy. destruct (@Forall2_In_l _ _ _ _ _ _ F1 Hy) as (y' & Hy' & Hr).
      rewrite <- (@item_key_row _ _ _ _ Hr). now apply H1.
    - intros y Hy. destruct (@Forall2_In_l _ _ _ _ _ _ F2' Hy) as (y' & Hy' & Hr).
      rewrite <- (@item_key_row _ _ _ _ Hr). now apply H2. }
  assert (Hb : first_least flt cheapest_key (first :: others) b1 best b2)
    by (split; [exact Eb | split; assumption]).
  destruct (@first_least_unique _ _ _ _ _ _ _ _ _ _ _ Hx Hb) as (_ & Ex & _).
  rewrite Ex in Hxm. exact Hxm.
Qed.

(** ** The fields of the parameters *)

Lemma origin_field_iff (v o : str) :
  origin_field v = inr o
  <-> length v = 3 /\ three_letters (upper (strip v)) = true
      /\ o = upper (strip v).
Proof.
  unfold origin_field, str_field. rewrite validate_airport_code_spec.
  destruct (Nat.ltb_spec (length v) 3) as [H1 | H1].
  { split; [discriminate | intros (H & _); lia]. }
  destruct (Nat.ltb_spec 3 (length v)) as [H2 | H2].
  { split; [discriminate | intros (H & _); lia]. }
  destruct (three_letters (upper (strip v))).
  - split.
    + intros H. injection H as <-. repeat split; lia.
    + now intros (_ & _ & ->).
  - split; [discriminate | now intros (_ & H & _)].
Qed.

Lemma ascii_letter_facts (c : char) :
  is_ascii_letter c = true ->
  is_space c = false /\ upper_char c = [to_ascii_upper c]
  /\ is_ascii_upper (to_ascii_upper c) = true.
Proof.
  unfold is_ascii_letter, is_ascii_upper, is_ascii_lower, in_range.
  intros H.
  assert (E : exists k, (k < 26)%nat
                        /\ (c = N.of_nat (65 + k) \/ c = N.of_nat (97 + k))).
  { apply orb_true_iff in H.
    destruct H as [H | H]; apply andb_true_iff in H; destruct H as [H1 H2];
      apply N.leb_le in H1, H2.
    - exists (N.to_nat c - 65). lia.
    - exists (N.to_nat c - 97). lia. }
  destruct E as (k & Hk & [-> | ->]);
    do 26 (destruct k as [ | k]; [now vm_compute | ]); lia.
Qed.

Lemma strip_letters (a b c : char) :
  is_space a = false -> is_space c = false -> strip [a; b; c] = [a; b; c].
Proof.
  intros Ha Hc. unfold strip, rstrip. cbn [lstrip]. rewrite Ha.
  cbn [rev app lstrip]. rewrite Hc. reflexivity.
Qed.

Lemma date_field_inv (today : date) (dd dd' : str) :
  depart_date_field today dd = inr dd' ->
  dd' = dd /\ exists dt, strptime_Ymd dd = Some dt /\ date_ltb dt today = false.
Proof.
  unfold depart_date_field, str_field, validate_date.
  destruct (strptime_Ymd dd) as [dt | ]; [ | discriminate].
  destruct (date_ltb dt today) eqn:E; [discriminate | ].
  intros H. injection H as <-. eauto.
Qed.

Lemma date_ltb_trans (a b c : date) :
  date_ltb a b = false -> date_ltb b c = false -> date_ltb a c = false.
Proof.
  unfold date_ltb. destruct a as [ya ma da], b as [yb mb db], c as [yc mc dc].
  cbn [year month day]. intros H1 H2.
  apply orb_false_iff in H1, H2. destruct H1 as [A1 A2], H2 as [B1 B2].
  apply N.ltb_ge in A1, B1.
  apply andb_false_iff in A2, B2.
  apply orb_false_iff. split; [apply N.ltb_ge; lia | ].
  apply andb_false_iff.
  destruct (N.eqb_spec ya yc) as [Eac | Nac]; [right | now left].
  assert (Eab : ya = yb) by lia. assert (Ebc : yb = yc) by lia.
  destruct A2 as [A2 | A2]; [apply N.eqb_neq in A2; lia | ].
  destruct B2 as [B2 | B2]; [apply N.eqb_neq in B2; lia | ].
  apply orb_false_iff in A2, B2. destruct A2 as [A2 A3], B2 as [B2 B3].
  apply N.ltb_ge in A2, B2. apply andb_false_iff in A3, B3.
  apply orb_false_iff. split; [apply N.ltb_ge; lia | ].
  apply andb_false_iff.
  destruct (N.eqb_spec ma mc) as [Em | Nm]; [right | now left].
  destruct A3 as [A3 | A3]; [apply N.eqb_neq in A3; lia | ].
  destruct B3 as [B3 | B3]; [apply N.eqb_neq in B3; lia | ].
  apply N.ltb_ge in A3, B3. apply N.ltb_ge. lia.
Qed.

(** X1.  The airport-code validator succeeds exactly when the value,
    trimmed and put in upper case, is three letters A to Z, and returns
    that text; otherwise it fails with a message quoting the normalised
    text.  A value it returns has three characters and is returned
    unchanged when validated again. *)
Theorem airport_code_normal_form (v : str) :
  validate_airport_code v
  = (if three_letters (upper (strip v)) then Valid (upper (strip v))
     else Invalid (u "Invalid airport code: " ++ upper (strip v)
                     ++ u ". Must be 3 letters (e.g., JFK)"))
  /\ (forall o, validate_airport_code v = Valid o ->
        o = upper (strip v) /\ three_letters o = true /\ length o = 3
        /\ validate_airport_code o = Valid o).
Proof.
  split; [apply validate_airport_code_spec | ].
  intros o. rewrite validate_airport_code_spec.
  destruct (three_letters (upper (strip v))) eqn:E; [ | discriminate].
  intros H. injection H as <-.
  destruct (three_letters_fix _ E) as [Hl Hu].
  split; [reflexivity | ]. split; [exact E | ]. split; [exact Hl | ].
  rewrite validate_airport_code_spec, Hu, E. reflexivity.
Qed.

(** X2.  Parameters that the constructor returns have an origin and a
    destination of three letters A to Z, which are the given values
    trimmed and in upper case, the departure date as it was given, which
    parses to a day not before the current one, and the given website;
    constructing them again from their own fields gives the same
    parameters. *)
Theorem params_invariant (today : date) (o d dd : str) (site : WebsiteName)
    (p : FlightSearchParams.t) :
  new_FlightSearchParams today o d dd site = Return p ->
  three_letters (FlightSearchParams.origin p) = true
  /\ three_letters (FlightSearchParams.destination p) = true
  /\ FlightSearchParams.origin p = upper (strip o)
  /\ FlightSearchParams.destination p = upper (strip d)
  /\ FlightSearchParams.depart_date p = dd
  /\ FlightSearchParams.website p = site
  /\ (exists dt, strptime_Ymd dd = Some dt /\ date_ltb dt today = false)
  /\ new_FlightSearchParams today (FlightSearchParams.origin p)
       (FlightSearchParams.destination p) (FlightSearchParams.depart_date p)
       (FlightSearchParams.website p) = Return p.
Proof.
  intros H. pose proof (@new_params_valid _ _ _ _ _ _ _ H) as Hv.
  apply new_params_inv in H.
  destruct H as (o' & d' & dd' & E1 & E2 & E3 & ->).
  apply origin_field_iff in E1. destruct E1 as (_ & T1 & ->).
  unfold destination_field in E2. fold origin_field in E2.
  apply origin_field_iff in E2. destruct E2 as (_ & T2 & ->).
  apply date_field_inv in E3. destruct E3 as (-> & Hd).
  cbn [FlightSearchParams.origin FlightSearchParams.destination
       FlightSearchParams.depart_date FlightSearchParams.website].
  repeat split; auto.
Qed.

(** X3.  The origin and destination fields accept a value exactly when it
    has three characters and, trimmed and in upper case, is three letters
    A to Z; a value of another length is rejected for its length before
    it is trimmed.  Three ASCII letters in any case are accepted and
    returned as capitals. *)
Theorem airport_field_accepts (v : str) :
  (forall o, origin_field v = inr o
             <-> length v = 3 /\ three_letters (upper (strip v)) = true
                 /\ o = upper (strip v))
  /\ destination_field v = origin_field v
  /\ (length v < 3 -> origin_field v = inl string_too_short)
  /\ (3 < length v -> origin_field v = inl string_too_long)
  /\ (forall a b c,
        v = [a; b; c] -> is_ascii_letter a = true ->
        is_ascii_letter b = true -> is_ascii_letter c = true ->
        origin_field v
        = inr [to_ascii_upper a; to_ascii_upper b; to_ascii_upper c]).
Proof.
  split; [intros o; apply origin_field_iff | ].
  split; [reflexivity | ]. split; [ | split].
  - intros H. unfold origin_field, str_field.
    now replace (length v <? 3) with true by (symmetry; now apply Nat.ltb_lt).
  - intros H. unfold origin_field, str_field.
    replace (length v <? 3) with false by (symmetry; apply Nat.ltb_ge; lia).
    now replace (3 <? length v) with true by (symmetry; now apply Nat.ltb_lt).
  - intros a b c -> Ha Hb Hc.
    destruct (ascii_letter_facts _ Ha) as (Sa & Ua & Ta).
    destruct (ascii_letter_facts _ Hb) as (Sb & Ub & Tb).
    destruct (ascii_letter_facts _ Hc) as (Sc & Uc & Tc).
    assert (E : upper (strip [a; b; c])
                = [to_ascii_upper a; to_ascii_upper b; to_ascii_upper c]).
    { rewrite (@strip_letters a b c Sa Sc). unfold upper. cbn [flat_map].
      now rewrite Ua, Ub, Uc. }
    apply origin_field_iff. rewrite E. cbn [three_letters length].
    now rewrite Ta, Tb, Tc.
Qed.

(** X4.  A date that the validator accepts on some day is accepted on
    every earlier day, and a date it rejects as past is rejected on every
    later day; a text that is no date is rejected whatever the day. *)
Theorem date_validity_monotone (today earlier : date) (v : str) :
  date_ltb today earlier = false ->
  (validate_date today v = Valid v -> validate_date earlier v = Valid v)
  /\ (validate_date earlier v = Invalid (u "Date cannot be in the past: " ++ v)
      -> validate_date today v
         = Invalid (u "Date cannot be in the past: " ++ v))
  /\ (strptime_Ymd v = None ->
      validate_date today v = validate_date earlier v).
Proof.
  intros Hle. unfold validate_date.
  destruct (strptime_Ymd v) as [dt | ].
  - destruct (date_ltb dt today) eqn:E1, (date_ltb dt earlier) eqn:E2;
      try (repeat split; congruence).
    rewrite (@date_ltb_trans _ _ _ E1 Hle) in E2. discriminate.
  - repeat split; congruence.
Qed.

(** ** One search *)

(** X5.  A search of one site never raises.  In comparison mode it makes
    no request and returns the failure that points to [search_all_sites];
    for any other site it makes exactly one request, whose query is the
    template of the site filled with the origin, the destination and the
    date. *)
Theorem search_flights_requests (net : network)
    (params : FlightSearchParams.t) (w : trace) :
  let site := FlightSearchParams.website params in
  let query :=
    query_text site (FlightSearchParams.origin params)
      (FlightSearchParams.destination params)
      (FlightSearchParams.depart_date params) in
  (site = COMPARE ->
   search_flights net params w
   = (Return (inr (ErrorResponse.mk
                     (u "Use search_all_sites() for comparison mode")
                     (Some (u "Call search_all_sites() instead of search_flights()"))
                     None)), w))
  /\ (site <> COMPARE ->
      exists out,
        search_flights net params w = (Return out, w ++ [Get query])
        /\ requests_made (w ++ [Get query]) = S (requests_made w)).
Proof.
  destruct params as [o d dd site]. cbn zeta.
  cbn [FlightSearchParams.origin FlightSearchParams.destination
       FlightSearchParams.depart_date FlightSearchParams.website].
  split.
  - intros ->. reflexivity.
  - intros Hs. destruct (@search_flights_run _ net site o d dd w Hs) as [out E].
    exists out. split; [exact E | ].
    unfold requests_made. rewrite filter_app, length_app. cbn. lia.
Qed.

(** X6.  What the network answers decides the outcome of a search of one
    site: a payload gives a response, a timeout gives the failure that
    names the 30 seconds, any other failure of the request gives a
    failure that repeats its text after "Network error: ", and any other
    exception one that repeats it after "Unexpected error: "; all of them
    are returned, with a suggestion and without a list of sites. *)
Theorem search_flights_outcomes (net : network) (o d dd : str)
    (site : WebsiteName) (w : trace) :
  site <> COMPARE ->
  let out := fst (search_flights net (FlightSearchParams.mk o d dd site) w) in
  match net (requests_made w) (query_text site o d dd) with
  | Json data => exists resp, out = Return (inl resp)
  | Timeout =>
      out = Return (inr (ErrorResponse.mk
                           (u "Search request timed out after 30 seconds")
                           (Some (u "Try again or check your internet connection"))
                           None))
  | RequestException e =>
      out = Return (inr (ErrorResponse.mk
                           (u "Network error: " ++ e)
                           (Some (u "Check your internet connection and API key"))
                           None))
  | OtherException e =>
      out = Return (inr (ErrorResponse.mk
                           (u "Unexpected error: " ++ e)
                           (Some (u "Contact support if this persists"))
                           None))
  end.
Proof.
  intros Hs out. subst out. unfold search_flights.
  cbn [FlightSearchParams.website FlightSearchParams.origin
       FlightSearchParams.destination FlightSearchParams.depart_date].
  destruct (WEBSITES site) as [cfg | ] eqn:Ew;
    [ | destruct site; try discriminate; congruence].
  replace (WebsiteName_eqb site COMPARE) with false
    by (destruct site; try reflexivity; congruence).
  rewrite (@format_query site cfg o d dd Ew).
  destruct (net _ _); cbn [fst]; eauto.
Qed.

(** X7.  Every result of a response comes from a hit of the payload and
    belongs to the site searched: it carries the display name of the
    site, its URL begins with http:// or https:// and contains the domain
    of the site up to case, its description has at most 203 characters,
    and its price, if it has one, is a currency symbol followed by at
    least one more character. *)
Theorem response_results_belong (net : network)
    (params : FlightSearchParams.t) (w w' : trace) (resp : SearchResponse.t) :
  search_flights net params w = (Return (inl resp), w') ->
  exists site_config data,
    WEBSITES (FlightSearchParams.website params) = Some site_config
    /\ net (requests_made w) (SearchResponse.query resp) = Json data
    /\ SearchResponse.website resp = WebsiteConfig.name site_config
    /\ forall r, In r (SearchResponse.results resp) ->
         FlightResult.website r = SearchResponse.website resp
         /\ (startswith (FlightResult.url r) (u "http://")
             || startswith (FlightResult.url r) (u "https://")) = true
         /\ contains (lower (FlightResult.url r))
                     (WebsiteConfig.domain site_config) = true
         /\ length (FlightResult.description r) <= 203
         /\ (FlightResult.price r = None
             \/ exists c rest,
                  FlightResult.price r = Some (c :: rest)
                  /\ is_currency c = true /\ rest <> [])
         /\ exists item,
              In item (items_of data)
              /\ parse_item site_config item = [r].
Proof.
  intros H. apply search_flights_inv in H.
  destruct H as (cfg & query & data & Ew & _ & En & _ & ->).
  exists cfg, data. cbn [SearchResponse.website SearchResponse.query
                         SearchResponse.results].
  split; [exact Ew | ]. split; [exact En | ]. split; [reflexivity | ].
  intros r Hr. apply final_results_In in Hr.
  rewrite parse_results_flat_map in Hr. apply in_flat_map in Hr.
  destruct Hr as (item & Hitem & Hr).
  pose proof (@parse_item_url cfg item r Hr) as Hurl.
  pose proof (@parse_item_inv _ cfg item r Hr) as (E1 & _ & Hdom & Er).
  split; [now rewrite Er | ]. split; [exact Hurl | ].
  split; [now rewrite Er | ]. split; [rewrite Er; apply truncate_length | ].
  split; [ | eauto].
  rewrite Er. cbn [FlightResult.price].
  destruct (_extract_price _) as [p | ] eqn:Ep; [right | now left].
  apply extracted_shape in Ep.
  destruct Ep as (pre & c & body & frac & post & _ & -> & Hc & Hne & _).
  exists c, (body ++ frac). split; [reflexivity | ]. split; [exact Hc | ].
  now destruct body.
Qed.

(** X8.  The results of a response are the first ten of a rearrangement
    of the results extracted from the payload, and [count] is the number
    of extracted results when there are at most ten and ten otherwise:
    dividing the results into priced and unpriced ones loses none. *)
Theorem response_count (net : network) (params : FlightSearchParams.t)
    (w w' : trace) (resp : SearchResponse.t) :
  search_flights net params w = (Return (inl resp), w') ->
  exists site_config data ranked,
    WEBSITES (FlightSearchParams.website params) = Some site_config
    /\ net (requests_made w) (SearchResponse.query resp) = Json data
    /\ Permutation ranked (_parse_results data site_config)
    /\ SearchResponse.results resp = firstn 10 ranked
    /\ SearchResponse.count resp
       = Nat.min 10 (length (_parse_results data site_config))
    /\ (length (_parse_results data site_config) <= 10 ->
        Permutation (SearchResponse.results resp)
                    (_parse_results data site_config)).
Proof.
  intros H. apply search_flights_inv in H.
  destruct H as (cfg & query & data & Ew & _ & En & _ & ->).
  set (results := _parse_results data cfg).
  exists cfg, data,
    (results_with_price results ++ results_without_price results).
  cbn [SearchResponse.query SearchResponse.results SearchResponse.count].
  pose proof (ranked_perm results) as Hp.
  split; [exact Ew | ]. split; [exact En | ]. split; [exact Hp | ].
  split; [reflexivity | ]. split.
  - unfold final_results. rewrite length_firstn.
    now rewrite (Permutation_length Hp).
  - intros Hl. unfold final_results. rewrite firstn_all2; [exact Hp | ].
    now rewrite (Permutation_length Hp).
Qed.

(** X9.  The cheapest result of a response is a result extracted from the
    payload that has a price, and no extracted result, kept among the
    first ten or not, has a smaller numeric price; there is no cheapest
    result exactly when no extracted result has a price. *)
Theorem cheapest_is_least (net : network) (params : FlightSearchParams.t)
    (w w' : trace) (resp : SearchResponse.t) :
  search_flights net params w = (Return (inl resp), w') ->
  exists site_config data,
    WEBSITES (FlightSearchParams.website params) = Some site_config
    /\ net (requests_made w) (SearchResponse.query resp) = Json data
    /\ (SearchResponse.cheapest resp = None
        <-> Forall (fun r => has_price r = false)
                   (_parse_results data site_config))
    /\ forall c, SearchResponse.cheapest resp = Some c ->
         In c (_parse_results data site_config)
         /\ has_price c = true
         /\ forall r, In r (_parse_results data site_config) ->
              fle (price_key c) (price_key r).
Proof.
  intros H. apply search_flights_inv in H.
  destruct H as (cfg & query & data & Ew & _ & En & _ & ->).
  exists cfg, data. cbn [SearchResponse.query SearchResponse.cheapest].
  split; [exact Ew | ]. split; [exact En | ].
  split; [apply cheapest_none | ].
  intros c Hc. destruct (@cheapest_of_priced _ _ _ Hc) as [Hin Hp].
  split; [exact Hin | ]. split; [exact Hp | ].
  now apply cheapest_least.
Qed.

(** X10.  A payload without the key web, without the key results under
    it, or with an empty list of results is no failure: the search
    returns a response with no results, no cheapest result and count 0. *)
Theorem empty_payload_response (net : network) (o d dd : str)
    (site : WebsiteName) (w : trace) (data : payload) :
  site <> COMPARE ->
  net (requests_made w) (query_text site o d dd) = Json data ->
  web data = None
  \/ (exists ws, web data = Some ws
                 /\ (results ws = None \/ results ws = Some [])) ->
  exists site_config,
    WEBSITES site = Some site_config
    /\ fst (search_flights net (FlightSearchParams.mk o d dd site) w)
       = Return (inl (SearchResponse.mk (WebsiteConfig.name site_config)
                        (query_text site o d dd) [] None 0)).
Proof.
  intros Hs En Hd.
  assert (Ei : items_of data = []).
  { unfold items_of.
    destruct Hd as [-> | (ws & -> & [-> | ->])]; reflexivity. }
  unfold search_flights.
  cbn [FlightSearchParams.website FlightSearchParams.origin
       FlightSearchParams.destination FlightSearchParams.depart_date].
  destruct (WEBSITES site) as [cfg | ] eqn:Ew;
    [ | destruct site; try discriminate; congruence].
  replace (WebsiteName_eqb site COMPARE) with false
    by (destruct site; try reflexivity; congruence).
  rewrite (@format_query site cfg o d dd Ew), En.
  exists cfg. split; [reflexivity | ].
  unfold _parse_results. rewrite Ei. reflexivity.
Qed.

(** ** Extraction and value of a price *)

Lemma price_begins_currency (text : str) :
  price_begins is_currency text
  <-> price_begins is_dollar text \/ price_begins is_pound text
      \/ price_begins is_euro text.
Proof.
  unfold price_begins, is_currency. split.
  - intros (pre & c & d & post & E & Hc & Hd).
    apply orb_true_iff in Hc. destruct Hc as [Hc | Hc];
      [apply orb_true_iff in Hc; destruct Hc as [Hc | Hc] | ].
    + left. exists pre, c, d, post. auto.
    + right. left. exists pre, c, d, post. auto.
    + right. right. exists pre, c, d, post. auto.
  - intros [H | [H | H]]; destruct H as (pre & c & d & post & E & Hc & Hd);
      exists pre, c, d, post; rewrite Hc, ?orb_true_r; auto.
Qed.

Lemma leftmost_price_head (sym : char -> bool) (text p : str) :
  leftmost_price sym text = Some p ->
  exists c rest, p = c :: rest /\ sym c = true.
Proof.
  intros H. apply leftmost_price_shape in H.
  destruct H as (pre & post & _ & Hp & _). apply price_at_shape in Hp.
  destruct Hp as (c & body & frac & post' & _ & -> & Hc & _). eauto.
Qed.

Lemma leftmost_price_found (sym : char -> bool) (text : str) :
  price_begins sym text ->
  exists c rest, leftmost_price sym text = Some (c :: rest) /\ sym c = true.
Proof.
  intros H. destruct (leftmost_price sym text) as [p | ] eqn:E.
  - destruct (leftmost_price_head _ _ E) as (c & rest & -> & Hc). eauto.
  - apply leftmost_price_begins in E. contradiction.
Qed.

Lemma leftmost_price_occurs (sym : char -> bool) (text p : str) :
  leftmost_price sym text = Some p -> price_begins sym text.
Proof.
  intros H. apply leftmost_price_shape in H.
  destruct H as (pre & post & -> & Hp & _). apply price_at_shape in Hp.
  destruct Hp as (c & body & frac & post' & E & -> & Hc & Hne & Hb & _).
  destruct body as [ | d body]; [congruence | ].
  exists pre, c, d, (body ++ frac ++ post).
  split; [ | split; [exact Hc | now inversion Hb]].
  cbn [app]. now rewrite <- !app_assoc.
Qed.

Lemma leftmost_price_absent (sym : char -> bool) (text : str) :
  Forall (fun c => sym c = false) text -> leftmost_price sym text = None.
Proof.
  induction 1 as [ | c t Hc _ IH]; [reflexivity | ].
  cbn [leftmost_price price_at]. now rewrite Hc.
Qed.

(** X11.  Price extraction is a scan from the left: the leftmost dollar
    sign directly followed by a digit or a comma is taken with the
    longest run of digits and commas after it and with the point and two
    digits that follow this run, if any; a pound price is looked for only
    in a text without a dollar price, and a euro price only in a text
    with neither. *)
Theorem extract_price_is_scan (text : str) :
  _extract_price text = scan_price text.
Proof. apply extract_price_scan. Qed.

(** X12.  Price extraction finds nothing exactly when no currency symbol
    of the text is directly followed by a digit or a comma. *)
Theorem extract_price_none (text : str) :
  _extract_price text = None <-> ~ price_begins is_currency text.
Proof.
  rewrite extract_price_scan, price_begins_currency. unfold scan_price.
  destruct (leftmost_price is_dollar text) as [p | ] eqn:E1.
  { split; [discriminate | ]. intros H. exfalso. apply H. left.
    eapply leftmost_price_occurs; eauto. }
  destruct (leftmost_price is_pound text) as [p | ] eqn:E2.
  { split; [discriminate | ]. intros H. exfalso. apply H. right. left.
    eapply leftmost_price_occurs; eauto. }
  destruct (leftmost_price is_euro text) as [p | ] eqn:E3.
  { split; [discriminate | ]. intros H. exfalso. apply H. right. right.
    eapply leftmost_price_occurs; eauto. }
  split; [ | reflexivity]. intros _ [H | [H | H]].
  - now apply leftmost_price_begins in E1.
  - now apply leftmost_price_begins in E2.
  - now apply leftmost_price_begins in E3.
Qed.

(** X13.  An extracted price is a part of the text: a currency symbol, a
    run of digits and commas that is not empty, and possibly a point and
    two digits.  When there is no such fraction the run is as long as it
    can be: the text does not go on with a digit or a comma, so a comma
    that follows the amount belongs to the price. *)
Theorem extracted_price_shape (text p : str) :
  _extract_price text = Some p ->
  exists pre c body frac post,
    text = pre ++ p ++ post /\ p = c :: body ++ frac
    /\ is_currency c = true /\ body <> []
    /\ Forall (fun d => amount_char d = true) body
    /\ (frac = []
        \/ exists d1 d2, frac = [46%N; d1; d2]
                         /\ is_digit d1 = true /\ is_digit d2 = true)
    /\ (frac = [] ->
        match post with d :: _ => amount_char d = false | [] => True end).
Proof. apply extracted_shape. Qed.

(** X14.  The currencies are tried in the order dollar, pound, euro,
    wherever they stand in the text: a text with a dollar price gives a
    price in dollars, a text with a pound price and no dollar price one in
    pounds, and a text with only a euro price one in euros. *)
Theorem extract_price_priority (text : str) :
  (price_begins is_dollar text ->
   exists rest, _extract_price text = Some (36%N :: rest))
  /\ (~ price_begins is_dollar text -> price_begins is_pound text ->
      exists rest, _extract_price text = Some (163%N :: rest))
  /\ (~ price_begins is_dollar text -> ~ price_begins is_pound text ->
      price_begins is_euro text ->
      exists rest, _extract_price text = Some (8364%N :: rest)).
Proof.
  rewrite extract_price_scan. unfold scan_price.
  split; [ | split].
  - intros H. destruct (leftmost_price_found H) as (c & rest & -> & Hc).
    apply N.eqb_eq in Hc. subst c. eauto.
  - intros N1 H. apply leftmost_price_begins in N1. rewrite N1.
    destruct (leftmost_price_found H) as (c & rest & -> & Hc).
    apply N.eqb_eq in Hc. subst c. eauto.
  - intros N1 N2 H. apply leftmost_price_begins in N1, N2. rewrite N1, N2.
    destruct (leftmost_price_found H) as (c & rest & -> & Hc).
    apply N.eqb_eq in Hc. subst c. eauto.
Qed.

(** X15.  The numeric value of an extracted price is never NaN and never
    below zero, so it lies between zero and positive infinity; this holds
    of the price of every result extracted from a payload.  In general a
    price text is valued below zero only if it has a minus sign. *)
Theorem extracted_price_range (text : str) :
  let k := _parse_price (_extract_price text) in
  (is_nan k = false /\ flt k zero = false /\ fle k inf)
  /\ (forall data site_config r,
        In r (_parse_results data site_config) ->
        is_nan (price_key r) = false /\ flt (price_key r) zero = false)
  /\ (forall o, flt (_parse_price o) zero = true ->
        exists s, o = Some s /\ In 45%N s).
Proof.
  assert (Hx : forall t,
            is_nan (_parse_price (_extract_price t)) = false
            /\ flt (_parse_price (_extract_price t)) zero = false).
  { intros t. split; [apply extracted_not_nan | ].
    destruct (flt (_parse_price (_extract_price t)) zero) eqn:E;
      [ | reflexivity].
    apply parse_price_sign in E. destruct E as (s & Es & Hin).
    apply extract_price_chars in Es. rewrite Forall_forall in Es.
    now destruct (price_char_not_minus (Es _ Hin)). }
  cbn zeta. split; [ | split].
  - destruct (Hx text) as [H1 H2]. repeat split; auto. now apply fle_inf.
  - intros data cfg r Hr. apply parse_results_price in Hr.
    destruct Hr as [t E]. unfold price_key. rewrite E. apply Hx.
  - apply parse_price_sign.
Qed.

(** X16.  A currency symbol followed by commas only is extracted as a
    price: it counts as a price, since the text is not empty, but its
    numeric value is positive infinity, as for no price at all. *)
Theorem price_without_digits (c : char) (n : nat) :
  is_currency c = true ->
  let p := c :: repeat 44%N (S n) in
  _extract_price p = Some p /\ truthy p = true
  /\ _parse_price (Some p) = inf /\ _parse_price None = inf.
Proof.
  intros Hc p.
  assert (Ha : Forall (fun d => amount_char d = true) (repeat 44%N (S n))).
  { apply Forall_forall. intros d Hd. apply repeat_spec in Hd. subst d.
    unfold amount_char. apply orb_true_r. }
  assert (Hat : forall sym, sym c = true -> leftmost_price sym p = Some p).
  { intros sym Hs. subst p.
    assert (Es : span amount_char (repeat 44%N (S n))
                 = (repeat 44%N (S n), [])).
    { pose proof (@span_app amount_char _ [] Ha) as E.
      rewrite app_nil_r in E. apply E. intros ? ? E'. discriminate E'. }
    unfold leftmost_price, price_at. rewrite Hs, Es.
    cbn [repeat fraction_at]. now rewrite app_nil_r. }
  assert (Hno : forall sym, sym c = false -> sym 44%N = false ->
                leftmost_price sym p = None).
  { intros sym H1 H2. apply leftmost_price_absent. constructor; [exact H1 | ].
    apply Forall_forall. intros d Hd. apply repeat_spec in Hd. now subst d. }
  split; [ | split; [reflexivity | split; [ | reflexivity]]].
  - rewrite extract_price_scan. unfold scan_price.
    destruct (is_dollar c) eqn:E1; [now rewrite (Hat is_dollar E1) | ].
    rewrite (Hno is_dollar E1 eq_refl).
    destruct (is_pound c) eqn:E2; [now rewrite (Hat is_pound E2) | ].
    rewrite (Hno is_pound E2 eq_refl).
    apply Hat. unfold is_currency in Hc. now rewrite E1, E2 in Hc.
  - unfold _parse_price. subst p. cbn [truthy negb]. unfold symbols.
    rewrite re_sub_Chr.
    replace (filter _ (c :: repeat 44%N (S n))) with (@nil char);
      [reflexivity | ].
    symmetry. cbn [filter]. fold (is_currency c). rewrite Hc. cbn [orb negb].
    generalize (S n). intros m.
    induction m as [ | m IH]; [reflexivity | exact IH].
Qed.

(** ** The comparison *)

Lemma three_requests (net : network) (p : FlightSearchParams.t) (w : trace) :
  requests_made (snd (site_outcomes net p 0 sites_to_check w))
  = requests_made w + 3.
Proof.
  rewrite site_outcomes_trace. unfold requests_made.
  rewrite filter_app, length_app. reflexivity.
Qed.

(** X17.  A comparison validates the parameters again before it searches.
    When they are no longer valid, as when the date has become a past
    date, it raises the validation error before any request or pause;
    otherwise it makes three requests and returns a comparison or a
    failure.  It raises in no other case. *)
Theorem comparison_revalidates (net : network) (today : date)
    (p : FlightSearchParams.t) (w : trace) :
  let again :=
    new_FlightSearchParams today (FlightSearchParams.origin p)
      (FlightSearchParams.destination p) (FlightSearchParams.depart_date p)
      SKYSCANNER in
  (forall e, again = Raise e -> search_all_sites net today p w = (Raise e, w))
  /\ (forall sp, again = Return sp ->
        exists out w',
          search_all_sites net today p w = (Return out, w')
          /\ requests_made w' = requests_made w + 3)
  /\ (forall e w', search_all_sites net today p w = (Raise e, w') ->
        again = Raise e /\ w' = w).
Proof.
  intros again.
  assert (H1 : forall e, again = Raise e ->
               search_all_sites net today p w = (Raise e, w))
    by (intros e; apply search_all_sites_raises).
  assert (H2 : forall sp, again = Return sp ->
               exists out w',
                 search_all_sites net today p w = (Return out, w')
                 /\ requests_made w' = requests_made w + 3).
  { intros sp H. destruct (@search_all_sites_returns net today p sp w H)
      as [out E].
    exists out, (snd (site_outcomes net sp 0 sites_to_check w)).
    split; [exact E | apply three_requests]. }
  split; [exact H1 | ]. split; [exact H2 | ].
  intros e w' H. destruct again as [sp | e0] eqn:Ea.
  - destruct (H2 sp eq_refl) as (out & w2 & E & _). congruence.
  - rewrite (H1 e0 eq_refl) in H. injection H as -> ->. auto.
Qed.

(** X18.  In a comparison the first row is the best deal: it is flagged
    as best and has the website, the price and the URL of the best deal;
    no other row is flagged, and there are as many rows as sites counted
    in [sites_checked]. *)
Theorem best_deal_heads_comparison (net : network) (today : date)
    (params : FlightSearchParams.t) (w w' : trace)
    (r : ComparisonResponse.t) :
  search_all_sites net today params w = (Return (inl r), w') ->
  exists row rest,
    ComparisonResponse.comparison r = row :: rest
    /\ ComparisonItem.is_best row = true
    /\ ComparisonItem.website row
       = BestDeal.website (ComparisonResponse.best_deal r)
    /\ ComparisonItem.cheapest_price row
       = BestDeal.price (ComparisonResponse.best_deal r)
    /\ ComparisonItem.url row = BestDeal.url (ComparisonResponse.best_deal r)
    /\ Forall (fun x => ComparisonItem.is_best x = false) rest
    /\ length (ComparisonResponse.comparison r)
       = ComparisonResponse.sites_checked r.
Proof.
  unfold search_all_sites.
  destruct (search_sites net today params 0 sites_to_check [] w)
    as [[all | e] w2] eqn:Es; [ | discriminate].
  intros H. injection H as H _.
  apply search_sites_kept in Es. destruct Es as (kept & -> & Hk).
  cbn [app] in H. pose proof (@kept_from_good _ _ _ Hk) as Hg.
  destruct (@compare_results_inv _ _ _ Hg H)
    as (first & others & rows & c & p & Eall & Hrows & Ec & Ep & ->).
  cbn [ComparisonResponse.comparison ComparisonResponse.best_deal
       ComparisonResponse.sites_checked BestDeal.website BestDeal.price
       BestDeal.url].
  set (best := min_by flt cheapest_key first others) in *.
  rewrite Eall in Hg, Hrows.
  destruct (@comparison_head first others rows Hg Hrows)
    as (row & rest & Esort & (c' & p' & Ec' & Ep' & Erow)).
  fold best in Ec', Erow. rewrite Ec in Ec'. injection Ec' as <-.
  rewrite Ep in Ep'. injection Ep' as <-.
  exists row, rest. split; [exact Esort | ].
  rewrite Erow. cbn [ComparisonItem.is_best ComparisonItem.website
                     ComparisonItem.cheapest_price ComparisonItem.url].
  split; [apply str_eqb_refl | ]. split; [reflexivity | ].
  split; [reflexivity | ]. split; [reflexivity | ]. split.
  - assert (Hnd : NoDup (map ComparisonItem.website (row :: rest))).
    { rewrite <- Esort.
      apply (Permutation_NoDup
               (l := map ComparisonItem.website rows)).
      - apply Permutation_map, Permutation_sym, sort_by_perm.
      - rewrite (@rows_websites _ _ _ Hrows). rewrite <- Eall.
        apply (@kept_from_NoDup sites_to_check); [ | exact Hk].
        unfold sites_to_check. repeat constructor; simpl; intuition congruence. }
    cbn [map] in Hnd. apply NoDup_cons_iff in Hnd. destruct Hnd as [Hnot _].
    apply Forall_forall. intros x Hx.
    assert (Hin : In x rows).
    { apply (sort_by_In flt item_key). rewrite Esort. now right. }
    rewrite (@rows_flag _ _ _ _ Hrows Hin).
    destruct (str_eqb (ComparisonItem.website x) (SearchResponse.website best))
      eqn:E; [ | reflexivity].
    apply str_eqb_eq in E. exfalso. apply Hnot.
    rewrite Erow. cbn [ComparisonItem.website]. rewrite <- E.
    now apply in_map.
  - rewrite sort_by_length. symmetry. rewrite <- Eall in Hrows.
    rewrite Eall. rewrite <- Eall. exact (Forall2_length Hrows).
Qed.

(** ** The command line *)

Section MainFacts.
Variable exn_text : exn -> str.

Lemma main_search (net : network) (today : date) (o d dd : str)
    (website : WebsiteName) (params : FlightSearchParams.t) :
  new_FlightSearchParams today o d dd website = Return params ->
  (website = COMPARE ->
   exists out w,
     search_all_sites net today params [] = (Return out, w)
     /\ requests_made w = 3)
  /\ (website <> COMPARE ->
      exists out w,
        search_flights net params [] = (Return out, w)
        /\ requests_made w = 1).
Proof.
  intros H. pose proof (@new_params_valid _ _ _ _ _ _ _ H) as Hv.
  split.
  - intros _.
    destruct (@search_all_sites_returns net today params _ []
                (@params_valid_site _ _ _ SKYSCANNER Hv)) as [out E].
    eexists out, _. split; [exact E | ]. now rewrite three_requests.
  - intros Hs. apply new_params_inv in H.
    destruct H as (o' & d' & dd' & _ & _ & _ & ->).
    destruct (@search_flights_run _ net website o' d' dd' [] Hs) as [out E].
    eexists out, _. split; [exact E | reflexivity].
Qed.

Lemma WebsiteName_eqb_eq (a b : WebsiteName) :
  WebsiteName_eqb a b = true <-> a = b.
Proof. destruct a, b; split; try discriminate; reflexivity. Qed.

(** X19.  Every run of [main] prints exactly one document.  It ends with
    status 1 only before any search, with a document that has the key
    "error" and without a request having been made; otherwise it ends
    with status 0 after one request, or after three in comparison mode.
    The handlers for exceptions of the search are never entered. *)
Theorem main_one_document (argv : list str) (env : option str)
    (net : network) (today : date) :
  let r := main exn_text argv env net today in
  exists doc,
    stdout r = [doc]
    /\ ((exit_code r = 1 /\ requests r = []
         /\ has_key (u "error") doc = true)
        \/ (exit_code r = 0
            /\ (requests_made (requests r) = 1
                \/ requests_made (requests r) = 3))).
Proof.
  cbn zeta. unfold main.
  destruct argv as [ | prog [ | o [ | d [ | dd rest]]]];
    try (exists usage; split; [reflexivity | left; repeat split]).
  destruct (WebsiteName_of _) as [website | ];
    [ | eexists; split; [reflexivity | left; repeat split]].
  destruct (new_FlightSearchParams today o d dd website) as [params | e] eqn:En;
    [ | eexists; split; [reflexivity | left; repeat split]].
  destruct (new_FlightSearcher None env) as [searcher | msg];
    [ | eexists; split; [reflexivity | left; repeat split]].
  destruct (@main_search net today o d dd website params En) as [Hc Hs].
  destruct (WebsiteName_eqb website COMPARE) eqn:Ew.
  - apply WebsiteName_eqb_eq in Ew.
    destruct (Hc Ew) as (out & w & -> & Hw).
    destruct out as [x | x]; eexists; (split; [reflexivity | right]);
      cbn [exit_code requests]; auto.
  - assert (Hne : website <> COMPARE).
    { intros ->. discriminate Ew. }
    destruct (Hs Hne) as (out & w & -> & Hw).
    destruct out as [x | x]; eexists; (split; [reflexivity | right]);
      cbn [exit_code requests]; auto.
Qed.


(** X21.  With arguments that pass the checks and an API key, [main]
    prints what the search returns and ends with status 0: the result of
    [search_all_sites] in comparison mode and of [search_flights]
    otherwise.  This is so also when the search returns a failure: after
    a timeout the failure that names the 30 seconds is printed and the
    status is still 0. *)
Theorem main_prints_search_result (prog o d dd : str) (rest : list str)
    (env : option str) (net : network) (today : date)
    (website : WebsiteName) (params : FlightSearchParams.t) :
  WebsiteName_of (match rest with
                  | a :: _ => lower a
                  | [] => u "skyscanner"
                  end) = Some website ->
  new_FlightSearchParams today o d dd website = Return params ->
  truthy_opt env = true ->
  let r := main exn_text (prog :: o :: d :: dd :: rest) env net today in
  exit_code r = 0
  /\ (website = COMPARE ->
      exists out,
        search_all_sites net today params [] = (Return out, requests r)
        /\ stdout r = [match out with
                       | inl x => dump_ComparisonResponse x
                       | inr e => dump_ErrorResponse e
                       end])
  /\ (website <> COMPARE ->
      exists out,
        search_flights net params [] = (Return out, requests r)
        /\ stdout r = [match out with
                       | inl x => dump_SearchResponse x
                       | inr e => dump_ErrorResponse e
                       end])
  /\ (website <> COMPARE ->
      net 0 (query_text website (FlightSearchParams.origin params)
               (FlightSearchParams.destination params)
               (FlightSearchParams.depart_date params)) = Timeout ->
      stdout r
      = [dump_ErrorResponse
           (ErrorResponse.mk (u "Search request timed out after 30 seconds")
              (Some (u "Try again or check your internet connection"))
              None)]).
Proof.
  intros Hw Hp Henv r.
  destruct (@main_search net today o d dd website params Hp) as [Hc Hs].
  assert (Er : r = let (result, w) :=
                     if WebsiteName_eqb website COMPARE then
                       match search_all_sites net today params [] with
                       | (Return (inl x), w) =>
                           (Return (dump_ComparisonResponse x), w)
                       | (Return (inr e), w) => (Return (dump_ErrorResponse e), w)
                       | (Raise e, w) => (Raise e, w)
                       end
                     else
                       match search_flights net params [] with
                       | (Return (inl x), w) => (Return (dump_SearchResponse x), w)
                       | (Return (inr e), w) => (Return (dump_ErrorResponse e), w)
                       | (Raise e, w) => (Raise e, w)
                       end in
                   match result with
                   | Return doc =>
                       {| stdout := [doc]; exit_code := 0; requests := w |}
                   | Raise e =>
                       if is_ValueError e then
                         failed (exn_text e)
                           (u "Make sure BRAVE_API_KEY environment variable is set")
                           w
                       else
                         failed (u "Unexpected error: " ++ exn_text e)
                           (u "Contact support if this persists") w
                   end).
  { subst r. unfold main. rewrite Hw, Hp. unfold new_FlightSearcher.
    cbn [truthy_opt]. now rewrite Henv. }
  clearbody r. subst r.
  destruct (WebsiteName_eqb website COMPARE) eqn:Ew.
  - apply WebsiteName_eqb_eq in Ew. destruct (Hc Ew) as (out & w & E & _).
    rewrite E.
    split; [now destruct out | ]. split; [ | split; congruence].
    intros _. exists out. now destruct out.
  - assert (Hne : website <> COMPARE) by (intros ->; discriminate Ew).
    destruct (Hs Hne) as (out & w & E & _). rewrite E.
    split; [now destruct out | ]. split; [congruence | ]. split.
    + intros _. exists out. now destruct out.
    + intros _ Ht. revert E Ht. apply new_params_inv in Hp.
      destruct Hp as (o' & d' & dd' & _ & _ & _ & ->).
      unfold search_flights.
      cbn [FlightSearchParams.website FlightSearchParams.origin
           FlightSearchParams.destination FlightSearchParams.depart_date].
      rewrite Ew.
      destruct (WEBSITES website) as [cfg | ] eqn:Ec; [ | discriminate].
      rewrite (@format_query website cfg o' d' dd' Ec).
      change (requests_made []) with 0. intros E Ht. rewrite Ht in E.
      injection E as <- <-. reflexivity.
Qed.

(** X22.  The names of the websites and the members of [WebsiteName]
    correspond one to one: the member of the name of a member is that
    member, and a text that names a member is its name.  The names are in
    lower case, so that [main], which puts the argument in lower case,
    takes a name written in capitals too. *)
Theorem website_names_round_trip (w : WebsiteName) :
  WebsiteName_of (value w) = Some w
  /\ (forall s, WebsiteName_of s = Some w -> s = value w)
  /\ lower (value w) = value w
  /\ WebsiteName_of (lower (upper (value w))) = Some w
  /\ join (u ", ") (map value members)
     = u "skyscanner, google, booking, compare".
Proof.
  split; [now destruct w | ]. split; [ | now destruct w].
  intros s H. unfold WebsiteName_of, members in H. cbn [find] in H.
  destruct (str_eqb (value SKYSCANNER) s) eqn:E1;
    [injection H as <-; symmetry; now apply str_eqb_eq | ].
  destruct (str_eqb (value GOOGLE) s) eqn:E2;
    [injection H as <-; symmetry; now apply str_eqb_eq | ].
  destruct (str_eqb (value BOOKING) s) eqn:E3;
    [injection H as <-; symmetry; now apply str_eqb_eq | ].
  destruct (str_eqb (value COMPARE) s) eqn:E4;
    [injection H as <-; symmetry; now apply str_eqb_eq | discriminate].
Qed.

(** X23.  A searcher that has been constructed has a key that is not
    empty: the key given, or the environment variable when no key or an
    empty one is given; with neither the construction fails with the
    message that asks for BRAVE_API_KEY.  The time limit of a request is
    30 seconds. *)
Theorem searcher_key (api_key env : option str) :
  (forall s, new_FlightSearcher api_key env = inl s ->
     FlightSearcher.api_key s <> []
     /\ Some (FlightSearcher.api_key s)
        = (if truthy_opt api_key then api_key else env)
     /\ FlightSearcher.timeout s = 30)
  /\ (forall msg, new_FlightSearcher api_key env = inr msg ->
        msg = key_missing /\ truthy_opt api_key = false
        /\ truthy_opt env = false)
  /\ (truthy_opt api_key = false ->
      new_FlightSearcher api_key env = new_FlightSearcher None env).
Proof.
  unfold new_FlightSearcher.
  destruct api_key as [[ | c k] | ], env as [[ | c' k'] | ];
    cbn [truthy_opt truthy get_default];
    (split; [ | split]); try discriminate; try reflexivity;
    try (intros s H; injection H as <-;
         cbn [FlightSearcher.api_key FlightSearcher.timeout];
         repeat split; discriminate);
    try (intros msg H; injection H as <-; repeat split).
Qed.

End MainFacts.

End Extras.

(** ** The properties on fixed data *)

Lemma airport_code_normal_form_witness :
  validate_airport_code (U := ascii_data) (32%N :: u "jfk" ++ [10%N])
  = Valid (u "JFK")
  /\ three_letters (u "JFK") = true
  /\ validate_airport_code (U := ascii_data) (u "JFK") = Valid (u "JFK").
Proof.
  destruct (@airport_code_normal_form ascii_data (32%N :: u "jfk" ++ [10%N]))
    as [_ H].
  destruct (H (u "JFK") eq_refl) as (_ & T & _ & V).
  split; [reflexivity | ]. split; [exact T | exact V].
Defined.

Lemma params_invariant_witness :
  new_FlightSearchParams (U := ascii_data) Demo.demo_today (u " jfk")
    (u "lhr") (u "2026-12-01") GOOGLE
  = Raise (ValidationError [(u "origin", string_too_long)])
  /\ new_FlightSearchParams (U := ascii_data) Demo.demo_today (u "jfk")
       (u "lhr") (u "2026-12-01") GOOGLE
     = Return (Demo.demo_params GOOGLE)
  /\ three_letters (FlightSearchParams.origin (Demo.demo_params GOOGLE)) = true
  /\ FlightSearchParams.depart_date (Demo.demo_params GOOGLE)
     = u "2026-12-01".
Proof.
  assert (H : new_FlightSearchParams (U := ascii_data) Demo.demo_today
                (u "jfk") (u "lhr") (u "2026-12-01") GOOGLE
              = Return (Demo.demo_params GOOGLE)) by reflexivity.
  destruct (@params_invariant ascii_data _ _ _ _ _ _ H)
    as (A & _ & _ & _ & B & _).
  split; [reflexivity | ]. split; [exact H | ]. split; [exact A | exact B].
Defined.

Lemma airport_field_accepts_witness :
  is_ascii_letter 106%N = true
  /\ origin_field (U := ascii_data) (u "jFk") = inr (u "JFK").
Proof.
  destruct (@airport_field_accepts ascii_data (u "jFk"))
    as (_ & _ & _ & _ & H).
  split; [reflexivity | ].
  exact (H 106%N 70%N 107%N eq_refl eq_refl eq_refl eq_refl).
Defined.

Lemma date_validity_monotone_witness :
  date_ltb Demo.demo_today (mkdate 2026 10 1) = false
  /\ validate_date (U := ascii_data) Demo.demo_today (u "2026-11-03")
     = Valid (u "2026-11-03")
  /\ validate_date (U := ascii_data) (mkdate 2026 10 1) (u "2026-11-03")
     = Valid (u "2026-11-03").
Proof.
  destruct (@date_validity_monotone ascii_data Demo.demo_today
              (mkdate 2026 10 1) (u "2026-11-03") eq_refl) as [H _].
  split; [reflexivity | ]. split; [reflexivity | ].
  apply H. reflexivity.
Defined.

Lemma search_flights_requests_witness :
  exists out,
    search_flights (U := ascii_data) Demo.demo_net (Demo.demo_params GOOGLE) []
    = (Return out,
       [Get (u "site:google.com/travel/flights direct flights JFK to LHR 2026-12-01")]).
Proof.
  destruct (@search_flights_requests ascii_data Demo.demo_net
              (Demo.demo_params GOOGLE) []) as [_ H].
  destruct H as (out & E & _); [discriminate | ].
  exists out. exact E.
Defined.

Lemma search_flights_outcomes_witness :
  SKYSCANNER <> COMPARE
  /\ fst (search_flights (U := ascii_data) (fun _ _ => Timeout)
            (Demo.demo_params SKYSCANNER) [])
     = Return (inr (ErrorResponse.mk
                      (u "Search request timed out after 30 seconds")
                      (Some (u "Try again or check your internet connection"))
                      None)).
Proof.
  assert (H : SKYSCANNER <> COMPARE) by discriminate.
  split; [exact H | ].
  exact (@search_flights_outcomes ascii_data (fun _ _ => Timeout) (u "JFK")
           (u "LHR") (u "2026-12-01") SKYSCANNER [] H).
Defined.

Lemma response_results_belong_witness :
  exists resp w',
    Demo.demo_search = (Return (inl resp), w')
    /\ forall r, In r (SearchResponse.results resp) ->
         FlightResult.website r = SearchResponse.website resp
         /\ length (FlightResult.description r) <= 203.
Proof.
  eexists. eexists.
  match goal with
  | |- ?A /\ _ => assert (H : A) by (vm_compute; reflexivity)
  end.
  split; [exact H | ].
  destruct (@response_results_belong ascii_data Demo.demo_net
              (Demo.demo_params SKYSCANNER) [] _ _ H)
    as (cfg & data & _ & _ & _ & Hall).
  intros r Hr. destruct (Hall r Hr) as (A & _ & _ & B & _).
  split; [exact A | exact B].
Defined.

Lemma response_count_witness :
  exists resp w',
    Demo.demo_search = (Return (inl resp), w')
    /\ SearchResponse.count resp = 3
    /\ exists n, SearchResponse.count resp = Nat.min 10 n.
Proof.
  eexists. eexists.
  match goal with
  | |- ?A /\ _ => assert (H : A) by (vm_compute; reflexivity)
  end.
  split; [exact H | ]. split; [reflexivity | ].
  destruct (@response_count ascii_data Demo.demo_net
              (Demo.demo_params SKYSCANNER) [] _ _ H)
    as (cfg & data & ranked & _ & _ & _ & _ & Hc & _).
  eexists. exact Hc.
Defined.

Lemma cheapest_is_least_witness :
  exists resp w',
    Demo.demo_search = (Return (inl resp), w')
    /\ forall c, SearchResponse.cheapest resp = Some c ->
         has_price c = true.
Proof.
  eexists. eexists.
  match goal with
  | |- ?A /\ _ => assert (H : A) by (vm_compute; reflexivity)
  end.
  split; [exact H | ].
  destruct (@cheapest_is_least ascii_data Demo.demo_net
              (Demo.demo_params SKYSCANNER) [] _ _ H)
    as (cfg & data & _ & _ & _ & Hc).
  intros c E. now destruct (Hc c E) as (_ & Hp & _).
Defined.

Lemma empty_payload_response_witness :
  fst (search_flights (U := ascii_data)
         (fun _ _ => Json {| web := None |}) (Demo.demo_params SKYSCANNER) [])
  = Return (inl (SearchResponse.mk (u "Skyscanner")
                   (u "site:skyscanner.com direct flights JFK to LHR 2026-12-01")
                   [] None 0)).
Proof.
  assert (H : SKYSCANNER <> COMPARE) by discriminate.
  destruct (@empty_payload_response ascii_data
              (fun _ _ => Json {| web := None |}) (u "JFK") (u "LHR")
              (u "2026-12-01") SKYSCANNER [] {| web := None |} H eq_refl
              (or_introl eq_refl)) as (cfg & Ew & E).
  cbn [WEBSITES] in Ew. injection Ew as <-. exact E.
Defined.

Lemma extract_price_none_witness :
  _extract_price (U := ascii_data) (u "Flights from 200") = None
  /\ ~ price_begins (U := ascii_data) is_currency (u "Flights from 200").
Proof.
  split; [reflexivity | ].
  exact (proj1 (@extract_price_none ascii_data (u "Flights from 200")) eq_refl).
Defined.

Lemma extracted_price_shape_witness :
  _extract_price (U := ascii_data)
    (u "Flights from $200, also listed at £150") = Some (u "$200,")
  /\ exists pre post,
       u "Flights from $200, also listed at £150"
       = pre ++ u "$200," ++ post.
Proof.
  split; [reflexivity | ].
  destruct (@extracted_price_shape ascii_data
              (u "Flights from $200, also listed at £150") (u "$200,")
              eq_refl) as (pre & c & body & frac & post & E & _).
  exists pre, post. exact E.
Defined.

Lemma extract_price_priority_witness :
  price_begins (U := ascii_data) is_dollar (u "£150 or $200")
  /\ exists rest,
       _extract_price (U := ascii_data) (u "£150 or $200")
       = Some (36%N :: rest).
Proof.
  assert (H : price_begins (U := ascii_data) is_dollar (u "£150 or $200")).
  { exists (u "£150 or "), 36%N, 50%N, (u "00"). repeat split. }
  split; [exact H | ].
  exact (proj1 (@extract_price_priority ascii_data (u "£150 or $200")) H).
Defined.

Lemma extracted_price_range_witness :
  flt (_parse_price (U := ascii_data) (Some (u "-5"))) zero = true
  /\ exists s, Some (u "-5") = Some s /\ In 45%N s.
Proof.
  assert (H : flt (_parse_price (U := ascii_data) (Some (u "-5"))) zero = true)
    by reflexivity.
  split; [exact H | ].
  destruct (@extracted_price_range ascii_data []) as (_ & _ & Hs).
  exact (Hs (Some (u "-5")) H).
Defined.

Lemma price_without_digits_witness :
  is_currency 36%N = true
  /\ _extract_price (U := ascii_data) (u "$,") = Some (u "$,")
  /\ _parse_price (U := ascii_data) (Some (u "$,")) = inf.
Proof.
  assert (H : is_currency 36%N = true) by reflexivity.
  destruct (@price_without_digits ascii_data 36%N 0 H) as (A & _ & B & _).
  split; [exact H | ]. split; [exact A | exact B].
Defined.

Lemma comparison_revalidates_witness :
  exists e,
    new_FlightSearchParams (U := ascii_data) Demo.demo_today (u "JFK")
      (u "LHR") (u "2020-01-01") SKYSCANNER = Raise e
    /\ search_all_sites (U := ascii_data) Demo.demo_net Demo.demo_today
         (FlightSearchParams.mk (u "JFK") (u "LHR") (u "2020-01-01") COMPARE)
         []
       = (Raise e, []).
Proof.
  eexists.
  match goal with
  | |- ?A /\ _ => assert (H : A) by (vm_compute; reflexivity)
  end.
  split; [exact H | ].
  exact (proj1 (@comparison_revalidates ascii_data Demo.demo_net
                  Demo.demo_today
                  (FlightSearchParams.mk (u "JFK") (u "LHR") (u "2020-01-01")
                     COMPARE) []) _ H).
Defined.

Lemma best_deal_heads_comparison_witness :
  exists r w',
    Demo.demo_comparison = (Return (inl r), w')
    /\ exists row rest,
         ComparisonResponse.comparison r = row :: rest
         /\ ComparisonItem.is_best row = true
         /\ Forall (fun x => ComparisonItem.is_best x = false) rest.
Proof.
  eexists. eexists.
  match goal with
  | |- ?A /\ _ => assert (H : A) by (vm_compute; reflexivity)
  end.
  split; [exact H | ].
  destruct (@best_deal_heads_comparison ascii_data Demo.demo_net
              Demo.demo_today (Demo.demo_params COMPARE) [] _ _ H)
    as (row & rest & E & B & _ & _ & _ & F & _).
  exists row, rest. split; [exact E | ]. split; [exact B | exact F].
Defined.


Lemma main_prints_search_result_witness :
  WebsiteName_of (lower (U := ascii_data) (u "GOOGLE")) = Some GOOGLE
  /\ exit_code (Demo.demo_main (u "GOOGLE") (Some (u "key"))) = 0.
Proof.
  assert (H : WebsiteName_of (lower (U := ascii_data) (u "GOOGLE"))
              = Some GOOGLE) by reflexivity.
  split; [exact H | ].
  destruct (@main_prints_search_result ascii_data Demo.demo_exn_text
              (u "flight_search.py") (u "jfk") (u "lhr") (u "2026-12-01")
              [u "GOOGLE"] (Some (u "key")) Demo.demo_net Demo.demo_today
              GOOGLE (Demo.demo_params GOOGLE) H eq_refl eq_refl) as [E _].
  exact E.
Defined.

Lemma website_names_round_trip_witness :
  WebsiteName_of (u "google") = Some GOOGLE /\ u "google" = value GOOGLE.
Proof.
  assert (H : WebsiteName_of (u "google") = Some GOOGLE) by reflexivity.
  split; [exact H | ].
  destruct (@website_names_round_trip ascii_data GOOGLE) as (_ & Hs & _).
  exact (Hs (u "google") H).
Defined.

Lemma searcher_key_witness :
  exists s,
    new_FlightSearcher (Some []) (Some (u "key")) = inl s
    /\ FlightSearcher.api_key s = u "key".
Proof.
  eexists.
  match goal with
  | |- ?A /\ _ => assert (H : A) by (vm_compute; reflexivity)
  end.
  split; [exact H | ].
  destruct (searcher_key (Some []) (Some (u "key"))) as (Hs & _).
  destruct (Hs _ H) as (_ & E & _).
  exact (f_equal (fun o : option str => get_default o) E).
Defined.

End Extras.

